(** * ShortLink Pro: the short-link registry and its event log

    A shallow embedding of [lib/url-shortener.ts] (class [UrlShortenerService])
    and [middleware/logger.ts] (class [Logger]), with the properties of the
    specification stated and proved over it.

    Modelling conventions.
    - A JS [Map] is an association list in insertion order ([JsMap]): iteration
      order is observable through [getAllUrls].
    - A JS [number] holding a count is a mathematical integer ([Z]); the model
      is exact as long as the counts stay in the safe-integer range.
    - An ISO timestamp ([new Date().toISOString()]) is the millisecond reading
      it encodes ([Z]); [new Date(s).getTime()] is then the identity.
    - Every source of nondeterminism ([Math.random], [new Date()], a failing
      [localStorage.setItem]) is an oracle of the environment [Env], indexed
      by a counter of the world that advances at every read.
    - [console.*] output is not part of the state and is left out.
    - The [do ... while] loop of [shortenUrl] has no bound: it is run with
      fuel, and [None] stands for a call that has not returned within it. *)

From Stdlib Require Import List String Ascii ZArith Lia Bool Arith.
From Stdlib Require Import Permutation Sorted.
Import ListNotations.

Local Open Scope bool_scope.
Local Open Scope nat_scope.

(** ** JavaScript primitives used by the two classes *)

Module Js.

(** [String.prototype.charAt]: the empty string out of range. *)
Definition charAt (s : string) (i : nat) : string :=
  match String.get i s with
  | Some c => String c EmptyString
  | None => EmptyString
  end.

(** Truthiness of an optional string: [undefined] and [""] are falsy. *)
Definition truthy (s : option string) : bool :=
  match s with
  | Some s => negb (String.eqb s EmptyString)
  | None => false
  end.

(** Relative index of [Array.prototype.slice]. *)
Definition rel_index (len i : Z) : Z :=
  if (i <? 0)%Z then Z.max (len + i) 0 else Z.min i len.

(** [Array.prototype.slice(start, end)]; [fin = None] when [end] is omitted. *)
Definition slice {A : Type} (start : Z) (fin : option Z) (l : list A) : list A :=
  let len := Z.of_nat (List.length l) in
  let k := rel_index len start in
  let final := match fin with Some e => rel_index len e | None => len end in
  firstn (Z.to_nat (final - k)) (skipn (Z.to_nat k) l).

(** [Array.prototype.sort(cmp)]: a stable sort; [cmp a b <= 0] keeps [a]
    before [b]. *)
Section Sort.
Context {A : Type} (cmp : A -> A -> Z).

Fixpoint insert (x : A) (l : list A) : list A :=
  match l with
  | [] => [x]
  | y :: l' => if (cmp x y <=? 0)%Z then x :: l else y :: insert x l'
  end.

Definition sort (l : list A) : list A := fold_right insert [] l.
End Sort.

(** Outcome of a statement that may throw. *)
Inductive Completion (A : Type) : Type :=
| Normal (a : A)
| Throw (exn : string).
Arguments Normal {A} a.
Arguments Throw {A} exn.

End Js.

(** A JS [Map] with string keys, in insertion order. *)
Module JsMap.
Section Ops.
Context {V : Type}.

Definition t := list (string * V).

Definition has (k : string) (m : t) : bool :=
  existsb (fun p => String.eqb (fst p) k) m.

Fixpoint get (k : string) (m : t) : option V :=
  match m with
  | [] => None
  | (k', v) :: m' => if String.eqb k' k then Some v else get k m'
  end.

(** [set] on a present key keeps its position, on an absent one appends. *)
Fixpoint set (k : string) (v : V) (m : t) : t :=
  match m with
  | [] => [(k, v)]
  | (k', v') :: m' =>
      if String.eqb k' k then (k, v) :: m' else (k', v') :: set k v m'
  end.

Definition delete (k : string) (m : t) : t :=
  filter (fun p => negb (String.eqb (fst p) k)) m.

Definition size (m : t) : nat := List.length m.

Definition values (m : t) : list V := map snd m.

(** Keys of a [Map] are pairwise distinct. *)
Definition wf (m : t) : Prop := NoDup (map fst m).
End Ops.
Arguments t V : clear implicits.
End JsMap.

(** ** Data model *)

(** Values stored in a log context. *)
Inductive JsValue : Type :=
| JUndefined
| JBool (b : bool)
| JNum (n : Z)
| JStr (s : string).

Abbreviation LogContext := (list (string * JsValue)).

Definition JOptStr (s : option string) : JsValue :=
  match s with Some s => JStr s | None => JUndefined end.

Module Log.
Inductive Level : Type := INFO | WARN | ERROR | DEBUG.

Record LogEntry : Type := {
  id : string;
  timestamp : Z;
  level : Level;
  message : string;
  context : option LogContext;
  userId : option string;
  action : option string
}.
End Log.

Module Url.
Record ClickEvent : Type := {
  timestamp : Z;
  userAgent : option string;
  referrer : option string
}.

Record ShortenedUrl : Type := {
  id : string;
  originalUrl : string;
  shortCode : string;
  customCode : bool;
  createdAt : Z;
  clicks : Z;
  lastAccessed : option Z;
  clickHistory : list ClickEvent
}.

Record UrlStats : Type := {
  totalUrls : nat;
  totalClicks : Z;
  topUrls : list ShortenedUrl;
  recentActivity : list ShortenedUrl
}.

(** The object returned by [shortenUrl]. *)
Record ShortenResult : Type := {
  success : bool;
  data : option ShortenedUrl;
  error : option string
}.
End Url.

(** What [localStorage] holds under a key (the JSON text is not modelled). *)
Inductive Stored : Type :=
| StoredUrls (m : JsMap.t Url.ShortenedUrl)
| StoredLogs (l : list Log.LogEntry).

(** The state of the two singletons and of the browser storage. *)
Record World : Type := {
  logs : list Log.LogEntry;              (* Logger.logs, newest first *)
  urls : JsMap.t Url.ShortenedUrl;       (* UrlShortenerService.urls *)
  localStorage : JsMap.t Stored;
  tick : nat                             (* reads of the environment so far *)
}.

Definition set_logs (l : list Log.LogEntry) (w : World) : World :=
  {| logs := l; urls := urls w; localStorage := localStorage w; tick := tick w |}.
Definition set_urls (m : JsMap.t Url.ShortenedUrl) (w : World) : World :=
  {| logs := logs w; urls := m; localStorage := localStorage w; tick := tick w |}.
Definition set_localStorage (s : JsMap.t Stored) (w : World) : World :=
  {| logs := logs w; urls := urls w; localStorage := s; tick := tick w |}.
Definition set_tick (n : nat) (w : World) : World :=
  {| logs := logs w; urls := urls w; localStorage := localStorage w; tick := n |}.

(** The environment the code runs in. *)
Record Env : Type := {
  window_defined : bool;          (* typeof window !== "undefined" *)
  localStorage_ok : bool;         (* evaluating [localStorage] does not throw *)
  setItem_ok : nat -> bool;       (* this [setItem] does not exceed the quota *)
  setItem_error : string;         (* message of the exception it throws *)
  random_index : nat -> nat;      (* Math.floor(Math.random() * chars.length) *)
  random_id : nat -> string;      (* Math.random().toString(36).substr(2, 9) *)
  now : nat -> Z;                 (* new Date() *)
  URL_parses : string -> bool     (* new URL(url) does not throw *)
}.

(** ** A state monad over the world *)

Definition M (A : Type) : Type := World -> A * World.

Definition ret {A : Type} (a : A) : M A := fun w => (a, w).

Definition bind {A B : Type} (c : M A) (k : A -> M B) : M B :=
  fun w => let (a, w') := c w in k a w'.

Declare Scope m_scope.
Delimit Scope m_scope with M.
Notation "x <- c ;; k" := (bind c (fun x => k))
  (at level 61, c at next level, right associativity) : m_scope.
Notation "c ;;; k" := (bind c (fun _ => k))
  (at level 61, right associativity) : m_scope.

(** One read of an oracle of the environment. *)
Definition read {A : Type} (oracle : nat -> A) : M A :=
  fun w => (oracle (tick w), set_tick (S (tick w)) w).

Definition modify (f : World -> World) : M unit := fun w => (tt, f w).

Definition gets {A : Type} (f : World -> A) : M A := fun w => (f w, w).

(** ** middleware/logger.ts *)

Module Logger.
Import Log.
Local Open Scope m_scope.
Local Open Scope string_scope.

Definition maxLogs : nat := 1000.

Section WithEnv.
Variable env : Env.

Definition generateId : M string := read (random_id env).

Definition getCurrentUserId : string := "anonymous-user".

Definition createLogEntry (lvl : Level) (msg : string)
    (ctx : option LogContext) (act : option string) : M LogEntry :=
  i <- generateId ;;
  t <- read (now env) ;;
  ret {| id := i; timestamp := t; level := lvl; message := msg;
         context := ctx; action := act; userId := Some getCurrentUserId |}.

(** [localStorage.setItem(key, JSON.stringify(v))]. *)
Definition setItem (key : string) (v : Stored) : M (Js.Completion unit) :=
  if localStorage_ok env then
    ok <- read (setItem_ok env) ;;
    if ok then
      modify (fun w => set_localStorage (JsMap.set key v (localStorage w)) w) ;;;
      ret (Js.Normal tt)
    else ret (Js.Throw (setItem_error env))
  else ret (Js.Throw "localStorage is not defined").

(** [localStorage.removeItem(key)]. *)
Definition removeItem (key : string) : M (Js.Completion unit) :=
  if localStorage_ok env then
    modify (fun w => set_localStorage (JsMap.delete key (localStorage w)) w) ;;;
    ret (Js.Normal tt)
  else ret (Js.Throw "localStorage is not defined").

Definition persistLog (entry : LogEntry) : M unit :=
  modify (fun w => set_logs (entry :: logs w) w) ;;;
  n <- gets (fun w => List.length (logs w)) ;;
  (if (maxLogs <? n)%nat
   then modify (fun w => set_logs (Js.slice 0 (Some (Z.of_nat maxLogs)) (logs w)) w)
   else ret tt) ;;;
  l <- gets logs ;;
  _ <- setItem "app-logs" (StoredLogs l) ;;   (* a throw is caught *)
  ret tt.

Definition info (msg : string) (ctx : option LogContext) (act : option string)
    : M unit :=
  entry <- createLogEntry INFO msg ctx act ;; persistLog entry.

Definition warn (msg : string) (ctx : option LogContext) (act : option string)
    : M unit :=
  entry <- createLogEntry WARN msg ctx act ;; persistLog entry.

Definition error (msg : string) (ctx : option LogContext) (act : option string)
    : M unit :=
  entry <- createLogEntry ERROR msg ctx act ;; persistLog entry.

Definition debug (msg : string) (ctx : option LogContext) (act : option string)
    : M unit :=
  entry <- createLogEntry DEBUG msg ctx act ;; persistLog entry.

Definition getLogs : M (list LogEntry) := gets logs.

(** [removeItem] is not guarded: when it throws, [clearLogs] stops there. *)
Definition clearLogs : M (Js.Completion unit) :=
  modify (set_logs []) ;;;
  r <- removeItem "app-logs" ;;
  match r with
  | Js.Throw e => ret (Js.Throw e)
  | Js.Normal _ =>
      info "Logs cleared by user" (Some []) (Some "CLEAR_LOGS") ;;;
      ret (Js.Normal tt)
  end.

End WithEnv.
End Logger.

(** ** lib/url-shortener.ts *)

(** The regular expression [/^[a-zA-Z0-9]{lo,hi}$/] (no flags). *)
Definition is_alnum (c : ascii) : bool :=
  let n := nat_of_ascii c in
  ((97 <=? n) && (n <=? 122)) || ((65 <=? n) && (n <=? 90))
  || ((48 <=? n) && (n <=? 57)).

Definition regex_alnum (lo hi : nat) (s : string) : bool :=
  forallb is_alnum (list_ascii_of_string s)
  && (lo <=? String.length s) && (String.length s <=? hi).

Module UrlShortenerService.
Import Url.
Local Open Scope m_scope.
Local Open Scope string_scope.

Definition STORAGE_KEY : string := "shortened-urls".

Definition chars : string :=
  "abcdefghijklmnopqrstuvwxyzABCDEFGHIJKLMNOPQRSTUVWXYZ0123456789".

(** The error messages of [shortenUrl], under the names of the error taxonomy. *)
Definition InvalidUrl : string := "Invalid URL format".
Definition InvalidShortCode : string :=
  "Custom shortcode must be 3-20 alphanumeric characters".
Definition ShortCodeTaken : string := "Custom shortcode already exists".

Definition failure (e : string) : ShortenResult :=
  {| success := false; data := None; error := Some e |}.

(** In-place updates of a record. *)
Definition with_clicks (n : Z) (u : ShortenedUrl) : ShortenedUrl :=
  {| id := id u; originalUrl := originalUrl u; shortCode := shortCode u;
     customCode := customCode u; createdAt := createdAt u; clicks := n;
     lastAccessed := lastAccessed u; clickHistory := clickHistory u |}.
Definition with_lastAccessed (t : option Z) (u : ShortenedUrl) : ShortenedUrl :=
  {| id := id u; originalUrl := originalUrl u; shortCode := shortCode u;
     customCode := customCode u; createdAt := createdAt u; clicks := clicks u;
     lastAccessed := t; clickHistory := clickHistory u |}.
Definition with_clickHistory (h : list ClickEvent) (u : ShortenedUrl)
    : ShortenedUrl :=
  {| id := id u; originalUrl := originalUrl u; shortCode := shortCode u;
     customCode := customCode u; createdAt := createdAt u; clicks := clicks u;
     lastAccessed := lastAccessed u; clickHistory := h |}.

(** [new Date(s).getTime()] of an optional timestamp. *)
Definition getTime (t : option Z) : Z :=
  match t with Some t => t | None => 0%Z end.

Definition isValidShortCode (code : string) : bool := regex_alnum 3 20 code.

Section WithEnv.
Variable env : Env.

(** [Object.fromEntries] and [JSON.stringify]: the snapshot of the map. *)
Definition saveToStorage : M unit :=
  if window_defined env then
    m <- gets urls ;;
    r <- Logger.setItem env STORAGE_KEY (StoredUrls m) ;;
    match r with
    | Js.Normal _ =>
        n <- gets (fun w => JsMap.size (urls w)) ;;
        Logger.debug env "URLs saved to storage"
          (Some [("count", JNum (Z.of_nat n))]) (Some "SAVE_STORAGE")
    | Js.Throw e =>
        Logger.error env "Failed to save URLs to storage"
          (Some [("error", JStr e)]) (Some "SAVE_STORAGE_ERROR")
    end
  else ret tt.

(** The body of the [for] loop of [generateShortCode], [n] rounds of it. *)
Fixpoint generateShortCode_loop (n : nat) (result : string) : M string :=
  match n with
  | O => ret result
  | S n' =>
      i <- read (random_index env) ;;
      generateShortCode_loop n' (result ++ Js.charAt chars i)
  end.

Definition generateShortCode : M string := generateShortCode_loop 6 "".

Definition isValidUrl (url : string) : bool := URL_parses env url.

(** [do { shortCode = generateShortCode() } while (urls.has(shortCode))]:
    the loop has no bound, [None] is a run that needs more than [fuel]
    rounds. *)
Fixpoint generateUnique (fuel : nat) (w : World) : option (string * World) :=
  match fuel with
  | O => None
  | S fuel' =>
      let (shortCode, w1) := generateShortCode w in
      if JsMap.has shortCode (urls w1) then generateUnique fuel' w1
      else Some (shortCode, w1)
  end.

(** The tail of [shortenUrl], from the creation of the record on. *)
Definition createShortenedUrl (originalUrl shortCode : string)
    (customCode : option string) : M ShortenResult :=
  i <- read (random_id env) ;;
  t <- read (now env) ;;
  let shortenedUrl :=
    {| id := i; originalUrl := originalUrl; shortCode := shortCode;
       customCode := Js.truthy customCode; createdAt := t; clicks := 0%Z;
       lastAccessed := None; clickHistory := [] |} in
  modify (fun w => set_urls (JsMap.set shortCode shortenedUrl (urls w)) w) ;;;
  saveToStorage ;;;
  Logger.info env "URL shortened successfully"
    (Some [("shortCode", JStr shortCode); ("originalUrl", JStr originalUrl);
           ("isCustom", JBool (Js.truthy customCode))])
    (Some "SHORTEN_SUCCESS") ;;;
  ret {| success := true; data := Some shortenedUrl; error := None |}.

Definition shortenUrl (fuel : nat) (originalUrl : string)
    (customCode : option string) (w : World)
    : option (ShortenResult * World) :=
  let (_, w) :=
    Logger.info env "URL shortening requested"
      (Some [("originalUrl", JStr originalUrl);
             ("customCode", JBool (Js.truthy customCode));
             ("customCodeValue", JOptStr customCode)])
      (Some "SHORTEN_REQUEST") w in
  if negb (isValidUrl originalUrl) then
    Some ((Logger.warn env "Invalid URL provided"
             (Some [("originalUrl", JStr originalUrl)]) (Some "INVALID_URL") ;;;
           ret (failure InvalidUrl)) w)
  else
    match (if Js.truthy customCode then customCode else None) with
    | Some code =>
        if negb (isValidShortCode code) then
          Some ((Logger.warn env "Invalid custom shortcode format"
                   (Some [("customCode", JStr code)])
                   (Some "INVALID_SHORTCODE") ;;;
                 ret (failure InvalidShortCode)) w)
        else if JsMap.has code (urls w) then
          Some ((Logger.warn env "Custom shortcode already exists"
                   (Some [("customCode", JStr code)])
                   (Some "SHORTCODE_EXISTS") ;;;
                 ret (failure ShortCodeTaken)) w)
        else Some (createShortenedUrl originalUrl code customCode w)
    | None =>
        match generateUnique fuel w with
        | None => None
        | Some (shortCode, w) =>
            Some ((Logger.debug env "Generated shortcode"
                     (Some [("shortCode", JStr shortCode)])
                     (Some "SHORTCODE_GENERATED") ;;;
                   createShortenedUrl originalUrl shortCode customCode) w)
        end
    end.

Definition getUrl (shortCode : string) : M (option ShortenedUrl) :=
  Logger.debug env "URL lookup requested"
    (Some [("shortCode", JStr shortCode)]) (Some "URL_LOOKUP") ;;;
  url <- gets (fun w => JsMap.get shortCode (urls w)) ;;
  match url with
  | None =>
      Logger.warn env "URL not found"
        (Some [("shortCode", JStr shortCode)]) (Some "URL_NOT_FOUND") ;;;
      ret None
  | Some u => ret (Some u)
  end.

Definition recordClick (shortCode : string) (userAgent referrer : option string)
    : M bool :=
  Logger.info env "Click recording requested"
    (Some [("shortCode", JStr shortCode);
           ("hasUserAgent", JBool (Js.truthy userAgent));
           ("hasReferrer", JBool (Js.truthy referrer))])
    (Some "RECORD_CLICK") ;;;
  url <- gets (fun w => JsMap.get shortCode (urls w)) ;;
  match url with
  | None =>
      Logger.warn env "Cannot record click - URL not found"
        (Some [("shortCode", JStr shortCode)]) (Some "CLICK_RECORD_FAILED") ;;;
      ret false
  | Some url =>
      let url := with_clicks (clicks url + 1) url in
      t <- read (now env) ;;
      let url := with_lastAccessed (Some t) url in
      t' <- read (now env) ;;
      let url :=
        with_clickHistory
          (clickHistory url ++
           [{| timestamp := t'; userAgent := userAgent; referrer := referrer |}])
          url in
      let url :=
        if (100 <? List.length (clickHistory url))%nat
        then with_clickHistory (Js.slice (-100) None (clickHistory url)) url
        else url in
      (* the record is mutated in place: same key, same position *)
      modify (fun w => set_urls (JsMap.set shortCode url (urls w)) w) ;;;
      saveToStorage ;;;
      Logger.info env "Click recorded successfully"
        (Some [("shortCode", JStr shortCode); ("totalClicks", JNum (clicks url))])
        (Some "CLICK_RECORDED") ;;;
      ret true
  end.

Definition getAllUrls : M (list ShortenedUrl) :=
  n <- gets (fun w => JsMap.size (urls w)) ;;
  Logger.debug env "All URLs requested"
    (Some [("count", JNum (Z.of_nat n))]) (Some "GET_ALL_URLS") ;;;
  m <- gets urls ;;
  ret (Js.sort (fun a b => (createdAt b - createdAt a)%Z) (JsMap.values m)).

Definition getStats : M UrlStats :=
  Logger.debug env "Statistics requested" (Some []) (Some "GET_STATS") ;;;
  allUrls <- getAllUrls ;;
  let totalClicks :=
    fold_left (fun sum url => (sum + clicks url)%Z) allUrls 0%Z in
  let stats :=
    {| totalUrls := List.length allUrls;
       totalClicks := totalClicks;
       topUrls :=
         Js.slice 0 (Some 10%Z)
           (Js.sort (fun a b => (clicks b - clicks a)%Z)
              (filter (fun url => (0 <? clicks url)%Z) allUrls));
       recentActivity :=
         Js.slice 0 (Some 10%Z)
           (Js.sort
              (fun a b => (getTime (lastAccessed b) - getTime (lastAccessed a))%Z)
              (filter
                 (fun url => match lastAccessed url with
                             | Some _ => true | None => false end)
                 allUrls)) |} in
  Logger.info env "Statistics generated"
    (Some [("totalUrls", JNum (Z.of_nat (totalUrls stats)));
           ("totalClicks", JNum (Url.totalClicks stats));
           ("topUrlsCount", JNum (Z.of_nat (List.length (topUrls stats))))])
    (Some "STATS_GENERATED") ;;;
  ret stats.

Definition deleteUrl (shortCode : string) : M bool :=
  Logger.info env "URL deletion requested"
    (Some [("shortCode", JStr shortCode)]) (Some "DELETE_REQUEST") ;;;
  existed <- gets (fun w => JsMap.has shortCode (urls w)) ;;
  (if existed then
     modify (fun w => set_urls (JsMap.delete shortCode (urls w)) w) ;;;
     saveToStorage ;;;
     Logger.info env "URL deleted successfully"
       (Some [("shortCode", JStr shortCode)]) (Some "DELETE_SUCCESS")
   else
     Logger.warn env "Cannot delete - URL not found"
       (Some [("shortCode", JStr shortCode)]) (Some "DELETE_FAILED")) ;;;
  ret existed.

End WithEnv.
End UrlShortenerService.

Import UrlShortenerService.
Local Open Scope string_scope.

(** ** Specification vocabulary *)

(** The last [n] elements of a list. *)
Definition lastn {A : Type} (n : nat) (l : list A) : list A :=
  skipn (List.length l - n) l.

(** A call of the log, [record(level, message, context, action)]: one of the
    four methods of [Logger]. *)
Definition LogCall : Type :=
  (Log.Level * string * option LogContext * option string)%type.

Definition record (env : Env) (c : LogCall) : M unit :=
  match c with
  | (Log.INFO, msg, ctx, act) => Logger.info env msg ctx act
  | (Log.WARN, msg, ctx, act) => Logger.warn env msg ctx act
  | (Log.ERROR, msg, ctx, act) => Logger.error env msg ctx act
  | (Log.DEBUG, msg, ctx, act) => Logger.debug env msg ctx act
  end.

Fixpoint record_all (env : Env) (cs : list LogCall) : M unit :=
  match cs with
  | [] => ret tt
  | c :: cs' => bind (record env c) (fun _ => record_all env cs')
  end.

(** What a log entry says, without its id and timestamp. *)
Definition call_of (e : Log.LogEntry) : LogCall :=
  (Log.level e, Log.message e, Log.context e, Log.action e).

(** Order of a list sorted by an integer key, largest first. *)
Definition descending {A : Type} (key : A -> Z) (a b : A) : Prop :=
  (key b <= key a)%Z.

(** The entry a logging call builds in world [w]. *)
Definition entry_of (env : Env) (c : LogCall) (w : World) : Log.LogEntry :=
  let '(lvl, msg, ctx, act) := c in
  {| Log.id := random_id env (tick w);
     Log.timestamp := now env (S (tick w));
     Log.level := lvl; Log.message := msg; Log.context := ctx;
     Log.action := act; Log.userId := Some Logger.getCurrentUserId |}.

Definition click_request (shortCode : string) (userAgent referrer : option string)
    : LogCall :=
  (Log.INFO, "Click recording requested",
   Some [("shortCode", JStr shortCode);
         ("hasUserAgent", JBool (Js.truthy userAgent));
         ("hasReferrer", JBool (Js.truthy referrer))],
   Some "RECORD_CLICK").

Definition click_failed (shortCode : string) : LogCall :=
  (Log.WARN, "Cannot record click - URL not found",
   Some [("shortCode", JStr shortCode)], Some "CLICK_RECORD_FAILED").

(** The click event pushed by a call made in world [w], and the record
    after that call. *)
Definition click_event (env : Env) (shortCode : string)
    (userAgent referrer : option string) (w : World) : Url.ClickEvent :=
  let w1 := snd (record env (click_request shortCode userAgent referrer) w) in
  {| Url.timestamp := now env (S (tick w1));
     Url.userAgent := userAgent; Url.referrer := referrer |}.

Definition clicked (env : Env) (shortCode : string)
    (userAgent referrer : option string) (w : World) (u : Url.ShortenedUrl)
    : Url.ShortenedUrl :=
  let w1 := snd (record env (click_request shortCode userAgent referrer) w) in
  {| Url.id := Url.id u; Url.originalUrl := Url.originalUrl u;
     Url.shortCode := Url.shortCode u; Url.customCode := Url.customCode u;
     Url.createdAt := Url.createdAt u;
     Url.clicks := (Url.clicks u + 1)%Z;
     Url.lastAccessed := Some (now env (tick w1));
     Url.clickHistory :=
       lastn 100
         (Url.clickHistory u ++ [click_event env shortCode userAgent referrer w]) |}.

(** The reading of the clock that stamps the click event of a call. *)
Definition click_tick (env : Env) (shortCode : string)
    (userAgent referrer : option string) (w : World) : nat :=
  S (tick (snd (record env (click_request shortCode userAgent referrer) w))).

(** A sequence of clicks on one short code: the arguments of each call. *)
Definition ClickArgs : Type := (option string * option string)%type.

Fixpoint clickAll (env : Env) (shortCode : string) (cs : list ClickArgs)
    : M (list bool) :=
  match cs with
  | [] => ret []
  | (userAgent, referrer) :: cs' =>
      bind (recordClick env shortCode userAgent referrer) (fun b =>
      bind (clickAll env shortCode cs') (fun bs => ret (b :: bs)))
  end.

(** The click events these calls push, in the order of the calls. *)
Fixpoint clickEvents (env : Env) (shortCode : string) (cs : list ClickArgs)
    (w : World) : list Url.ClickEvent :=
  match cs with
  | [] => []
  | (userAgent, referrer) :: cs' =>
      click_event env shortCode userAgent referrer w
      :: clickEvents env shortCode cs'
           (snd (recordClick env shortCode userAgent referrer w))
  end.

Definition click_args (e : Url.ClickEvent) : ClickArgs :=
  (Url.userAgent e, Url.referrer e).

(** The operations that change the registry. *)
Inductive Op : Type :=
| Shorten (originalUrl : string) (customCode : option string)
| Click (shortCode : string) (userAgent referrer : option string)
| Delete (shortCode : string).

Definition step (env : Env) (fuel : nat) (op : Op) (w : World) : option World :=
  match op with
  | Shorten originalUrl customCode =>
      option_map snd (shortenUrl env fuel originalUrl customCode w)
  | Click shortCode userAgent referrer =>
      Some (snd (recordClick env shortCode userAgent referrer w))
  | Delete shortCode => Some (snd (deleteUrl env shortCode w))
  end.

Fixpoint run (env : Env) (fuel : nat) (ops : list Op) (w : World) : option World :=
  match ops with
  | [] => Some w
  | op :: ops' =>
      match step env fuel op w with
      | Some w' => run env fuel ops' w'
      | None => None
      end
  end.

(** The sum of the click counts of a list of records. *)
Definition sum_clicks (l : list Url.ShortenedUrl) : Z :=
  fold_right Z.add 0%Z (map Url.clicks l).

Definition shorten_request (originalUrl : string) (customCode : option string)
    : LogCall :=
  (Log.INFO, "URL shortening requested",
   Some [("originalUrl", JStr originalUrl);
         ("customCode", JBool (Js.truthy customCode));
         ("customCodeValue", JOptStr customCode)],
   Some "SHORTEN_REQUEST").

Definition invalid_url_warning (originalUrl : string) : LogCall :=
  (Log.WARN, "Invalid URL provided",
   Some [("originalUrl", JStr originalUrl)], Some "INVALID_URL").

Definition invalid_code_warning (code : string) : LogCall :=
  (Log.WARN, "Invalid custom shortcode format",
   Some [("customCode", JStr code)], Some "INVALID_SHORTCODE").

Definition code_taken_warning (code : string) : LogCall :=
  (Log.WARN, "Custom shortcode already exists",
   Some [("customCode", JStr code)], Some "SHORTCODE_EXISTS").

Definition generated_debug (shortCode : string) : LogCall :=
  (Log.DEBUG, "Generated shortcode",
   Some [("shortCode", JStr shortCode)], Some "SHORTCODE_GENERATED").

(** The world in which [shortenUrl] starts to validate: the request is logged. *)
Definition requested (env : Env) (originalUrl : string) (customCode : option string)
    (w : World) : World :=
  snd (record env (shorten_request originalUrl customCode) w).

(** The record [shortenUrl] creates in world [w] for a code. *)
Definition new_record (env : Env) (originalUrl shortCode : string)
    (customCode : option string) (w : World) : Url.ShortenedUrl :=
  {| Url.id := random_id env (tick w);
     Url.originalUrl := originalUrl;
     Url.shortCode := shortCode;
     Url.customCode := Js.truthy customCode;
     Url.createdAt := now env (S (tick w));
     Url.clicks := 0%Z;
     Url.lastAccessed := None;
     Url.clickHistory := [] |}.

Definition succeeded (r : Url.ShortenedUrl) : Url.ShortenResult :=
  {| Url.success := true; Url.data := Some r; Url.error := None |}.

(** The code drawn at round [k] of the generation loop started in world [w]. *)
Fixpoint attempt (env : Env) (k : nat) (w : World) : string :=
  match k with
  | O => fst (generateShortCode env w)
  | S k' => attempt env k' (snd (generateShortCode env w))
  end.


Definition all_alnum (s : string) : bool :=
  forallb is_alnum (list_ascii_of_string s).

(** ** Fixtures for the concrete runs

    An environment with a reachable storage, a deterministic random source
    and a clock that advances by one millisecond at every reading. The URL
    parser is given on the inputs the runs use: it accepts
    [https://example.com] and rejects everything else it is asked about. *)

Definition demo_env : Env :=
  {| window_defined := true;
     localStorage_ok := true;
     setItem_ok := fun _ => true;
     setItem_error := "QuotaExceededError"%string;
     random_index := fun n => (7 * n + 3) mod 62;
     random_id := fun n => String (ascii_of_nat (97 + n mod 26)) EmptyString;
     now := fun n => (1700000000000 + Z.of_nat n)%Z;
     URL_parses := fun s => String.eqb s "https://example.com" |}.

(** The same browser with its storage blocked: [localStorage] throws. *)
Definition blocked_env : Env :=
  {| window_defined := true;
     localStorage_ok := false;
     setItem_ok := fun _ => true;
     setItem_error := "QuotaExceededError"%string;
     random_index := random_index demo_env;
     random_id := random_id demo_env;
     now := now demo_env;
     URL_parses := URL_parses demo_env |}.

Definition empty_world : World :=
  {| logs := []; urls := []; localStorage := []; tick := 0 |}.

Definition demo_calls : list LogCall :=
  [(Log.INFO, "Home page loaded", Some [], Some "PAGE_LOAD");
   (Log.DEBUG, "Recent URLs loaded", Some [("count", JNum 0)],
    Some "RECENT_URLS_LOADED");
   (Log.WARN, "URL not found", Some [("shortCode", JStr "nope")],
    Some "URL_NOT_FOUND")].

(** The registry after [shortenUrl("https://example.com", "docs")]. *)
Definition demo_world : World :=
  match shortenUrl demo_env 1 "https://example.com" (Some "docs") empty_world with
  | Some (_, w) => w
  | None => empty_world
  end.

Definition demo_record : Url.ShortenedUrl :=
  {| Url.id := "d"; Url.originalUrl := "https://example.com";
     Url.shortCode := "docs"; Url.customCode := true;
     Url.createdAt := 1700000000004%Z; Url.clicks := 0%Z;
     Url.lastAccessed := None; Url.clickHistory := [] |}.

Definition demo_clicks : list ClickArgs :=
  repeat (Some "Mozilla/5.0", Some "") 150.

Definition demo_ops : list Op :=
  [Shorten "https://example.com" None;
   Click "docs" None None;
   Click "docs" (Some "Mozilla/5.0") (Some "");
   Click "nope" None None;
   Delete "zzz"].

Definition demo_world_after : World :=
  match run demo_env 1 demo_ops demo_world with
  | Some w => w
  | None => demo_world
  end.

(** ** Startup: what a page load reads back

    [localStorage] holds texts; [Stored] stands for the texts the two classes
    write. Reading one back goes through [JSON.parse], and for the registry
    through [Object.entries] and [new Map]: what these give for a text is a
    parameter of the startup code, fixed on the snapshots by the two laws
    [decodes_urls] and [decodes_logs] below. *)

(** [localStorage.getItem(key)]; [None] is [null]. *)
Definition getItem (env : Env) (key : string) : M (Js.Completion (option Stored)) :=
  if localStorage_ok env
  then fun w => (Js.Normal (JsMap.get key (localStorage w)), w)
  else ret (Js.Throw "localStorage is not defined").

(** What the startup code makes of a stored text: nothing when the text is
    falsy, an exception when it does not parse, a value otherwise. *)
Inductive Decoded (A : Type) : Type :=
| Falsy
| Unparsable (exn : string)
| Parsed (a : A).
Arguments Falsy {A}.
Arguments Unparsable {A} exn.
Arguments Parsed {A} a.

(** An array index: a canonical decimal numeral below [2^32 - 1]. *)
Definition digit_value (c : ascii) : option Z :=
  let n := Z.of_nat (nat_of_ascii c) in
  if ((48 <=? n) && (n <=? 57))%Z then Some (n - 48)%Z else None.

Fixpoint decimal_value (acc : Z) (s : string) : option Z :=
  match s with
  | EmptyString => Some acc
  | String c s' =>
      match digit_value c with
      | Some d => decimal_value (10 * acc + d)%Z s'
      | None => None
      end
  end.

Definition array_index (k : string) : option Z :=
  match k with
  | EmptyString => None
  | String c s' =>
      if Ascii.eqb c "0"%char && negb (String.eqb s' "") then None
      else
        match decimal_value 0 k with
        | Some n => if (n <? 2 ^ 32 - 1)%Z then Some n else None
        | None => None
        end
  end.

Definition is_array_index (k : string) : bool :=
  match array_index k with Some _ => true | None => false end.

Definition index_of (k : string) : Z :=
  match array_index k with Some n => n | None => 0%Z end.

(** The own keys of an object, in their order: the array indices ascending,
    then the other keys in the order of their creation. Applied to the
    entries of a [Map] it is [Object.entries(Object.fromEntries(m))], and that
    order survives [JSON.stringify] and [JSON.parse]. *)
Definition object_entries {V : Type} (m : JsMap.t V) : JsMap.t V :=
  (Js.sort (fun a b => (index_of (fst a) - index_of (fst b))%Z)
     (filter (fun p => is_array_index (fst p)) m)
   ++ filter (fun p => negb (is_array_index (fst p))) m)%list.

(** [JSON.stringify] leaves out the properties whose value is [undefined]. *)
Definition json_context (ctx : LogContext) : LogContext :=
  filter (fun p => match snd p with JUndefined => false | _ => true end) ctx.

Definition json_entry (e : Log.LogEntry) : Log.LogEntry :=
  {| Log.id := Log.id e; Log.timestamp := Log.timestamp e;
     Log.level := Log.level e; Log.message := Log.message e;
     Log.context := option_map json_context (Log.context e);
     Log.userId := Log.userId e; Log.action := Log.action e |}.

(** The two laws of the decoders: a snapshot reads back as what was written,
    up to the order of the keys and the properties left out. *)
Definition decodes_urls
    (decode_urls : Stored -> Decoded (JsMap.t Url.ShortenedUrl)) : Prop :=
  forall m, decode_urls (StoredUrls m) = Parsed (object_entries m).

Definition decodes_logs (decode_logs : Stored -> Decoded (list Log.LogEntry)) : Prop :=
  forall l, decode_logs (StoredLogs l) = Parsed (map json_entry l).

Module Startup.
Import Log.
Local Open Scope m_scope.

Section WithEnv.
Variable env : Env.
Variable decode_urls : Stored -> Decoded (JsMap.t Url.ShortenedUrl).
Variable decode_logs : Stored -> Decoded (list Log.LogEntry).

(** [Logger.loadLogs]: a throw is caught (and goes to the console). *)
Definition loadLogs : M unit :=
  r <- getItem env "app-logs" ;;
  match r with
  | Js.Normal (Some stored) =>
      match decode_logs stored with
      | Parsed l => modify (set_logs l)
      | Falsy => ret tt
      | Unparsable _ => ret tt
      end
  | Js.Normal None => ret tt
  | Js.Throw _ => ret tt
  end.

(** [Logger.init]. *)
Definition init : M unit :=
  loadLogs ;;;
  Logger.info env "Logger initialized"
    (Some [("maxLogs", JNum (Z.of_nat Logger.maxLogs))]) (Some "LOGGER_INIT").

(** [UrlShortenerService.loadFromStorage]. *)
Definition loadFromStorage : M unit :=
  if window_defined env then
    r <- getItem env STORAGE_KEY ;;
    match r with
    | Js.Normal (Some stored) =>
        match decode_urls stored with
        | Parsed m =>
            modify (set_urls m) ;;;
            n <- gets (fun w => JsMap.size (urls w)) ;;
            Logger.info env "URLs loaded from storage"
              (Some [("count", JNum (Z.of_nat n))]) (Some "LOAD_STORAGE")
        | Falsy => ret tt
        | Unparsable e =>
            Logger.error env "Failed to load URLs from storage"
              (Some [("error", JStr e)]) (Some "LOAD_STORAGE_ERROR")
        end
    | Js.Normal None => ret tt
    | Js.Throw e =>
        Logger.error env "Failed to load URLs from storage"
          (Some [("error", JStr e)]) (Some "LOAD_STORAGE_ERROR")
    end
  else ret tt.

(** [new UrlShortenerService()]: the field initialiser, then the constructor. *)
Definition newUrlShortenerService : M unit :=
  modify (set_urls []) ;;;
  loadFromStorage ;;;
  n <- gets (fun w => JsMap.size (urls w)) ;;
  Logger.info env "UrlShortenerService initialized"
    (Some [("existingUrls", JNum (Z.of_nat n))]) (Some "SERVICE_INIT").

(** [new Logger()] and the guarded [logger.init()] at the end of the module. *)
Definition newLogger : M unit :=
  modify (set_logs []) ;;;
  if window_defined env then init else ret tt.

(** The evaluation of the two modules when a page loads: the logger, which
    the service imports, comes first. *)
Definition pageLoad : M unit := newLogger ;;; newUrlShortenerService.

End WithEnv.
End Startup.

(** ** More fixtures *)

(** A browser whose storage is full: every [setItem] throws. *)
Definition full_env : Env :=
  {| window_defined := true;
     localStorage_ok := true;
     setItem_ok := fun _ => false;
     setItem_error := "QuotaExceededError";
     random_index := random_index demo_env;
     random_id := random_id demo_env;
     now := now demo_env;
     URL_parses := URL_parses demo_env |}.

(** The browser of the demo, except that the write attempted at the clock
    tick of the demo registry is rejected: from the demo registry, the write
    of the registry fails and the writes after it succeed. *)
Definition once_env : Env :=
  {| window_defined := true;
     localStorage_ok := true;
     setItem_ok := fun n => negb (Nat.eqb n (tick demo_world));
     setItem_error := "QuotaExceededError";
     random_index := random_index demo_env;
     random_id := random_id demo_env;
     now := now demo_env;
     URL_parses := URL_parses demo_env |}.

(** No browser: the modules are evaluated on the server. *)
Definition server_env : Env :=
  {| window_defined := false;
     localStorage_ok := false;
     setItem_ok := fun _ => true;
     setItem_error := "QuotaExceededError";
     random_index := random_index demo_env;
     random_id := random_id demo_env;
     now := now demo_env;
     URL_parses := URL_parses demo_env |}.

(** The stored snapshot of the registry is the mapping. *)
Definition synced (w : World) : Prop :=
  JsMap.get STORAGE_KEY (localStorage w) = Some (StoredUrls (urls w)).

(** The exception a failing write of the environment throws. *)
Definition write_error (env : Env) : string :=
  if localStorage_ok env then setItem_error env else "localStorage is not defined".

Definition writes_succeed (env : Env) : Prop :=
  localStorage_ok env = true /\ forall n, setItem_ok env n = true.

Definition writes_fail (env : Env) : Prop :=
  localStorage_ok env = false \/ forall n, setItem_ok env n = false.

Definition saved_debug (n : nat) : LogCall :=
  (Log.DEBUG, "URLs saved to storage",
   Some [("count", JNum (Z.of_nat n))], Some "SAVE_STORAGE").

Definition save_failed_error (e : string) : LogCall :=
  (Log.ERROR, "Failed to save URLs to storage",
   Some [("error", JStr e)], Some "SAVE_STORAGE_ERROR").

(** The shape of a call that changed the mapping: it saved, then logged. *)
Definition saved_and_logged (env : Env) (w w' : World) : Prop :=
  exists (wm : World) (c : LogCall),
    w' = snd (record env c (snd (saveToStorage env wm)))
    /\ JsMap.get STORAGE_KEY (localStorage wm) = JsMap.get STORAGE_KEY (localStorage w).

(** The stored snapshot of the registry is left as it was. *)
Definition same_snapshot (w w' : World) : Prop :=
  JsMap.get STORAGE_KEY (localStorage w') = JsMap.get STORAGE_KEY (localStorage w).

(** What every record of a registry built by the service satisfies: it is
    stored under its own code, its counter is not negative, its history holds
    the last clicks up to 100, and it has an access time exactly when it has
    been clicked. *)
Definition record_ok (k : string) (r : Url.ShortenedUrl) : Prop :=
  Url.shortCode r = k
  /\ (0 <= Url.clicks r)%Z
  /\ Z.of_nat (List.length (Url.clickHistory r)) = Z.min (Url.clicks r) 100
  /\ (Url.lastAccessed r = None <-> Url.clicks r = 0%Z).

Definition registry_ok (w : World) : Prop :=
  JsMap.wf (urls w) /\ Forall (fun p => record_ok (fst p) (snd p)) (urls w).

(** Every code of the mapping matches [/^[a-zA-Z0-9]{3,20}$/]. *)
Definition codes_valid (w : World) : Prop :=
  Forall (fun p => isValidShortCode (fst p) = true) (urls w).

Definition logger_init_info : LogCall :=
  (Log.INFO, "Logger initialized",
   Some [("maxLogs", JNum (Z.of_nat Logger.maxLogs))], Some "LOGGER_INIT").

Definition service_init_info (n : nat) : LogCall :=
  (Log.INFO, "UrlShortenerService initialized",
   Some [("existingUrls", JNum (Z.of_nat n))], Some "SERVICE_INIT").

Definition loaded_info (n : nat) : LogCall :=
  (Log.INFO, "URLs loaded from storage",
   Some [("count", JNum (Z.of_nat n))], Some "LOAD_STORAGE").

Definition load_failed_error (e : string) : LogCall :=
  (Log.ERROR, "Failed to load URLs from storage",
   Some [("error", JStr e)], Some "LOAD_STORAGE_ERROR").

(** The decoders of the concrete runs, which are the two laws on the
    snapshots of their own kind. What the browser makes of a snapshot of the
    other kind (a log read as a registry is an object with the keys "0", "1",
    ...; a registry read as a log is not an array) is not a value of the
    types of this model, so the answer given here for it is arbitrary and
    says nothing about the code; no run below stores a snapshot under the key
    of the other class. *)
Definition demo_decode_urls (s : Stored) : Decoded (JsMap.t Url.ShortenedUrl) :=
  match s with
  | StoredUrls m => Parsed (object_entries m)
  | StoredLogs _ => Unparsable "Unexpected token"
  end.

Definition demo_decode_logs (s : Stored) : Decoded (list Log.LogEntry) :=
  match s with
  | StoredLogs l => Parsed (map json_entry l)
  | StoredUrls _ => Unparsable "Unexpected token"
  end.

(** No property of a context of the entry is [undefined]. *)
Definition context_defined (e : Log.LogEntry) : Prop :=
  match Log.context e with
  | Some ctx => Forall (fun p => snd p <> JUndefined) ctx
  | None => True
  end.

(** ** The pages that call the two classes

    Of each page only the code that talks to the registry and to the log is
    modelled; a value handed to a state setter of the page is what the
    function returns. *)

Module RedirectPage.
Local Open Scope m_scope.

(** What the effect leaves in the state of the page. *)
Inductive Outcome : Type :=
| Skipped                                 (* no short code in the route *)
| NotFound                                (* setNotFound(true) *)
| Redirecting (url : Url.ShortenedUrl).   (* setUrl(foundUrl) *)

Section WithEnv.
Variable env : Env.

(** The body of the effect, up to the start of the countdown.
    [userAgent] is [navigator.userAgent] and [referrer] is
    [document.referrer]. [foundUrl] is the object the mapping holds, the one
    [recordClick] then changes: what is read from it after the click is read
    from the mapping. *)
Definition effect (shortCode : option string) (userAgent referrer : string)
    : M Outcome :=
  match (if Js.truthy shortCode then shortCode else None) with
  | None => ret Skipped
  | Some shortCode =>
      Logger.info env "Redirect page accessed"
        (Some [("shortCode", JStr shortCode)]) (Some "REDIRECT_PAGE_ACCESS") ;;;
      foundUrl <- getUrl env shortCode ;;
      match foundUrl with
      | None =>
          Logger.warn env "Redirect attempted for non-existent URL"
            (Some [("shortCode", JStr shortCode)]) (Some "REDIRECT_NOT_FOUND") ;;;
          ret NotFound
      | Some found =>
          _ <- recordClick env shortCode (Some userAgent) (Some referrer) ;;
          held <- gets (fun w => JsMap.get shortCode (urls w)) ;;
          let foundUrl := match held with Some u => u | None => found end in
          Logger.info env "Click recorded and redirect initiated"
            (Some [("shortCode", JStr shortCode);
                   ("originalUrl", JStr (Url.originalUrl foundUrl));
                   ("totalClicks", JNum (Url.clicks foundUrl + 1))])
            (Some "REDIRECT_CLICK_RECORDED") ;;;
          ret (Redirecting foundUrl)
      end
  end.

End WithEnv.
End RedirectPage.

Module LogsPage.
Local Open Scope m_scope.

Section WithEnv.
Variable env : Env.

(** [loadLogs]: the copy of the buffer handed to [setLogs]. *)
Definition loadLogs : M (list Log.LogEntry) :=
  allLogs <- Logger.getLogs ;;
  Logger.debug env "Logs loaded for display"
    (Some [("count", JNum (Z.of_nat (List.length allLogs)))])
    (Some "LOGS_DISPLAY_LOADED") ;;;
  ret allLogs.

(** [handleClearLogs]: [confirmed] is the answer to [confirm(...)], [shown]
    the entries the page holds; the result is what it holds afterwards. *)
Definition handleClearLogs (confirmed : bool) (shown : list Log.LogEntry)
    : M (Js.Completion (list Log.LogEntry)) :=
  if confirmed then
    r <- Logger.clearLogs env ;;
    match r with
    | Js.Throw e => ret (Js.Throw e)
    | Js.Normal _ => allLogs <- loadLogs ;; ret (Js.Normal allLogs)
    end
  else ret (Js.Normal shown).

End WithEnv.
End LogsPage.

Module HomePage.
Local Open Scope m_scope.

Section WithEnv.
Variable env : Env.

(** [loadRecentUrls]: the list handed to [setRecentUrls]. *)
Definition loadRecentUrls : M (list Url.ShortenedUrl) :=
  all <- getAllUrls env ;;
  let urls := Js.slice 0 (Some 5%Z) all in
  Logger.debug env "Recent URLs loaded"
    (Some [("count", JNum (Z.of_nat (List.length urls)))])
    (Some "RECENT_URLS_LOADED") ;;;
  ret urls.

(** The state of the page the form reads and sets. *)
Record State : Type := {
  originalUrl : string;
  customCode : string;
  result : option Url.ShortenedUrl;
  error : string;
  isLoading : bool;
  recentUrls : list Url.ShortenedUrl
}.

(** [handleSubmit]: the state of the page when the handler is done. Nothing
    in the [try] block throws, so its [catch] branch is left out; [None] is
    the generation loop of [shortenUrl] running out of fuel. *)
Definition handleSubmit (fuel : nat) (s : State) (w : World)
    : option (State * World) :=
  let (_, w) :=
    Logger.info env "Form submission started"
      (Some [("hasOriginalUrl", JBool (Js.truthy (Some (originalUrl s))));
             ("hasCustomCode", JBool (Js.truthy (Some (customCode s))))])
      (Some "FORM_SUBMIT") w in
  match shortenUrl env fuel (originalUrl s)
          (if Js.truthy (Some (customCode s)) then Some (customCode s) else None)
          w with
  | None => None
  | Some (response, w) =>
      match (if Url.success response then Url.data response else None) with
      | Some data =>
          Some ((urls <- loadRecentUrls ;;
                 Logger.info env "URL shortened via form"
                   (Some [("shortCode", JStr (Url.shortCode data))])
                   (Some "FORM_SUCCESS") ;;;
                 ret {| originalUrl := ""; customCode := "";
                        result := Some data; error := "";
                        isLoading := false; recentUrls := urls |}) w)
      | None =>
          Some ((Logger.error env "Form submission failed"
                   (Some [("error", JOptStr (Url.error response))])
                   (Some "FORM_ERROR") ;;;
                 ret {| originalUrl := originalUrl s; customCode := customCode s;
                        result := None;
                        error :=
                          match Url.error response with
                          | Some e =>
                              if Js.truthy (Some e) then e
                              else "Failed to shorten URL"
                          | None => "Failed to shorten URL"
                          end;
                        isLoading := false; recentUrls := recentUrls s |}) w)
      end
  end.

End WithEnv.
End HomePage.

Module AnalyticsPage.
Local Open Scope m_scope.

Section WithEnv.
Variable env : Env.

(** [loadData]: the statistics and the list handed to the two setters. *)
Definition loadData : M (Url.UrlStats * list Url.ShortenedUrl) :=
  statsData <- getStats env ;;
  urlsData <- getAllUrls env ;;
  Logger.info env "Analytics data loaded"
    (Some [("totalUrls", JNum (Z.of_nat (Url.totalUrls statsData)));
           ("totalClicks", JNum (Url.totalClicks statsData))])
    (Some "ANALYTICS_DATA_LOADED") ;;;
  ret (statsData, urlsData).

(** [handleDelete]: [confirmed] is the answer to [confirm(...)]; the result is
    the data the page reloads, if it does. *)
Definition handleDelete (shortCode : string) (confirmed : bool)
    : M (option (Url.UrlStats * list Url.ShortenedUrl)) :=
  if confirmed then
    success <- deleteUrl env shortCode ;;
    if success then
      data <- loadData ;;
      Logger.info env "URL deleted from analytics"
        (Some [("shortCode", JStr shortCode)]) (Some "ANALYTICS_DELETE") ;;;
      ret (Some data)
    else ret None
  else ret None.

End WithEnv.
End AnalyticsPage.

Definition display_loaded_debug (n : nat) : LogCall :=
  (Log.DEBUG, "Logs loaded for display",
   Some [("count", JNum (Z.of_nat n))], Some "LOGS_DISPLAY_LOADED").

Definition clear_info : LogCall :=
  (Log.INFO, "Logs cleared by user", Some [], Some "CLEAR_LOGS").

Definition redirect_info (shortCode originalUrl : string) (totalClicks : Z) : LogCall :=
  (Log.INFO, "Click recorded and redirect initiated",
   Some [("shortCode", JStr shortCode); ("originalUrl", JStr originalUrl);
         ("totalClicks", JNum totalClicks)],
   Some "REDIRECT_CLICK_RECORDED").

(** The demo registry after [shortenUrl("https://example.com", "123")]: the
    mapping holds "docs" before "123". *)
Definition numeric_world : World :=
  match shortenUrl demo_env 1 "https://example.com" (Some "123") demo_world with
  | Some (_, w) => w
  | None => demo_world
  end.

(** The form of the home page, filled in with a URL and no custom code. *)
Definition demo_form : HomePage.State :=
  {| HomePage.originalUrl := "https://example.com";
     HomePage.customCode := "";
     HomePage.result := None;
     HomePage.error := "";
     HomePage.isLoading := false;
     HomePage.recentUrls := [] |}.

Local Close Scope string_scope.

(** * Properties *)

(** ** Basic facts: the monad, slices, sorting, maps *)

Lemma bind_run {A B : Type} (c : M A) (k : A -> M B) (w : World) :
  bind c k w = k (fst (c w)) (snd (c w)).
Proof. unfold bind. destruct (c w); reflexivity. Qed.

Lemma fst_ret {A : Type} (a : A) (w : World) : fst (ret a w) = a.
Proof. reflexivity. Qed.

Lemma snd_ret {A : Type} (a : A) (w : World) : snd (ret a w) = w.
Proof. reflexivity. Qed.

Lemma fst_gets {A : Type} (f : World -> A) (w : World) : fst (gets f w) = f w.
Proof. reflexivity. Qed.

Lemma snd_gets {A : Type} (f : World -> A) (w : World) : snd (gets f w) = w.
Proof. reflexivity. Qed.

Lemma firstn_min_length {A : Type} (n : nat) (l : list A) :
  firstn (Nat.min n (List.length l)) l = firstn n l.
Proof.
  destruct (Nat.le_ge_cases n (List.length l)) as [H | H].
  - now rewrite Nat.min_l.
  - rewrite Nat.min_r by assumption.
    now rewrite firstn_all, firstn_all2.
Qed.

Lemma slice_prefix {A : Type} (n : nat) (l : list A) :
  Js.slice 0 (Some (Z.of_nat n)) l = firstn n l.
Proof.
  unfold Js.slice, Js.rel_index.
  change (0 <? 0)%Z with false. cbv iota.
  destruct (Z.of_nat n <? 0)%Z eqn:E; [apply Z.ltb_lt in E; lia |].
  rewrite (Z.min_l 0) by lia. simpl skipn.
  rewrite Z.sub_0_r, <- Nat2Z.inj_min, Nat2Z.id.
  apply firstn_min_length.
Qed.

Lemma slice_suffix {A : Type} (n : nat) (l : list A) :
  0 < n -> Js.slice (- Z.of_nat n) None l = lastn n l.
Proof.
  intros Hn. unfold Js.slice, Js.rel_index, lastn.
  destruct (- Z.of_nat n <? 0)%Z eqn:E; [| apply Z.ltb_ge in E; lia].
  set (len := List.length l).
  replace (Z.to_nat (Z.max (Z.of_nat len + - Z.of_nat n) 0)) with (len - n) by lia.
  apply firstn_all2. rewrite length_skipn. fold len. lia.
Qed.

Lemma lastn_short {A : Type} (n : nat) (l : list A) :
  List.length l <= n -> lastn n l = l.
Proof.
  intros H. unfold lastn. now replace (List.length l - n) with 0 by lia.
Qed.

Lemma length_lastn {A : Type} (n : nat) (l : list A) :
  List.length (lastn n l) = Nat.min n (List.length l).
Proof. unfold lastn. rewrite length_skipn. lia. Qed.

(** Truncating, appending and truncating again is truncating once. *)
Lemma lastn_app_lastn {A : Type} (n : nat) (l1 l2 : list A) :
  lastn n (lastn n l1 ++ l2) = lastn n (l1 ++ l2).
Proof.
  unfold lastn. rewrite !length_app, length_skipn.
  destruct (Nat.le_ge_cases (List.length l1) n) as [H | H].
  - replace (List.length l1 - n) with 0 by lia. simpl.
    f_equal; lia.
  - rewrite !skipn_app, length_skipn, skipn_skipn.
    f_equal; f_equal; lia.
Qed.

(** *** Sorting *)

Section SortFacts.
Context {A : Type} (cmp : A -> A -> Z).

Lemma insert_perm (x : A) (l : list A) :
  Permutation (x :: l) (Js.insert cmp x l).
Proof.
  induction l as [| y l IH]; simpl; [reflexivity |].
  destruct (cmp x y <=? 0)%Z; [reflexivity |].
  rewrite perm_swap. now apply perm_skip.
Qed.

Lemma sort_perm (l : list A) : Permutation l (Js.sort cmp l).
Proof.
  induction l as [| x l IH]; simpl; [constructor |].
  rewrite <- insert_perm. now apply perm_skip.
Qed.

Lemma sort_length (l : list A) : List.length (Js.sort cmp l) = List.length l.
Proof. symmetry. apply Permutation_length, sort_perm. Qed.

(** With a comparator that is a difference of integer keys, the result is
    ordered by key, largest first. *)
Variable key : A -> Z.
Hypothesis cmp_key : forall a b, cmp a b = (key b - key a)%Z.

Lemma insert_sorted (x : A) (l : list A) :
  StronglySorted (descending key) l ->
  StronglySorted (descending key) (Js.insert cmp x l).
Proof.
  induction 1 as [| y l Hs IH Hy]; simpl.
  - repeat constructor.
  - destruct (cmp x y <=? 0)%Z eqn:E.
    + apply Z.leb_le in E. rewrite cmp_key in E.
      constructor; [now constructor |].
      constructor; [unfold descending; lia |].
      eapply Forall_impl; [| exact Hy].
      unfold descending. intros; lia.
    + apply Z.leb_gt in E. rewrite cmp_key in E.
      constructor; [assumption |].
      eapply Permutation_Forall; [apply insert_perm |].
      constructor; [unfold descending; lia | assumption].
Qed.

Lemma sort_sorted (l : list A) : StronglySorted (descending key) (Js.sort cmp l).
Proof.
  induction l as [| x l IH]; simpl; [constructor |].
  now apply insert_sorted.
Qed.
End SortFacts.

Lemma StronglySorted_firstn {A : Type} (R : A -> A -> Prop) (n : nat) (l : list A) :
  StronglySorted R l -> StronglySorted R (firstn n l).
Proof.
  intros H. revert n.
  induction H as [| x l Hs IH Hx]; intros [| n]; simpl; try constructor.
  - apply IH.
  - rewrite Forall_forall in *. intros y Hy. apply Hx.
    rewrite <- (firstn_skipn n l). apply in_or_app. now left.
Qed.

(** *** Maps *)

Section MapFacts.
Context {V : Type}.
Implicit Types (m : JsMap.t V) (k : string) (v : V).

Lemma has_get k m : JsMap.has k m = true <-> JsMap.get k m <> None.
Proof.
  induction m as [| [k' v'] m IH]; simpl.
  - split; [discriminate | congruence].
  - destruct (String.eqb k' k); simpl; [| exact IH].
    split; [discriminate | reflexivity].
Qed.

Lemma has_false_get k m : JsMap.has k m = false <-> JsMap.get k m = None.
Proof.
  induction m as [| [k' v'] m IH]; simpl.
  - split; reflexivity.
  - destruct (String.eqb k' k); simpl; [| exact IH].
    split; discriminate.
Qed.

Lemma get_set_same k v m : JsMap.get k (JsMap.set k v m) = Some v.
Proof.
  induction m as [| [k' v'] m IH]; simpl.
  - now rewrite String.eqb_refl.
  - destruct (String.eqb k' k) eqn:E; simpl.
    + now rewrite String.eqb_refl.
    + now rewrite E.
Qed.

Lemma get_set_other k k' v m :
  k' <> k -> JsMap.get k' (JsMap.set k v m) = JsMap.get k' m.
Proof.
  intros Hk. induction m as [| [k0 v0] m IH]; simpl.
  - destruct (String.eqb_spec k k'); congruence.
  - destruct (String.eqb_spec k0 k) as [-> | Hk0]; simpl.
    + destruct (String.eqb_spec k k'); congruence.
    + now rewrite IH.
Qed.

Lemma set_absent k v m :
  JsMap.has k m = false -> JsMap.set k v m = m ++ [(k, v)].
Proof.
  induction m as [| [k' v'] m IH]; simpl; [reflexivity |].
  destruct (String.eqb k' k); simpl; [discriminate |].
  intros H. now rewrite IH.
Qed.

Lemma size_set_present k v m :
  JsMap.has k m = true -> JsMap.size (JsMap.set k v m) = JsMap.size m.
Proof.
  unfold JsMap.size.
  induction m as [| [k' v'] m IH]; simpl; [discriminate |].
  destruct (String.eqb k' k); simpl; [reflexivity |].
  intros H. now rewrite IH.
Qed.

Lemma keys_set_present k v m :
  JsMap.has k m = true -> map fst (JsMap.set k v m) = map fst m.
Proof.
  induction m as [| [k' v'] m IH]; simpl; [discriminate |].
  destruct (String.eqb_spec k' k) as [-> | Hk]; simpl; [reflexivity |].
  intros H. now rewrite IH.
Qed.

Lemma get_delete_same k m : JsMap.get k (JsMap.delete k m) = None.
Proof.
  induction m as [| [k' v'] m IH]; simpl; [reflexivity |].
  destruct (String.eqb k' k) eqn:E; simpl; [exact IH |].
  now rewrite E.
Qed.

Lemma get_delete_other k k' m :
  k' <> k -> JsMap.get k' (JsMap.delete k m) = JsMap.get k' m.
Proof.
  intros Hk. induction m as [| [k0 v0] m IH]; simpl; [reflexivity |].
  destruct (String.eqb_spec k0 k) as [-> | Hk0]; simpl.
  - destruct (String.eqb_spec k k'); congruence.
  - now rewrite IH.
Qed.

Lemma delete_absent k m : JsMap.has k m = false -> JsMap.delete k m = m.
Proof.
  induction m as [| [k' v'] m IH]; simpl; [reflexivity |].
  destruct (String.eqb k' k); simpl; [discriminate |].
  intros H. now rewrite IH.
Qed.
End MapFacts.

(** ** The event log *)

Lemma firstn_app_firstn {A : Type} (n : nat) (l1 l2 : list A) :
  firstn n (l1 ++ firstn n l2) = firstn n (l1 ++ l2).
Proof.
  rewrite !firstn_app, firstn_firstn. f_equal. f_equal. lia.
Qed.

Section LoggerFacts.
Variable env : Env.

Lemma call_of_entry_of c w : call_of (entry_of env c w) = c.
Proof. destruct c as [[[lvl msg] ctx] act]. reflexivity. Qed.

Lemma record_unfold c w :
  record env c w =
  Logger.persistLog env (entry_of env c w) (set_tick (S (S (tick w))) w).
Proof. destruct c as [[[[] msg] ctx] act]; reflexivity. Qed.

Lemma setItem_logs key v w :
  logs (snd (Logger.setItem env key v w)) = logs w.
Proof.
  unfold Logger.setItem. destruct (localStorage_ok env); [| reflexivity].
  unfold bind, read, modify, ret. destruct (setItem_ok env (tick w)); reflexivity.
Qed.

Lemma setItem_urls key v w :
  urls (snd (Logger.setItem env key v w)) = urls w.
Proof.
  unfold Logger.setItem. destruct (localStorage_ok env); [| reflexivity].
  unfold bind, read, modify, ret. destruct (setItem_ok env (tick w)); reflexivity.
Qed.

Lemma setItem_storage_other key key' v w :
  key' <> key ->
  JsMap.get key' (localStorage (snd (Logger.setItem env key v w))) =
  JsMap.get key' (localStorage w).
Proof.
  intros Hk. unfold Logger.setItem. destruct (localStorage_ok env); [| reflexivity].
  unfold bind, read, modify, ret.
  destruct (setItem_ok env (tick w)); simpl; [| reflexivity].
  now apply get_set_other.
Qed.

Lemma persistLog_logs e w :
  logs (snd (Logger.persistLog env e w)) = firstn Logger.maxLogs (e :: logs w).
Proof.
  unfold Logger.persistLog. rewrite !bind_run.
  unfold ret at 1. cbn [fst snd]. rewrite setItem_logs.
  unfold gets, modify. cbn [fst snd].
  destruct (Logger.maxLogs <? _) eqn:E; cbn [fst snd logs set_logs ret].
  - apply slice_prefix.
  - apply Nat.ltb_ge in E. symmetry. now apply firstn_all2.
Qed.

Lemma persistLog_urls e w : urls (snd (Logger.persistLog env e w)) = urls w.
Proof.
  unfold Logger.persistLog. rewrite !bind_run.
  unfold ret at 1. cbn [fst snd]. rewrite setItem_urls.
  unfold gets, modify. cbn [fst snd].
  destruct (Logger.maxLogs <? _); reflexivity.
Qed.

Lemma persistLog_storage_other key e w :
  key <> "app-logs"%string ->
  JsMap.get key (localStorage (snd (Logger.persistLog env e w))) =
  JsMap.get key (localStorage w).
Proof.
  intros Hk. unfold Logger.persistLog. rewrite !bind_run.
  unfold ret at 1. cbn [fst snd]. rewrite setItem_storage_other by assumption.
  unfold gets, modify. cbn [fst snd].
  destruct (Logger.maxLogs <? _); reflexivity.
Qed.

Lemma record_logs c w :
  logs (snd (record env c w)) = firstn Logger.maxLogs (entry_of env c w :: logs w).
Proof. rewrite record_unfold, persistLog_logs. reflexivity. Qed.

Lemma record_urls c w : urls (snd (record env c w)) = urls w.
Proof. rewrite record_unfold, persistLog_urls. reflexivity. Qed.

Lemma record_storage_other key c w :
  key <> "app-logs"%string ->
  JsMap.get key (localStorage (snd (record env c w))) =
  JsMap.get key (localStorage w).
Proof. intros Hk. rewrite record_unfold. now rewrite persistLog_storage_other. Qed.

(** The four methods, as instances of [record]. *)
Lemma info_record msg ctx act :
  Logger.info env msg ctx act = record env (Log.INFO, msg, ctx, act).
Proof. reflexivity. Qed.
Lemma warn_record msg ctx act :
  Logger.warn env msg ctx act = record env (Log.WARN, msg, ctx, act).
Proof. reflexivity. Qed.
Lemma error_record msg ctx act :
  Logger.error env msg ctx act = record env (Log.ERROR, msg, ctx, act).
Proof. reflexivity. Qed.
Lemma debug_record msg ctx act :
  Logger.debug env msg ctx act = record env (Log.DEBUG, msg, ctx, act).
Proof. reflexivity. Qed.

(** The log after a batch of calls: the calls newest first, cut at
    [maxLogs]. *)
Lemma record_all_calls cs w :
  List.length (logs w) <= Logger.maxLogs ->
  map call_of (logs (snd (record_all env cs w))) =
  firstn Logger.maxLogs (rev cs ++ map call_of (logs w)).
Proof.
  revert w. induction cs as [| c cs IH]; intros w Hw;
    cbn [record_all rev app ret snd].
  - symmetry. apply firstn_all2. now rewrite length_map.
  - rewrite bind_run, IH.
    + rewrite record_logs, <- firstn_map, firstn_app_firstn. cbn [map].
      now rewrite call_of_entry_of, <- app_assoc.
    + rewrite record_logs, length_firstn. lia.
Qed.
End LoggerFacts.
Local Open Scope string_scope.

(** C4. The event log never holds more than 1000 entries, whatever it held
    before a [record] call and however many calls are made; starting from an
    empty log, the buffer is the list of the calls made, newest first, cut at
    1000 (the oldest are dropped), so that after [N <= 1000] calls [getLogs]
    returns exactly [N] entries, newest first. *)
Theorem event_log_bounded_newest_first (env : Env) :
  (forall (c : LogCall) (w0 : World),
      List.length (logs (snd (record env c w0))) <= 1000)
  /\ (forall (cs : list LogCall) (w : World),
      logs w = [] ->
      let w' := snd (record_all env cs w) in
      List.length (logs w') <= 1000
      /\ map call_of (logs w') = firstn 1000 (rev cs)
      /\ (List.length cs <= 1000 ->
          List.length (fst (Logger.getLogs w')) = List.length cs
          /\ map call_of (fst (Logger.getLogs w')) = rev cs)).
Proof.
  split.
  - intros c w0. rewrite record_logs, length_firstn. apply Nat.le_min_l.
  - intros cs w Hw w'.
    assert (Hcalls : map call_of (logs w') = firstn 1000 (rev cs)).
    { subst w'. rewrite record_all_calls by (rewrite Hw; cbn; lia).
      rewrite Hw. cbn [map]. now rewrite app_nil_r. }
    split; [| split; [exact Hcalls |]].
    + rewrite <- (length_map call_of), Hcalls, length_firstn. apply Nat.le_min_l.
    + intros Hn. unfold Logger.getLogs, gets. cbn [fst].
      assert (Hall : map call_of (logs w') = rev cs).
      { rewrite Hcalls. apply firstn_all2. now rewrite length_rev. }
      split; [| exact Hall].
      now rewrite <- (length_map call_of), Hall, length_rev.
Qed.

Lemma event_log_bounded_newest_first_witness :
  logs empty_world = []
  /\ List.length demo_calls <= 1000
  /\ List.length (fst (Logger.getLogs (snd (record_all demo_env demo_calls empty_world))))
     = List.length demo_calls
  /\ map call_of (fst (Logger.getLogs (snd (record_all demo_env demo_calls empty_world))))
     = rev demo_calls.
Proof.
  assert (H0 : logs empty_world = []) by reflexivity.
  assert (Hn : List.length demo_calls <= 1000) by (cbn; lia).
  split; [exact H0 | split; [exact Hn |]].
  exact (proj2 (proj2 (proj2 (event_log_bounded_newest_first demo_env)
                         demo_calls empty_world H0)) Hn).
Defined.

(** When [localStorage] cannot be reached, [clearLogs] stops at the
    unguarded [removeItem], with the buffer already emptied. *)
Lemma clearLogs_throws (env : Env) (w : World) :
  localStorage_ok env = false ->
  fst (Logger.clearLogs env w) = Js.Throw "localStorage is not defined"
  /\ logs (snd (Logger.clearLogs env w)) = [].
Proof.
  intros H. unfold Logger.clearLogs, Logger.removeItem. rewrite H.
  split; reflexivity.
Qed.

(** C9. The failing input: [clearLogs] in a browser whose storage is blocked,
    on a buffer of three entries logged in that browser (the writes of
    [persistLog] are guarded, so the three calls returned and kept their
    entries). [clearLogs] empties the buffer and then throws at its
    [removeItem], which is not guarded: the clearing is never logged, and a
    [getLogs] right after returns no entry, where the claim has exactly one. *)
Theorem clearLogs_blocked_storage_empty_buffer :
  let w := snd (record_all blocked_env demo_calls empty_world) in
  List.length (logs w) = 3
  /\ fst (Logger.clearLogs blocked_env w) = Js.Throw "localStorage is not defined"
  /\ logs (snd (Logger.clearLogs blocked_env w)) = []
  /\ fst (Logger.getLogs (snd (Logger.clearLogs blocked_env w))) = [].
Proof.
  intros w.
  destruct (clearLogs_throws blocked_env w eq_refl) as [Hthrow Hlogs].
  split; [vm_compute; reflexivity |]. split; [exact Hthrow |].
  split; [exact Hlogs |].
  unfold Logger.getLogs. rewrite fst_gets. exact Hlogs.
Qed.

(** Where the storage can be reached [clearLogs] returns, and the buffer
    then holds exactly one entry, the INFO event "Logs cleared by user" with
    action CLEAR_LOGS; a [getLogs] right after returns exactly that entry. *)
Lemma clearLogs_leaves_one_entry (env : Env) (w : World) :
  localStorage_ok env = true ->
  let w' := snd (Logger.clearLogs env w) in
  fst (Logger.clearLogs env w) = Js.Normal tt
  /\ exists e : Log.LogEntry,
       logs w' = [e]
       /\ call_of e = (Log.INFO, "Logs cleared by user", Some [], Some "CLEAR_LOGS")
       /\ fst (Logger.getLogs w') = [e].
Proof.
  intros H w'. subst w'.
  unfold Logger.clearLogs, Logger.removeItem. rewrite H.
  rewrite !bind_run. unfold modify at 1 2 3 4 5 6. cbn [fst snd ret].
  rewrite !bind_run. cbn [fst snd ret].
  split; [reflexivity |].
  unfold Logger.getLogs, gets. cbn [fst].
  rewrite info_record, record_logs. unfold modify.
  cbn [snd logs set_logs set_localStorage].
  eexists. split; [reflexivity |]. split; reflexivity.
Qed.

Lemma clearLogs_leaves_one_entry_witness :
  localStorage_ok demo_env = true
  /\ fst (Logger.clearLogs demo_env (snd (record_all demo_env demo_calls empty_world)))
     = Js.Normal tt
  /\ exists e : Log.LogEntry,
       logs (snd (Logger.clearLogs demo_env
                    (snd (record_all demo_env demo_calls empty_world)))) = [e]
       /\ call_of e = (Log.INFO, "Logs cleared by user", Some [], Some "CLEAR_LOGS")
       /\ fst (Logger.getLogs
                 (snd (Logger.clearLogs demo_env
                         (snd (record_all demo_env demo_calls empty_world))))) = [e].
Proof.
  split; [reflexivity |].
  exact (clearLogs_leaves_one_entry demo_env
           (snd (record_all demo_env demo_calls empty_world)) eq_refl).
Defined.

(** ** The registry *)

Section ServiceFacts.
Variable env : Env.

Lemma saveToStorage_urls w : urls (snd (saveToStorage env w)) = urls w.
Proof.
  unfold saveToStorage. destruct (window_defined env); [| reflexivity].
  rewrite !bind_run. unfold gets at 1 2. cbn [fst snd].
  destruct (fst (Logger.setItem env _ _ _)).
  - rewrite bind_run, debug_record, record_urls. unfold gets. cbn [snd].
    apply setItem_urls.
  - rewrite error_record, record_urls. apply setItem_urls.
Qed.

Lemma record_all_urls cs w : urls (snd (record_all env cs w)) = urls w.
Proof.
  revert w. induction cs as [| c cs IH]; intros w; cbn [record_all].
  - reflexivity.
  - now rewrite bind_run, IH, record_urls.
Qed.

Lemma record_all_storage_other key cs w :
  key <> "app-logs" ->
  JsMap.get key (localStorage (snd (record_all env cs w))) =
  JsMap.get key (localStorage w).
Proof.
  intros Hk. revert w. induction cs as [| c cs IH]; intros w; cbn [record_all].
  - reflexivity.
  - now rewrite bind_run, IH, record_storage_other.
Qed.

(** *** recordClick *)

(** On an unknown code the call only writes two log entries. *)
Lemma recordClick_absent shortCode userAgent referrer w :
  JsMap.get shortCode (urls w) = None ->
  recordClick env shortCode userAgent referrer w =
  (false,
   snd (record_all env
          [click_request shortCode userAgent referrer; click_failed shortCode] w)).
Proof.
  intros Habs. unfold recordClick.
  rewrite info_record, !bind_run. unfold gets. cbn [fst snd].
  rewrite record_urls, Habs, bind_run, warn_record.
  cbn [record_all]. rewrite !bind_run. reflexivity.
Qed.

Lemma recordClick_present shortCode userAgent referrer w u :
  JsMap.get shortCode (urls w) = Some u ->
  fst (recordClick env shortCode userAgent referrer w) = true
  /\ urls (snd (recordClick env shortCode userAgent referrer w)) =
     JsMap.set shortCode (clicked env shortCode userAgent referrer w u) (urls w).
Proof.
  intros Hu.
  split; unfold recordClick;
    rewrite info_record, bind_run, bind_run; unfold gets at 1 2; cbn [fst snd];
    rewrite record_urls, Hu, !bind_run; [reflexivity |].
  cbn [snd ret]. rewrite info_record, record_urls, saveToStorage_urls.
  unfold modify, read. cbn [fst snd urls set_urls set_tick tick].
  rewrite record_urls.
  f_equal. unfold clicked, click_event, click_request.
  cbn [with_clicks with_lastAccessed with_clickHistory Url.clickHistory].
  destruct (100 <? _)%nat eqn:E; unfold with_clickHistory;
    cbn [Url.id Url.originalUrl Url.shortCode Url.customCode Url.createdAt
         Url.clicks Url.lastAccessed Url.clickHistory]; f_equal.
  - apply (slice_suffix 100). lia.
  - apply Nat.ltb_ge in E. symmetry. now apply lastn_short.
Qed.

(** *** The environment counter only advances *)

Lemma setItem_tick key v w : tick w <= tick (snd (Logger.setItem env key v w)).
Proof.
  unfold Logger.setItem. destruct (localStorage_ok env); [| cbn; lia].
  unfold bind, read, modify, ret.
  destruct (setItem_ok env (tick w)); cbn; lia.
Qed.

Lemma record_tick c w : tick w + 2 <= tick (snd (record env c w)).
Proof.
  rewrite record_unfold. unfold Logger.persistLog. rewrite !bind_run.
  unfold ret at 1. cbn [fst snd].
  eapply Nat.le_trans; [| apply setItem_tick].
  unfold gets, modify. cbn [fst snd].
  destruct (Logger.maxLogs <? _)%nat; cbn [snd ret tick set_logs set_tick]; lia.
Qed.

Lemma saveToStorage_tick w : tick w <= tick (snd (saveToStorage env w)).
Proof.
  unfold saveToStorage. destruct (window_defined env); [| cbn; lia].
  rewrite !bind_run. unfold gets at 1 2. cbn [fst snd].
  pose proof (setItem_tick STORAGE_KEY (StoredUrls (urls w)) w) as Hs.
  destruct (fst (Logger.setItem env _ _ _)).
  - rewrite bind_run, debug_record. unfold gets. cbn [fst snd].
    eapply Nat.le_trans; [| apply record_tick].
    eapply Nat.le_trans; [exact Hs | apply Nat.le_add_r].
  - rewrite error_record.
    eapply Nat.le_trans; [| apply record_tick].
    eapply Nat.le_trans; [exact Hs | apply Nat.le_add_r].
Qed.

Lemma click_event_timestamp shortCode userAgent referrer w :
  Url.timestamp (click_event env shortCode userAgent referrer w) =
  now env (click_tick env shortCode userAgent referrer w).
Proof. reflexivity. Qed.

Lemma click_tick_bounds shortCode userAgent referrer w u :
  JsMap.get shortCode (urls w) = Some u ->
  tick w < click_tick env shortCode userAgent referrer w
  /\ click_tick env shortCode userAgent referrer w
     < tick (snd (recordClick env shortCode userAgent referrer w)).
Proof.
  intros Hu. unfold click_tick.
  pose proof (record_tick (click_request shortCode userAgent referrer) w) as H1.
  split; [lia |].
  unfold recordClick.
  rewrite info_record, bind_run, bind_run. unfold gets at 1 2. cbn [fst snd].
  rewrite record_urls, Hu, !bind_run. cbn [snd ret].
  rewrite info_record.
  eapply Nat.lt_le_trans; [| apply record_tick].
  eapply Nat.lt_le_trans; [| apply Nat.add_le_mono_r, saveToStorage_tick].
  unfold modify, read, click_request. cbn [fst snd tick set_urls set_tick]. lia.
Qed.

End ServiceFacts.

(** C7. On a short code absent from the mapping [recordClick] returns false
    and leaves the registry as it was: the mapping is the same map (nothing
    added, removed or changed, same size), and so is its stored snapshot; the
    call only logs the request and the failed click. *)
Theorem recordClick_unknown_code_is_noop
    (env : Env) (shortCode : string) (userAgent referrer : option string) (w : World) :
  JsMap.has shortCode (urls w) = false ->
  let result := fst (recordClick env shortCode userAgent referrer w) in
  let w' := snd (recordClick env shortCode userAgent referrer w) in
  result = false
  /\ urls w' = urls w
  /\ JsMap.size (urls w') = JsMap.size (urls w)
  /\ JsMap.get STORAGE_KEY (localStorage w') = JsMap.get STORAGE_KEY (localStorage w)
  /\ w' = snd (record_all env
                 [click_request shortCode userAgent referrer;
                  click_failed shortCode] w).
Proof.
  intros Habs result w'. subst result w'. apply has_false_get in Habs.
  rewrite (recordClick_absent env _ _ _ _ Habs). cbn [fst snd].
  rewrite record_all_urls, record_all_storage_other by discriminate.
  repeat split.
Qed.

Section ClickFacts.
Variable env : Env.
Variable shortCode : string.

Lemma clickEvents_args cs w :
  map click_args (clickEvents env shortCode cs w) = cs.
Proof.
  revert w. induction cs as [| [ua ref] cs IH]; intros w; cbn [clickEvents map].
  - reflexivity.
  - now rewrite IH.
Qed.

Lemma clickEvents_length cs w :
  List.length (clickEvents env shortCode cs w) = List.length cs.
Proof. now rewrite <- (length_map click_args), clickEvents_args. Qed.

(** The events are stamped by readings of the clock made one after the
    other. *)
Lemma clickEvents_ticks cs w u :
  JsMap.get shortCode (urls w) = Some u ->
  exists ticks : list nat,
    map Url.timestamp (clickEvents env shortCode cs w) = map (now env) ticks
    /\ StronglySorted lt ticks
    /\ Forall (fun t => tick w < t) ticks.
Proof.
  revert w u. induction cs as [| [ua ref] cs IH]; intros w u Hu.
  - exists []. repeat constructor.
  - destruct (recordClick_present env shortCode ua ref w u Hu) as [_ Hurls].
    destruct (click_tick_bounds env shortCode ua ref w u Hu) as [Hlo Hhi].
    destruct (IH (snd (recordClick env shortCode ua ref w))
                 (clicked env shortCode ua ref w u)) as (ticks & Hts & Hs & Hgt).
    { rewrite Hurls. apply get_set_same. }
    exists (click_tick env shortCode ua ref w :: ticks).
    cbn [clickEvents map]. rewrite Hts, click_event_timestamp.
    split; [reflexivity |]. split.
    + constructor; [exact Hs |].
      eapply Forall_impl; [| exact Hgt]. cbn beta. intros; lia.
    + constructor; [exact Hlo |].
      eapply Forall_impl; [| exact Hgt]. cbn beta. intros; lia.
Qed.

Lemma clickAll_spec cs w u :
  JsMap.get shortCode (urls w) = Some u ->
  List.length (Url.clickHistory u) <= 100 ->
  exists u',
    JsMap.get shortCode (urls (snd (clickAll env shortCode cs w))) = Some u'
    /\ fst (clickAll env shortCode cs w) = repeat true (List.length cs)
    /\ Url.clicks u' = (Url.clicks u + Z.of_nat (List.length cs))%Z
    /\ Url.clickHistory u' =
       lastn 100 (Url.clickHistory u ++ clickEvents env shortCode cs w)
    /\ (Url.id u', Url.originalUrl u', Url.shortCode u', Url.customCode u',
        Url.createdAt u')
       = (Url.id u, Url.originalUrl u, Url.shortCode u, Url.customCode u,
          Url.createdAt u).
Proof.
  revert w u. induction cs as [| [ua ref] cs IH]; intros w u Hu Hlen.
  - exists u. cbn [clickAll clickEvents ret fst snd repeat List.length].
    rewrite app_nil_r, Z.add_0_r, lastn_short by assumption. repeat split. exact Hu.
  - destruct (recordClick_present env shortCode ua ref w u Hu) as [Hres Hurls].
    destruct (IH (snd (recordClick env shortCode ua ref w))
                 (clicked env shortCode ua ref w u))
      as (u' & Hget & Hall & Hclicks & Hhist & Hsame).
    { rewrite Hurls. apply get_set_same. }
    { cbn [clicked Url.clickHistory]. rewrite length_lastn. apply Nat.le_min_l. }
    exists u'. cbn [clickAll clickEvents]. rewrite !bind_run. cbn [fst snd ret].
    rewrite Hres, Hall. split; [exact Hget |]. split; [reflexivity |].
    split; [| split].
    + rewrite Hclicks. cbn [clicked Url.clicks List.length]. lia.
    + rewrite Hhist. cbn [clicked Url.clickHistory].
      now rewrite lastn_app_lastn, <- app_assoc.
    + rewrite Hsame. reflexivity.
Qed.
End ClickFacts.

Lemma StronglySorted_skipn {A : Type} (R : A -> A -> Prop) (n : nat) (l : list A) :
  StronglySorted R l -> StronglySorted R (skipn n l).
Proof.
  intros H. revert n.
  induction H as [| x l Hs IH Hx]; intros [| n]; cbn [skipn]; try constructor; auto.
Qed.

Lemma StronglySorted_map_mono (f : nat -> Z) (l : list nat) :
  (forall i j, i <= j -> (f i <= f j)%Z) ->
  StronglySorted lt l -> StronglySorted Z.le (map f l).
Proof.
  intros Hf. induction 1 as [| x l Hs IH Hx]; cbn [map]; constructor; auto.
  rewrite Forall_map. eapply Forall_impl; [| exact Hx].
  cbn beta. intros y Hy. apply Hf. lia.
Qed.

(** C1. For a record as [shortenUrl] creates it (no click, empty history), after
    any sequence of [recordClick] calls on its code every call returned true,
    [clicks] is the number of calls made, and [clickHistory] is the last 100 of
    the click events of these calls, in the order of the calls (each event
    carries the arguments of its call, and under a monotone clock the
    timestamps do not decrease). As long as no more than 100 calls were
    made the history holds all of them; after 150 calls [clicks] is 150 and the
    history has exactly 100 entries, the events of calls 51 to 150. *)
Theorem clicks_count_all_history_keeps_last_100
    (env : Env) (shortCode : string) (cs : list ClickArgs) (w : World)
    (u : Url.ShortenedUrl) :
  JsMap.get shortCode (urls w) = Some u ->
  Url.clicks u = 0%Z ->
  Url.clickHistory u = [] ->
  let events := clickEvents env shortCode cs w in
  exists u' : Url.ShortenedUrl,
    JsMap.get shortCode (urls (snd (clickAll env shortCode cs w))) = Some u'
    /\ fst (clickAll env shortCode cs w) = repeat true (List.length cs)
    /\ map click_args events = cs
    /\ Url.clicks u' = Z.of_nat (List.length cs)
    /\ Url.clickHistory u' = lastn 100 events
    /\ (List.length cs <= 100 ->
        Url.clickHistory u' = events
        /\ Url.clicks u' = Z.of_nat (List.length (Url.clickHistory u')))
    /\ (List.length cs = 150 ->
        Url.clicks u' = 150%Z
        /\ List.length (Url.clickHistory u') = 100
        /\ Url.clickHistory u' = skipn 50 events)
    /\ ((forall i j, i <= j -> (now env i <= now env j)%Z) ->
        StronglySorted Z.le (map Url.timestamp (Url.clickHistory u'))).
Proof.
  intros Hu Hclicks Hhist events.
  destruct (clickAll_spec env shortCode cs w u Hu) as (u' & Hget & Hall & Hc & Hh & _).
  { rewrite Hhist. cbn. lia. }
  rewrite Hhist in Hh. cbn [app] in Hh. fold events in Hh.
  rewrite Hclicks, Z.add_0_l in Hc.
  assert (Hlen : List.length events = List.length cs)
    by apply clickEvents_length.
  exists u'. split; [exact Hget |]. split; [exact Hall |].
  split; [apply clickEvents_args |]. split; [exact Hc |]. split; [exact Hh |].
  split; [| split].
  - intros Hn. rewrite Hh, lastn_short by lia. split; [reflexivity |].
    now rewrite Hc, Hlen.
  - intros Hn. rewrite Hc, Hh, length_lastn, Hlen, Hn. split; [reflexivity |].
    split; [reflexivity |]. unfold lastn. now rewrite Hlen, Hn.
  - intros Hmono. rewrite Hh. unfold lastn. rewrite <- skipn_map.
    apply StronglySorted_skipn.
    destruct (clickEvents_ticks env shortCode cs w u Hu) as (ticks & Hts & Hs & _).
    fold events in Hts. rewrite Hts. now apply StronglySorted_map_mono.
Qed.

(** Logging and saving leave the mapping alone. *)
Create Rewrite HintDb frame.
#[local] Hint Rewrite record_urls record_all_urls saveToStorage_urls : frame.

Section LookupDeleteFacts.
Variable env : Env.

Lemma getUrl_fst shortCode w :
  fst (getUrl env shortCode w) = JsMap.get shortCode (urls w).
Proof.
  unfold getUrl. rewrite debug_record, !bind_run. unfold gets. cbn [fst snd].
  rewrite record_urls. destruct (JsMap.get shortCode (urls w)).
  - reflexivity.
  - now rewrite bind_run.
Qed.

Lemma getUrl_urls shortCode w : urls (snd (getUrl env shortCode w)) = urls w.
Proof.
  unfold getUrl. rewrite debug_record, !bind_run. unfold gets. cbn [fst snd].
  autorewrite with frame. destruct (JsMap.get shortCode (urls w)).
  - cbn [snd ret]. now autorewrite with frame.
  - rewrite bind_run, warn_record. cbn [snd ret]. now autorewrite with frame.
Qed.

Lemma deleteUrl_fst shortCode w :
  fst (deleteUrl env shortCode w) = JsMap.has shortCode (urls w).
Proof.
  unfold deleteUrl. rewrite info_record, !bind_run. unfold gets. cbn [fst snd ret].
  apply f_equal, record_urls.
Qed.

Lemma deleteUrl_urls shortCode w :
  urls (snd (deleteUrl env shortCode w)) = JsMap.delete shortCode (urls w).
Proof.
  unfold deleteUrl. rewrite info_record, !bind_run. unfold gets. cbn [fst snd ret].
  rewrite record_urls.
  destruct (JsMap.has shortCode (urls w)) eqn:E.
  - rewrite !bind_run, info_record. autorewrite with frame.
    unfold modify. cbn [snd urls set_urls]. now autorewrite with frame.
  - rewrite warn_record. autorewrite with frame.
    symmetry. now apply delete_absent.
Qed.
End LookupDeleteFacts.

(** C6. [deleteUrl] returns whether the code was in the mapping (so false on
    an absent code, which leaves the mapping as it was); a [getUrl] of the same
    code right after finds nothing; the other codes keep their records. *)
Theorem delete_then_lookup_not_found (env : Env) (shortCode : string) (w : World) :
  let existed := fst (deleteUrl env shortCode w) in
  let w' := snd (deleteUrl env shortCode w) in
  fst (getUrl env shortCode w') = None
  /\ existed = JsMap.has shortCode (urls w)
  /\ (JsMap.has shortCode (urls w) = false -> existed = false /\ urls w' = urls w)
  /\ (forall other : string,
        other <> shortCode ->
        JsMap.get other (urls w') = JsMap.get other (urls w)).
Proof.
  intros existed w'. subst existed w'.
  rewrite getUrl_fst, deleteUrl_fst, deleteUrl_urls.
  split; [apply get_delete_same |]. split; [reflexivity |]. split.
  - intros Habs. split; [exact Habs |]. now apply delete_absent.
  - intros other Hother. now apply get_delete_other.
Qed.

Lemma fold_left_clicks (l : list Url.ShortenedUrl) (a : Z) :
  fold_left (fun sum url => (sum + Url.clicks url)%Z) l a = (a + sum_clicks l)%Z.
Proof.
  revert a. induction l as [| u l IH]; intros a; cbn [fold_left].
  - unfold sum_clicks. cbn. lia.
  - rewrite IH. unfold sum_clicks. cbn [map fold_right]. lia.
Qed.

Lemma sum_clicks_perm (l l' : list Url.ShortenedUrl) :
  Permutation l l' -> sum_clicks l = sum_clicks l'.
Proof.
  unfold sum_clicks.
  induction 1; cbn [map fold_right]; try lia.
Qed.

Lemma StronglySorted_app_inv {A : Type} (R : A -> A -> Prop) (l1 l2 : list A) :
  StronglySorted R (l1 ++ l2) ->
  forall a b, In a l1 -> In b l2 -> R a b.
Proof.
  induction l1 as [| x l1 IH]; cbn [app]; intros H a b Ha Hb; [destruct Ha |].
  apply StronglySorted_inv in H. destruct H as [Hs Hx].
  destruct Ha as [<- | Ha].
  - rewrite Forall_forall in Hx. apply Hx, in_or_app. now right.
  - now apply IH.
Qed.

Section StatsFacts.
Variable env : Env.

Lemma getAllUrls_fst w :
  fst (getAllUrls env w) =
  Js.sort (fun a b => (Url.createdAt b - Url.createdAt a)%Z) (JsMap.values (urls w)).
Proof.
  unfold getAllUrls. rewrite !bind_run. unfold gets.
  cbn [fst snd ret]. now rewrite debug_record, record_urls.
Qed.

Lemma getAllUrls_urls w : urls (snd (getAllUrls env w)) = urls w.
Proof.
  unfold getAllUrls. rewrite !bind_run. unfold gets.
  cbn [fst snd ret]. now rewrite debug_record, record_urls.
Qed.

Lemma getAllUrls_perm w :
  Permutation (JsMap.values (urls w)) (fst (getAllUrls env w)).
Proof. rewrite getAllUrls_fst. apply sort_perm. Qed.

(** The statistics are those of the list [getAllUrls] returns in the same
    registry. *)
Lemma getStats_fst w :
  let allUrls := fst (getAllUrls env w) in
  Url.totalUrls (fst (getStats env w)) = List.length allUrls
  /\ Url.totalClicks (fst (getStats env w)) = sum_clicks allUrls
  /\ Url.topUrls (fst (getStats env w)) =
     firstn 10
       (Js.sort (fun a b => (Url.clicks b - Url.clicks a)%Z)
          (filter (fun url => (0 <? Url.clicks url)%Z) allUrls)).
Proof.
  intros allUrls. subst allUrls.
  assert (Hall : forall c,
    fst (getAllUrls env (snd (record env c w))) = fst (getAllUrls env w)).
  { intros c. now rewrite !getAllUrls_fst, record_urls. }
  repeat split; unfold getStats;
    rewrite debug_record, !bind_run; cbn [fst snd ret
      Url.totalUrls Url.totalClicks Url.topUrls]; rewrite Hall.
  - reflexivity.
  - now rewrite fold_left_clicks.
  - apply (slice_prefix 10).
Qed.

Lemma getStats_urls w : urls (snd (getStats env w)) = urls w.
Proof.
  unfold getStats. rewrite debug_record, !bind_run, snd_ret.
  now rewrite info_record, record_urls, getAllUrls_urls, record_urls.
Qed.
End StatsFacts.

(** C5. In the registry reached by any sequence of shorten, click and delete
    operations, [getStats] reports as [totalClicks] the sum of [clicks] over
    the records [getAllUrls] returns (asked before or after the statistics),
    which is the sum over the records of the mapping, and as [totalUrls] the
    number of records of the mapping. *)
Theorem stats_totals_match_registry
    (env : Env) (fuel : nat) (ops : list Op) (w0 w : World) :
  run env fuel ops w0 = Some w ->
  let stats := fst (getStats env w) in
  Url.totalClicks stats = sum_clicks (fst (getAllUrls env w))
  /\ Url.totalClicks stats = sum_clicks (fst (getAllUrls env (snd (getStats env w))))
  /\ Url.totalClicks stats = sum_clicks (JsMap.values (urls w))
  /\ Url.totalUrls stats = JsMap.size (urls w)
  /\ Url.totalUrls stats = List.length (fst (getAllUrls env w)).
Proof.
  intros _ stats. subst stats.
  destruct (getStats_fst env w) as (Hn & Hc & _).
  rewrite Hn, Hc. split; [reflexivity |]. split; [| split; [| split]].
  - now rewrite !getAllUrls_fst, getStats_urls.
  - symmetry. apply sum_clicks_perm, getAllUrls_perm.
  - rewrite <- (Permutation_length (getAllUrls_perm env w)).
    unfold JsMap.size, JsMap.values. apply length_map.
  - reflexivity.
Qed.

(** C8. [topUrls] has at most 10 entries, all of them records of the mapping
    with [clicks > 0], in descending order of [clicks]; no clicked record left
    out has more clicks than one that is listed. *)
Theorem topUrls_at_most_10_clicked_descending (env : Env) (w : World) :
  let top := Url.topUrls (fst (getStats env w)) in
  List.length top <= 10
  /\ Forall (fun u => (0 < Url.clicks u)%Z) top
  /\ StronglySorted (fun a b => (Url.clicks a >= Url.clicks b)%Z) top
  /\ incl top (JsMap.values (urls w))
  /\ exists rest : list Url.ShortenedUrl,
       Permutation (top ++ rest)
         (filter (fun u => (0 <? Url.clicks u)%Z) (JsMap.values (urls w)))
       /\ Forall (fun b => Forall (fun a => (Url.clicks a >= Url.clicks b)%Z) top) rest.
Proof.
  intros top. subst top.
  destruct (getStats_fst env w) as (_ & _ & ->).
  set (positive := filter (fun url => (0 <? Url.clicks url)%Z) (fst (getAllUrls env w))).
  set (sorted := Js.sort (fun a b => (Url.clicks b - Url.clicks a)%Z) positive).
  assert (Hperm : Permutation positive sorted) by apply sort_perm.
  assert (Hsorted : StronglySorted (descending Url.clicks) sorted)
    by (apply sort_sorted; reflexivity).
  assert (Hin : forall u, In u sorted ->
            (0 < Url.clicks u)%Z /\ In u (JsMap.values (urls w))).
  { intros u Hu. apply (Permutation_in _ (Permutation_sym Hperm)) in Hu.
    apply filter_In in Hu. destruct Hu as [Hu Hpos]. split; [lia |].
    eapply Permutation_in; [apply Permutation_sym, getAllUrls_perm | exact Hu]. }
  assert (Hsub : incl (firstn 10 sorted) sorted).
  { intros u Hu. rewrite <- (firstn_skipn 10 sorted). apply in_or_app. now left. }
  split; [apply firstn_le_length |]. split; [| split; [| split]].
  - rewrite Forall_forall. intros u Hu. now apply Hin, Hsub.
  - apply StronglySorted_firstn.
    eapply (StronglySorted_ind (fun l => StronglySorted _ l)); [| | exact Hsorted].
    + constructor.
    + intros a l _ IH Ha. constructor; [exact IH |].
      eapply Forall_impl; [| exact Ha]. unfold descending. intros; lia.
  - intros u Hu. now apply Hin, Hsub.
  - exists (skipn 10 sorted). split.
    + rewrite firstn_skipn. rewrite <- Hperm. subst positive.
      clear. generalize (getAllUrls_perm env w).
      generalize (fst (getAllUrls env w)) (JsMap.values (urls w)).
      intros l l' Hp. symmetry.
      induction Hp; cbn [filter]; try reflexivity.
      * destruct (0 <? Url.clicks x)%Z; [now apply perm_skip | assumption].
      * destruct (0 <? Url.clicks x)%Z, (0 <? Url.clicks y)%Z;
          try reflexivity. apply perm_swap.
      * etransitivity; eassumption.
    + rewrite Forall_forall. intros b Hb. rewrite Forall_forall. intros a Ha.
      rewrite <- (firstn_skipn 10 sorted) in Hsorted.
      pose proof (StronglySorted_app_inv _ _ _ Hsorted a b Ha Hb) as H.
      unfold descending in H. lia.
Qed.

Section ShortenFacts.
Variable env : Env.

Lemma shortenUrl_invalid_url fuel originalUrl customCode w :
  isValidUrl env originalUrl = false ->
  shortenUrl env fuel originalUrl customCode w =
  Some (failure InvalidUrl,
        snd (record_all env
               [shorten_request originalUrl customCode;
                invalid_url_warning originalUrl] w)).
Proof.
  intros Hurl. unfold shortenUrl. rewrite info_record.
  fold (shorten_request originalUrl customCode).
  destruct (record env (shorten_request originalUrl customCode) w) as [[] w1] eqn:E.
  rewrite Hurl. cbn [negb]. rewrite warn_record, bind_run.
  cbn [record_all]. rewrite !bind_run, E. reflexivity.
Qed.

Lemma shortenUrl_invalid_code fuel originalUrl code w :
  isValidUrl env originalUrl = true ->
  code <> "" ->
  isValidShortCode code = false ->
  shortenUrl env fuel originalUrl (Some code) w =
  Some (failure InvalidShortCode,
        snd (record_all env
               [shorten_request originalUrl (Some code);
                invalid_code_warning code] w)).
Proof.
  intros Hurl Hne Hcode. unfold shortenUrl. rewrite info_record.
  fold (shorten_request originalUrl (Some code)).
  destruct (record env (shorten_request originalUrl (Some code)) w) as [[] w1] eqn:E.
  rewrite Hurl. cbn [negb Js.truthy].
  destruct (String.eqb_spec code ""); [contradiction |]. cbn [negb].
  rewrite Hcode. cbn [negb]. rewrite warn_record, bind_run.
  cbn [record_all]. rewrite !bind_run, E. reflexivity.
Qed.

Lemma shortenUrl_code_taken fuel originalUrl code w :
  isValidUrl env originalUrl = true ->
  isValidShortCode code = true ->
  JsMap.has code (urls w) = true ->
  shortenUrl env fuel originalUrl (Some code) w =
  Some (failure ShortCodeTaken,
        snd (record_all env
               [shorten_request originalUrl (Some code);
                code_taken_warning code] w)).
Proof.
  intros Hurl Hcode Hhas. unfold shortenUrl. rewrite info_record.
  fold (shorten_request originalUrl (Some code)).
  pose proof (record_urls env (shorten_request originalUrl (Some code)) w) as Hu.
  destruct (record env (shorten_request originalUrl (Some code)) w) as [[] w1] eqn:E.
  cbn [snd] in Hu.
  rewrite Hurl. cbn [negb Js.truthy].
  destruct (String.eqb_spec code "") as [-> | _]; [discriminate Hcode |].
  cbn [negb]. rewrite Hcode, Hu, Hhas. cbn [negb]. rewrite warn_record, bind_run.
  cbn [record_all]. rewrite !bind_run, E. reflexivity.
Qed.

Lemma shortenUrl_custom fuel originalUrl code w :
  isValidUrl env originalUrl = true ->
  isValidShortCode code = true ->
  JsMap.has code (urls w) = false ->
  shortenUrl env fuel originalUrl (Some code) w =
  Some (createShortenedUrl env originalUrl code (Some code)
          (requested env originalUrl (Some code) w)).
Proof.
  intros Hurl Hcode Hhas. unfold shortenUrl, requested. rewrite info_record.
  fold (shorten_request originalUrl (Some code)).
  pose proof (record_urls env (shorten_request originalUrl (Some code)) w) as Hu.
  destruct (record env (shorten_request originalUrl (Some code)) w) as [[] w1] eqn:E.
  cbn [snd] in Hu |- *.
  rewrite Hurl. cbn [negb Js.truthy].
  destruct (String.eqb_spec code "") as [-> | _]; [discriminate Hcode |].
  cbn [negb]. now rewrite Hcode, Hu, Hhas.
Qed.

Lemma shortenUrl_generated fuel originalUrl customCode w :
  isValidUrl env originalUrl = true ->
  Js.truthy customCode = false ->
  shortenUrl env fuel originalUrl customCode w =
  match generateUnique env fuel (requested env originalUrl customCode w) with
  | None => None
  | Some (shortCode, w2) =>
      Some (createShortenedUrl env originalUrl shortCode customCode
              (snd (record env (generated_debug shortCode) w2)))
  end.
Proof.
  intros Hurl Hcc. unfold shortenUrl, requested. rewrite info_record.
  fold (shorten_request originalUrl customCode).
  destruct (record env (shorten_request originalUrl customCode) w) as [[] w1] eqn:E.
  cbn [snd]. rewrite Hurl, Hcc. cbn [negb].
  destruct (generateUnique env fuel w1) as [[shortCode w2] |]; [| reflexivity].
  now rewrite debug_record, bind_run.
Qed.

Lemma createShortenedUrl_spec originalUrl shortCode customCode w :
  fst (createShortenedUrl env originalUrl shortCode customCode w) =
    succeeded (new_record env originalUrl shortCode customCode w)
  /\ urls (snd (createShortenedUrl env originalUrl shortCode customCode w)) =
     JsMap.set shortCode (new_record env originalUrl shortCode customCode w) (urls w).
Proof.
  split; unfold createShortenedUrl; rewrite !bind_run; [reflexivity |].
  cbn [snd ret]. rewrite info_record, record_urls, saveToStorage_urls.
  reflexivity.
Qed.
End ShortenFacts.

(** *** Code generation *)

Lemma string_append_assoc (a b c : string) : (a ++ b) ++ c = a ++ (b ++ c).
Proof. induction a as [| x a IH]; cbn; [reflexivity | now rewrite IH]. Qed.

Lemma string_length_append (a b : string) :
  String.length (a ++ b) = String.length a + String.length b.
Proof. induction a as [| x a IH]; cbn; [reflexivity | now rewrite IH]. Qed.

Lemma list_ascii_of_string_append (a b : string) :
  list_ascii_of_string (a ++ b) =
  (list_ascii_of_string a ++ list_ascii_of_string b)%list.
Proof. induction a as [| x a IH]; cbn; [reflexivity | now rewrite IH]. Qed.

Lemma all_alnum_append (a b : string) :
  all_alnum (a ++ b) = all_alnum a && all_alnum b.
Proof. unfold all_alnum. now rewrite list_ascii_of_string_append, forallb_app. Qed.

(** Every position of the alphabet holds one alphanumeric character. *)
Lemma charAt_chars (i : nat) :
  i < 62 ->
  String.length (Js.charAt chars i) = 1 /\ all_alnum (Js.charAt chars i) = true.
Proof.
  intros Hi.
  assert (Hall : forallb
            (fun i => Nat.eqb (String.length (Js.charAt chars i)) 1
                      && all_alnum (Js.charAt chars i)) (seq 0 62) = true)
    by (vm_compute; reflexivity).
  rewrite forallb_forall in Hall.
  specialize (Hall i). rewrite in_seq in Hall.
  destruct (andb_prop _ _ (Hall ltac:(lia))) as [Hl Ha].
  split; [now apply Nat.eqb_eq | exact Ha].
Qed.

Section GenerationFacts.
Variable env : Env.

Lemma generateShortCode_loop_snd n result w :
  snd (generateShortCode_loop env n result w) = set_tick (tick w + n) w.
Proof.
  revert result w. induction n as [| n IH]; intros result w;
    cbn [generateShortCode_loop].
  - cbn [ret snd]. destruct w; unfold set_tick; cbn. f_equal. lia.
  - rewrite bind_run, IH. unfold read. cbn [fst snd set_tick tick].
    unfold set_tick. cbn. f_equal. lia.
Qed.

Lemma generateShortCode_snd w :
  snd (generateShortCode env w) = set_tick (tick w + 6) w.
Proof. apply generateShortCode_loop_snd. Qed.

Lemma generateShortCode_urls w : urls (snd (generateShortCode env w)) = urls w.
Proof. now rewrite generateShortCode_snd. Qed.


Hypothesis random_index_range : forall n, random_index env n < 62.

Lemma generateShortCode_loop_fst n result w :
  exists s : string,
    fst (generateShortCode_loop env n result w) = result ++ s
    /\ String.length s = n /\ all_alnum s = true.
Proof.
  revert result w. induction n as [| n IH]; intros result w;
    cbn [generateShortCode_loop].
  - exists "". cbn [ret fst]. split; [| split; reflexivity].
    clear. induction result as [| x r IH]; cbn; [reflexivity | now rewrite <- IH].
  - rewrite bind_run. unfold read at 1 2. cbn [fst snd].
    destruct (IH (result ++ Js.charAt chars (random_index env (tick w)))
                 (set_tick (S (tick w)) w)) as (s & Hs & Hlen & Hal).
    destruct (charAt_chars (random_index env (tick w)) (random_index_range _))
      as [Hc1 Hc2].
    exists (Js.charAt chars (random_index env (tick w)) ++ s).
    rewrite Hs, string_append_assoc, string_length_append, all_alnum_append.
    rewrite Hc1, Hc2, Hlen, Hal. repeat split.
Qed.

(** A generated code matches [/^[a-zA-Z0-9]{6}$/]. *)
Lemma generateShortCode_format w :
  regex_alnum 6 6 (fst (generateShortCode env w)) = true.
Proof.
  destruct (generateShortCode_loop_fst 6 "" w) as (s & Hs & Hlen & Hal).
  unfold generateShortCode. rewrite Hs. cbn [append].
  unfold regex_alnum. fold (all_alnum s). now rewrite Hal, Hlen.
Qed.

Lemma attempt_format k w : regex_alnum 6 6 (attempt env k w) = true.
Proof.
  revert w. induction k as [| k IH]; intros w; cbn [attempt].
  - apply generateShortCode_format.
  - apply IH.
Qed.
End GenerationFacts.

Section UniqueFacts.
Variable env : Env.

Lemma generateUnique_step fuel w :
  generateUnique env (S fuel) w =
  if JsMap.has (attempt env 0 w) (urls w)
  then generateUnique env fuel (snd (generateShortCode env w))
  else Some (attempt env 0 w, snd (generateShortCode env w)).
Proof.
  cbn [generateUnique attempt].
  rewrite <- (generateShortCode_urls env w) at 1.
  destruct (generateShortCode env w) as [c w1]. reflexivity.
Qed.


End UniqueFacts.

Section GeneratedFacts.
Variable env : Env.
Hypothesis random_index_range : forall n, random_index env n < 62.

Lemma requested_urls originalUrl customCode w :
  urls (requested env originalUrl customCode w) = urls w.
Proof. apply record_urls. Qed.

End GeneratedFacts.


(** *** A falsy custom code is no custom code

    The result of [shortenUrl] and the mapping it leaves depend on the world
    through the mapping and the counter of the environment only, and on the
    custom code, when it is falsy, not at all. *)

Section FalsyCustomCode.
Variable env : Env.

Lemma setItem_tick_eq key v w :
  tick (snd (Logger.setItem env key v w)) =
  tick w + (if localStorage_ok env then 1 else 0).
Proof.
  unfold Logger.setItem. destruct (localStorage_ok env); [| cbn; lia].
  unfold bind, read, modify, ret.
  destruct (setItem_ok env (tick w)); cbn; lia.
Qed.




End FalsyCustomCode.


(** C3, as the code has it. With a URL the parser accepts, a custom code that
    is not the empty string and does not match [/^[a-zA-Z0-9]{3,20}$/] makes
    [shortenUrl] fail with the invalid-shortcode error, and a matching custom
    code already in the mapping makes it fail with the shortcode-exists error;
    in both cases the mapping is unchanged. *)
Theorem custom_code_rejected
    (env : Env) (fuel : nat) (originalUrl code : string) (w : World) :
  isValidUrl env originalUrl = true ->
  (code <> "" -> isValidShortCode code = false ->
   exists w' : World,
     shortenUrl env fuel originalUrl (Some code) w =
     Some ({| Url.success := false; Url.data := None;
              Url.error := Some InvalidShortCode |}, w')
     /\ urls w' = urls w)
  /\ (isValidShortCode code = true -> JsMap.has code (urls w) = true ->
      exists w' : World,
        shortenUrl env fuel originalUrl (Some code) w =
        Some ({| Url.success := false; Url.data := None;
                 Url.error := Some ShortCodeTaken |}, w')
        /\ urls w' = urls w).
Proof.
  intros Hurl. split.
  - intros Hne Hcode. eexists. split.
    + now apply shortenUrl_invalid_code.
    + apply record_all_urls.
  - intros Hcode Hhas. eexists. split.
    + now apply shortenUrl_code_taken.
    + apply record_all_urls.
Qed.

Lemma demo_random_index_range : forall n, random_index demo_env n < 62.
Proof.
  intros n. cbn [random_index demo_env].
  apply Nat.mod_upper_bound. discriminate.
Defined.

Lemma clicks_count_all_history_keeps_last_100_witness :
  JsMap.get "docs" (urls demo_world) = Some demo_record
  /\ Url.clicks demo_record = 0%Z
  /\ Url.clickHistory demo_record = []
  /\ List.length demo_clicks = 150
  /\ exists u' : Url.ShortenedUrl,
       JsMap.get "docs" (urls (snd (clickAll demo_env "docs" demo_clicks demo_world)))
       = Some u'
       /\ Url.clicks u' = 150%Z
       /\ List.length (Url.clickHistory u') = 100
       /\ Url.clickHistory u' =
          skipn 50 (clickEvents demo_env "docs" demo_clicks demo_world).
Proof.
  assert (H1 : JsMap.get "docs" (urls demo_world) = Some demo_record)
    by (vm_compute; reflexivity).
  assert (H4 : List.length demo_clicks = 150) by reflexivity.
  split; [exact H1 |]. split; [reflexivity |]. split; [reflexivity |].
  split; [exact H4 |].
  destruct (clicks_count_all_history_keeps_last_100 demo_env "docs" demo_clicks
              demo_world demo_record H1 eq_refl eq_refl)
    as (u' & Hget & _ & _ & _ & _ & _ & H150 & _).
  exists u'. split; [exact Hget |]. exact (H150 H4).
Defined.


(** C3 as stated fails: the empty string is a supplied custom code that does
    not match the pattern, and the call succeeds; and with a URL the parser
    rejects, a custom code that does not match is not what the call reports. *)
Lemma custom_code_rejected_counterexample :
  isValidShortCode "" = false
  /\ option_map (fun p => (Url.success (fst p), Url.error (fst p)))
       (shortenUrl demo_env 1 "https://example.com" (Some "") demo_world)
     = Some (true, None)
  /\ isValidShortCode "ab" = false
  /\ option_map (fun p => Url.error (fst p))
       (shortenUrl demo_env 1 "not a url" (Some "ab") demo_world)
     = Some (Some InvalidUrl)
  /\ InvalidUrl <> InvalidShortCode.
Proof.
  split; [reflexivity |]. split; [vm_compute; reflexivity |].
  split; [reflexivity |]. split; [vm_compute; reflexivity |]. discriminate.
Qed.

Lemma custom_code_rejected_witness :
  isValidUrl demo_env "https://example.com" = true
  /\ "ab" <> ""
  /\ isValidShortCode "ab" = false
  /\ isValidShortCode "docs" = true
  /\ JsMap.has "docs" (urls demo_world) = true
  /\ (exists w' : World,
        shortenUrl demo_env 1 "https://example.com" (Some "ab") demo_world =
        Some ({| Url.success := false; Url.data := None;
                 Url.error := Some InvalidShortCode |}, w')
        /\ urls w' = urls demo_world)
  /\ (exists w' : World,
        shortenUrl demo_env 1 "https://example.com" (Some "docs") demo_world =
        Some ({| Url.success := false; Url.data := None;
                 Url.error := Some ShortCodeTaken |}, w')
        /\ urls w' = urls demo_world).
Proof.
  assert (H1 : isValidUrl demo_env "https://example.com" = true) by reflexivity.
  assert (H2 : "ab" <> "") by discriminate.
  assert (H3 : isValidShortCode "ab" = false) by reflexivity.
  assert (H4 : isValidShortCode "docs" = true) by reflexivity.
  assert (H5 : JsMap.has "docs" (urls demo_world) = true) by (vm_compute; reflexivity).
  split; [exact H1 |]. split; [exact H2 |]. split; [exact H3 |].
  split; [exact H4 |]. split; [exact H5 |]. split.
  - exact (proj1 (custom_code_rejected demo_env 1 "https://example.com" "ab"
                    demo_world H1) H2 H3).
  - exact (proj2 (custom_code_rejected demo_env 1 "https://example.com" "docs"
                    demo_world H1) H4 H5).
Defined.

Lemma stats_totals_match_registry_witness :
  run demo_env 1 demo_ops demo_world = Some demo_world_after
  /\ Url.totalClicks (fst (getStats demo_env demo_world_after))
     = sum_clicks (fst (getAllUrls demo_env demo_world_after))
  /\ Url.totalClicks (fst (getStats demo_env demo_world_after))
     = sum_clicks (fst (getAllUrls demo_env (snd (getStats demo_env demo_world_after))))
  /\ Url.totalClicks (fst (getStats demo_env demo_world_after))
     = sum_clicks (JsMap.values (urls demo_world_after))
  /\ Url.totalUrls (fst (getStats demo_env demo_world_after))
     = JsMap.size (urls demo_world_after)
  /\ Url.totalUrls (fst (getStats demo_env demo_world_after))
     = List.length (fst (getAllUrls demo_env demo_world_after)).
Proof.
  assert (H : run demo_env 1 demo_ops demo_world = Some demo_world_after)
    by (vm_compute; reflexivity).
  split; [exact H |].
  exact (stats_totals_match_registry demo_env 1 demo_ops demo_world
           demo_world_after H).
Defined.

Lemma delete_then_lookup_not_found_witness :
  JsMap.has "nope" (urls demo_world) = false
  /\ fst (deleteUrl demo_env "nope" demo_world) = false
  /\ urls (snd (deleteUrl demo_env "nope" demo_world)) = urls demo_world
  /\ "docs" <> "nope"
  /\ JsMap.get "docs" (urls (snd (deleteUrl demo_env "nope" demo_world)))
     = JsMap.get "docs" (urls demo_world).
Proof.
  assert (H : JsMap.has "nope" (urls demo_world) = false) by (vm_compute; reflexivity).
  assert (Hne : "docs" <> "nope") by discriminate.
  destruct (delete_then_lookup_not_found demo_env "nope" demo_world)
    as (_ & _ & Habs & Hother).
  split; [exact H |]. split; [exact (proj1 (Habs H)) |].
  split; [exact (proj2 (Habs H)) |]. split; [exact Hne |].
  exact (Hother "docs" Hne).
Defined.

Lemma recordClick_unknown_code_is_noop_witness :
  JsMap.has "nope" (urls demo_world) = false
  /\ fst (recordClick demo_env "nope" (Some "Mozilla/5.0") None demo_world) = false
  /\ urls (snd (recordClick demo_env "nope" (Some "Mozilla/5.0") None demo_world))
     = urls demo_world.
Proof.
  assert (H : JsMap.has "nope" (urls demo_world) = false) by (vm_compute; reflexivity).
  destruct (recordClick_unknown_code_is_noop demo_env "nope" (Some "Mozilla/5.0")
              None demo_world H) as (Hres & Hurls & _).
  split; [exact H |]. split; [exact Hres | exact Hurls].
Defined.


(** The run behind the example of the specification: the same custom code
    twice. *)
Example shorten_same_custom_code_twice :
  option_map (fun p => (Url.success (fst p), option_map Url.shortCode (Url.data (fst p))))
    (shortenUrl demo_env 1 "https://example.com" (Some "docs") empty_world)
  = Some (true, Some "docs")
  /\ option_map (fun p => Url.error (fst p))
       (shortenUrl demo_env 1 "https://example.com" (Some "docs") demo_world)
     = Some (Some ShortCodeTaken).
Proof. split; vm_compute; reflexivity. Qed.

(** *** The association list stays a map

    The keys of the mapping stay pairwise distinct through every operation,
    as they are in a [Map]. *)

Section WellFormed.
Context {V : Type}.
Implicit Types (m : JsMap.t V) (k : string) (v : V).

Lemma has_In k m : JsMap.has k m = true <-> In k (map fst m).
Proof.
  unfold JsMap.has. rewrite existsb_exists, in_map_iff. split.
  - intros (p & Hp & Hk). apply String.eqb_eq in Hk. now exists p.
  - intros (p & Hk & Hp). exists p. split; [exact Hp |]. now apply String.eqb_eq.
Qed.

Lemma wf_set k v m : JsMap.wf m -> JsMap.wf (JsMap.set k v m).
Proof.
  unfold JsMap.wf. intros Hwf.
  destruct (JsMap.has k m) eqn:E.
  - now rewrite keys_set_present.
  - rewrite set_absent, map_app by assumption. cbn [map fst].
    apply NoDup_app; [exact Hwf | repeat constructor; intros [] |].
    intros x Hx [<- | []].
    apply has_In in Hx. congruence.
Qed.

Lemma wf_delete k m : JsMap.wf m -> JsMap.wf (JsMap.delete k m).
Proof.
  unfold JsMap.wf, JsMap.delete.
  induction m as [| [k' v'] m IH]; cbn [filter map fst]; intros Hwf;
    [constructor |].
  apply NoDup_cons_iff in Hwf. destruct Hwf as [Hk' Hwf].
  destruct (negb (String.eqb k' k)); cbn [map fst negb]; [| now apply IH].
  constructor; [| now apply IH].
  intros Hin. apply Hk'. rewrite in_map_iff in *.
  destruct Hin as (p & Hp & Hin). exists p. split; [exact Hp |].
  now apply filter_In in Hin.
Qed.
End WellFormed.

Lemma some_pair_world {A : Type} (p : A * World) (a : A) (w : World) :
  Some p = Some (a, w) -> w = snd p.
Proof. intros [= ->]. reflexivity. Qed.

Section RunFacts.
Variable env : Env.

Lemma generateUnique_urls fuel w c w' :
  generateUnique env fuel w = Some (c, w') -> urls w' = urls w.
Proof.
  revert w. induction fuel as [| fuel IH]; intros w; [discriminate |].
  rewrite generateUnique_step.
  destruct (JsMap.has _ (urls w)).
  - intros H. rewrite (IH _ H). apply generateShortCode_urls.
  - intros H. rewrite (some_pair_world _ _ _ H). cbn [snd]. apply generateShortCode_urls.
Qed.

Lemma shortenUrl_urls fuel originalUrl customCode w res w' :
  shortenUrl env fuel originalUrl customCode w = Some (res, w') ->
  urls w' = urls w
  \/ exists c r, urls w' = JsMap.set c r (urls w).
Proof.
  destruct (isValidUrl env originalUrl) eqn:Hurl.
  - destruct (Js.truthy customCode) eqn:Hcc.
    + destruct customCode as [code |]; [| discriminate].
      assert (Hne : code <> "") by (intros ->; discriminate).
      destruct (isValidShortCode code) eqn:Hcode.
      * destruct (JsMap.has code (urls w)) eqn:Hhas.
        -- rewrite shortenUrl_code_taken by assumption.
           intros H. rewrite (some_pair_world _ _ _ H). cbn [snd].
           left. apply record_all_urls.
        -- rewrite shortenUrl_custom by assumption.
           intros H. right. rewrite (some_pair_world _ _ _ H).
           rewrite (proj2 (createShortenedUrl_spec env _ _ _ _)), requested_urls.
           do 2 eexists. reflexivity.
      * rewrite shortenUrl_invalid_code by assumption.
        intros H. rewrite (some_pair_world _ _ _ H). cbn [snd].
        left. apply record_all_urls.
    + rewrite shortenUrl_generated by assumption.
      destruct (generateUnique env fuel _) as [[c w2] |] eqn:E; [| discriminate].
      intros H. right. rewrite (some_pair_world _ _ _ H).
      rewrite (proj2 (createShortenedUrl_spec env _ _ _ _)), record_urls.
      rewrite (generateUnique_urls _ _ _ _ E), requested_urls.
      do 2 eexists. reflexivity.
  - rewrite shortenUrl_invalid_url by assumption.
    intros H. rewrite (some_pair_world _ _ _ H). cbn [snd]. left. apply record_all_urls.
Qed.

Lemma step_wf fuel op w w' :
  step env fuel op w = Some w' -> JsMap.wf (urls w) -> JsMap.wf (urls w').
Proof.
  destruct op as [originalUrl customCode | shortCode ua ref | shortCode];
    cbn [step]; intros H Hwf.
  - destruct (shortenUrl env fuel originalUrl customCode w) as [[res w1] |] eqn:E;
      [| discriminate].
    injection H as <-.
    destruct (shortenUrl_urls _ _ _ _ _ _ E) as [-> | (c & r & ->)];
      [exact Hwf | now apply wf_set].
  - injection H as <-.
    destruct (JsMap.get shortCode (urls w)) as [u |] eqn:E.
    + rewrite (proj2 (recordClick_present env _ ua ref _ _ E)). now apply wf_set.
    + rewrite (recordClick_absent env _ ua ref _ E). cbn [snd].
      now rewrite record_all_urls.
  - injection H as <-. rewrite deleteUrl_urls. now apply wf_delete.
Qed.

Lemma run_wf fuel ops w w' :
  run env fuel ops w = Some w' -> JsMap.wf (urls w) -> JsMap.wf (urls w').
Proof.
  revert w. induction ops as [| op ops IH]; intros w; cbn [run].
  - now intros [= <-].
  - destruct (step env fuel op w) as [w1 |] eqn:E; [| discriminate].
    intros H Hwf. apply (IH _ H). eapply step_wf; eassumption.
Qed.
End RunFacts.

(** * Further properties

    ** Listings: [getAllUrls] and [recentActivity] *)

Section StableSort.
Context {A : Type} (cmp : A -> A -> Z) (key : A -> Z).
Hypothesis cmp_key : forall a b, cmp a b = (key b - key a)%Z.

(** The elements of one key keep their order through [Js.sort]. *)
Lemma insert_stable (t : Z) (x : A) (l : list A) :
  filter (fun a => (key a =? t)%Z) (Js.insert cmp x l) =
  filter (fun a => (key a =? t)%Z) (x :: l).
Proof.
  induction l as [| y l IH]; cbn [Js.insert]; [reflexivity |].
  destruct (cmp x y <=? 0)%Z eqn:E; [reflexivity |].
  apply Z.leb_gt in E. rewrite cmp_key in E.
  cbn [filter] in *. rewrite IH.
  destruct (key x =? t)%Z eqn:Ex, (key y =? t)%Z eqn:Ey; try reflexivity.
  apply Z.eqb_eq in Ex, Ey. lia.
Qed.

Lemma sort_stable (t : Z) (l : list A) :
  filter (fun a => (key a =? t)%Z) (Js.sort cmp l) =
  filter (fun a => (key a =? t)%Z) l.
Proof.
  induction l as [| x l IH]; [reflexivity |].
  cbn [Js.sort fold_right]. fold (Js.sort cmp l).
  rewrite insert_stable. cbn [filter]. now rewrite IH.
Qed.

(** The first [n] of the elements that pass a test, largest key first. *)
Lemma top_spec (p : A -> bool) (n : nat) (l : list A) :
  let top := firstn n (Js.sort cmp (filter p l)) in
  List.length top <= n
  /\ Forall (fun a => p a = true) top
  /\ StronglySorted (descending key) top
  /\ incl top l
  /\ exists rest : list A,
       Permutation (top ++ rest) (filter p l)
       /\ Forall (fun b => Forall (fun a => (key b <= key a)%Z) top) rest.
Proof.
  intros top. subst top.
  set (sorted := Js.sort cmp (filter p l)).
  assert (Hperm : Permutation (filter p l) sorted) by apply sort_perm.
  assert (Hsorted : StronglySorted (descending key) sorted)
    by now apply sort_sorted.
  assert (Hsub : incl (firstn n sorted) (filter p l)).
  { intros a Ha. apply (Permutation_in _ (Permutation_sym Hperm)).
    rewrite <- (firstn_skipn n sorted). apply in_or_app. now left. }
  split; [apply firstn_le_length |]. split; [| split; [| split]].
  - rewrite Forall_forall. intros a Ha. now apply Hsub, filter_In in Ha.
  - now apply StronglySorted_firstn.
  - intros a Ha. now apply Hsub, filter_In in Ha.
  - exists (skipn n sorted). split.
    + now rewrite firstn_skipn.
    + rewrite Forall_forall. intros b Hb. rewrite Forall_forall. intros a Ha.
      rewrite <- (firstn_skipn n sorted) in Hsorted.
      exact (StronglySorted_app_inv _ _ _ Hsorted a b Ha Hb).
Qed.
End StableSort.

Lemma getStats_recentActivity (env : Env) (w : World) :
  Url.recentActivity (fst (getStats env w)) =
  firstn 10
    (Js.sort
       (fun a b => (getTime (Url.lastAccessed b) - getTime (Url.lastAccessed a))%Z)
       (filter
          (fun url => match Url.lastAccessed url with
                      | Some _ => true | None => false end)
          (fst (getAllUrls env w)))).
Proof.
  unfold getStats. rewrite debug_record, !bind_run.
  cbn [fst snd ret Url.recentActivity].
  rewrite !getAllUrls_fst, record_urls. apply (slice_prefix 10).
Qed.

(** X1. [getAllUrls] returns the records of the mapping, each once, newest
    first by [createdAt]; records created at the same instant keep the order
    in which the mapping holds them; the mapping itself is not changed. *)
Theorem getAllUrls_newest_first_stable (env : Env) (w : World) :
  let all := fst (getAllUrls env w) in
  Permutation (JsMap.values (urls w)) all
  /\ StronglySorted (fun a b => (Url.createdAt b <= Url.createdAt a)%Z) all
  /\ (forall t : Z,
        filter (fun u => (Url.createdAt u =? t)%Z) all =
        filter (fun u => (Url.createdAt u =? t)%Z) (JsMap.values (urls w)))
  /\ urls (snd (getAllUrls env w)) = urls w.
Proof.
  intros all. subst all. rewrite getAllUrls_fst, getAllUrls_urls.
  split; [apply sort_perm |]. split; [| split; [| reflexivity]].
  - apply (sort_sorted _ Url.createdAt). reflexivity.
  - intros t. apply (sort_stable _ Url.createdAt). reflexivity.
Qed.

(** X2. [recentActivity] has at most 10 entries, all of them records of the
    mapping that have been accessed, most recently accessed first; no
    accessed record left out was accessed later than one that is listed. *)
Theorem recentActivity_at_most_10_latest_first (env : Env) (w : World) :
  let recent := Url.recentActivity (fst (getStats env w)) in
  let accessed := fun u : Url.ShortenedUrl =>
    match Url.lastAccessed u with Some _ => true | None => false end in
  List.length recent <= 10
  /\ Forall (fun u => Url.lastAccessed u <> None) recent
  /\ StronglySorted
       (fun a b => (getTime (Url.lastAccessed b) <= getTime (Url.lastAccessed a))%Z)
       recent
  /\ incl recent (JsMap.values (urls w))
  /\ exists rest : list Url.ShortenedUrl,
       Permutation (recent ++ rest) (filter accessed (fst (getAllUrls env w)))
       /\ Forall (fun b =>
            Forall (fun a =>
              (getTime (Url.lastAccessed b) <= getTime (Url.lastAccessed a))%Z)
              recent) rest.
Proof.
  intros recent accessed. subst recent. rewrite getStats_recentActivity.
  fold accessed.
  destruct (top_spec
              (fun a b => (getTime (Url.lastAccessed b) - getTime (Url.lastAccessed a))%Z)
              (fun u => getTime (Url.lastAccessed u)) (fun a b => eq_refl)
              accessed 10 (fst (getAllUrls env w)))
    as (Hlen & Hacc & Hsorted & Hincl & rest & Hperm & Hrest).
  split; [exact Hlen |]. split; [| split; [exact Hsorted | split]].
  - eapply Forall_impl; [| exact Hacc]. cbn beta. unfold accessed.
    intros u Hu. destruct (Url.lastAccessed u); [discriminate | discriminate].
  - intros u Hu. apply Hincl in Hu.
    eapply Permutation_in; [apply Permutation_sym, getAllUrls_perm | exact Hu].
  - exists rest. split; [exact Hperm | exact Hrest].
Qed.

(** ** The concrete runs *)

Lemma demo_world_docs : JsMap.get "docs" (urls demo_world) = Some demo_record.
Proof. vm_compute. reflexivity. Defined.

Lemma demo_world_wf : JsMap.wf (urls demo_world).
Proof.
  unfold JsMap.wf.
  replace (map fst (urls demo_world)) with ["docs"] by (vm_compute; reflexivity).
  constructor; [intros [] | constructor].
Defined.

Lemma demo_world_synced : synced demo_world.
Proof. unfold synced. vm_compute. reflexivity. Defined.

Lemma demo_run : run demo_env 1 demo_ops demo_world = Some demo_world_after.
Proof. vm_compute. reflexivity. Defined.

Lemma demo_writes_succeed : writes_succeed demo_env.
Proof. split; [reflexivity | intros n; reflexivity]. Defined.

Lemma full_writes_fail : writes_fail full_env.
Proof. right. intros n. reflexivity. Defined.

Lemma demo_decodes_urls : decodes_urls demo_decode_urls.
Proof. intros m. reflexivity. Defined.

Lemma demo_decodes_logs : decodes_logs demo_decode_logs.
Proof. intros l. reflexivity. Defined.

Lemma demo_world_registry_ok : registry_ok demo_world.
Proof.
  split; [exact demo_world_wf |].
  replace (urls demo_world) with [("docs", demo_record)] by (vm_compute; reflexivity).
  constructor; [| constructor].
  unfold record_ok. cbn. repeat split; reflexivity.
Defined.

Lemma demo_world_codes_valid : codes_valid demo_world.
Proof.
  unfold codes_valid.
  replace (urls demo_world) with [("docs", demo_record)] by (vm_compute; reflexivity).
  constructor; [| constructor]. vm_compute. reflexivity.
Defined.

(** A reload moves a code that reads as an array index to the front. *)
Example reload_moves_numeric_code_first :
  map fst (urls numeric_world) = ["docs"; "123"]
  /\ map fst (urls (snd (Startup.pageLoad demo_env demo_decode_urls demo_decode_logs
                           numeric_world))) = ["123"; "docs"].
Proof. split; vm_compute; reflexivity. Qed.

(** ** Persistence: what is written, and what a failing write leaves *)

Section StorageFacts.
Variable env : Env.

Lemma setItem_success key v w :
  localStorage_ok env = true -> setItem_ok env (tick w) = true ->
  Logger.setItem env key v w =
  (Js.Normal tt,
   set_localStorage (JsMap.set key v (localStorage w)) (set_tick (S (tick w)) w)).
Proof.
  intros Hls Hok. unfold Logger.setItem. rewrite Hls.
  unfold bind, read, modify, ret. now rewrite Hok.
Qed.

Lemma setItem_failure key v w :
  localStorage_ok env = false \/ setItem_ok env (tick w) = false ->
  fst (Logger.setItem env key v w) = Js.Throw (write_error env)
  /\ localStorage (snd (Logger.setItem env key v w)) = localStorage w.
Proof.
  unfold Logger.setItem, write_error.
  destruct (localStorage_ok env); intros [H | H]; try discriminate;
    try (split; reflexivity).
  unfold bind, read, modify, ret. rewrite H. split; reflexivity.
Qed.

Lemma persistLog_storage e w :
  let w' := snd (Logger.persistLog env e w) in
  (localStorage_ok env = true -> setItem_ok env (tick w) = true ->
   JsMap.get "app-logs" (localStorage w') = Some (StoredLogs (logs w')))
  /\ (localStorage_ok env = false \/ setItem_ok env (tick w) = false ->
      localStorage w' = localStorage w).
Proof.
  intros w'. subst w'. unfold Logger.persistLog. rewrite !bind_run.
  unfold ret at 1. unfold ret at 1. cbn [fst snd].
  unfold gets, modify. cbn [fst snd].
  destruct (Logger.maxLogs <? _)%nat; cbn [snd ret]; (split; [intros Hls Hok | intros H]).
  all: try (rewrite setItem_success by assumption;
            cbn [snd localStorage set_localStorage logs set_tick];
            apply get_set_same).
  all: match goal with
       | |- localStorage (snd (Logger.setItem _ ?k ?v ?w0)) = _ =>
           now rewrite (proj2 (setItem_failure k v w0 H))
       end.
Qed.

Lemma record_storage c w :
  let w' := snd (record env c w) in
  (localStorage_ok env = true -> setItem_ok env (S (S (tick w))) = true ->
   JsMap.get "app-logs" (localStorage w') = Some (StoredLogs (logs w')))
  /\ (localStorage_ok env = false \/ setItem_ok env (S (S (tick w))) = false ->
      localStorage w' = localStorage w).
Proof.
  intros w'. subst w'. rewrite record_unfold.
  exact (persistLog_storage (entry_of env c w) (set_tick (S (S (tick w))) w)).
Qed.

Lemma record_all_storage_fail cs w :
  writes_fail env -> localStorage (snd (record_all env cs w)) = localStorage w.
Proof.
  intros Hf. revert w. induction cs as [| c cs IH]; intros w; cbn [record_all].
  - reflexivity.
  - rewrite bind_run, IH. apply record_storage.
    destruct Hf as [H | H]; [now left | right; apply H].
Qed.

Lemma saveToStorage_success w :
  window_defined env = true -> localStorage_ok env = true ->
  setItem_ok env (tick w) = true ->
  saveToStorage env w =
  record env (saved_debug (JsMap.size (urls w)))
    (set_localStorage (JsMap.set STORAGE_KEY (StoredUrls (urls w)) (localStorage w))
       (set_tick (S (tick w)) w)).
Proof.
  intros Hwin Hls Hok. unfold saveToStorage. rewrite Hwin, !bind_run.
  unfold gets. cbn [fst snd].
  rewrite (setItem_success _ _ _ Hls Hok). cbn [fst snd].
  rewrite bind_run, debug_record. reflexivity.
Qed.

Lemma saveToStorage_failure w :
  window_defined env = true ->
  localStorage_ok env = false \/ setItem_ok env (tick w) = false ->
  saveToStorage env w =
  record env (save_failed_error (write_error env))
    (snd (Logger.setItem env STORAGE_KEY (StoredUrls (urls w)) w)).
Proof.
  intros Hwin H. unfold saveToStorage. rewrite Hwin, !bind_run.
  unfold gets. cbn [fst snd].
  rewrite (proj1 (setItem_failure STORAGE_KEY (StoredUrls (urls w)) w H)).
  now rewrite error_record.
Qed.

Lemma saveToStorage_no_window w :
  window_defined env = false -> saveToStorage env w = (tt, w).
Proof. intros Hwin. unfold saveToStorage. now rewrite Hwin. Qed.
End StorageFacts.

(** X3. In a browser where the write goes through, [saveToStorage] leaves
    under the key "shortened-urls" the snapshot of the whole mapping, logs the
    DEBUG event SAVE_STORAGE with the number of records, and does not touch
    the mapping. *)
Theorem saveToStorage_writes_snapshot (env : Env) (w : World) :
  window_defined env = true ->
  localStorage_ok env = true ->
  setItem_ok env (tick w) = true ->
  let w' := snd (saveToStorage env w) in
  JsMap.get STORAGE_KEY (localStorage w') = Some (StoredUrls (urls w))
  /\ urls w' = urls w
  /\ synced w'
  /\ exists e : Log.LogEntry,
       logs w' = firstn 1000 (e :: logs w)
       /\ call_of e = saved_debug (JsMap.size (urls w)).
Proof.
  intros Hwin Hls Hok w'. subst w'.
  assert (Hu : urls (snd (saveToStorage env w)) = urls w)
    by apply saveToStorage_urls.
  assert (Hs : JsMap.get STORAGE_KEY (localStorage (snd (saveToStorage env w)))
               = Some (StoredUrls (urls w))).
  { rewrite (saveToStorage_success env w Hwin Hls Hok).
    rewrite record_storage_other by discriminate.
    cbn [localStorage set_localStorage]. apply get_set_same. }
  split; [exact Hs |]. split; [exact Hu |]. split.
  - unfold synced. now rewrite Hu.
  - rewrite (saveToStorage_success env w Hwin Hls Hok), record_logs.
    eexists. split; [reflexivity |]. apply call_of_entry_of.
Qed.

(** X4. When its write throws (the storage cannot be reached, or [setItem]
    rejects this write), [saveToStorage] swallows the exception: the mapping
    is unchanged, and the newest log entry is the ERROR event
    SAVE_STORAGE_ERROR carrying the message of the exception. Every key of
    the storage but the one of the log holds what it held, so the stored
    snapshot of the registry is the old one. The log entry is persisted as
    any other: when that second write fails too the whole storage is as it
    was, and when it succeeds the storage holds the log with the error entry.
    Outside a browser [saveToStorage] does nothing at all. *)
Theorem saveToStorage_swallows_failure (env : Env) (w : World) :
  (window_defined env = true ->
   localStorage_ok env = false \/ setItem_ok env (tick w) = false ->
   let w' := snd (saveToStorage env w) in
   urls w' = urls w
   /\ (forall key, key <> "app-logs" ->
         JsMap.get key (localStorage w') = JsMap.get key (localStorage w))
   /\ (exists e : Log.LogEntry,
         logs w' = firstn 1000 (e :: logs w)
         /\ call_of e = save_failed_error (write_error env))
   /\ (localStorage_ok env = false \/ setItem_ok env (3 + tick w) = false ->
       localStorage w' = localStorage w)
   /\ (localStorage_ok env = true -> setItem_ok env (3 + tick w) = true ->
       JsMap.get "app-logs" (localStorage w') = Some (StoredLogs (logs w'))))
  /\ (window_defined env = false -> saveToStorage env w = (tt, w)).
Proof.
  split; [| apply saveToStorage_no_window].
  intros Hwin H w'. subst w'.
  split; [apply saveToStorage_urls |].
  rewrite (saveToStorage_failure env w Hwin H).
  set (w1 := snd (Logger.setItem env STORAGE_KEY (StoredUrls (urls w)) w)).
  assert (Hl : localStorage w1 = localStorage w)
    by apply (setItem_failure env STORAGE_KEY (StoredUrls (urls w)) w H).
  assert (Ht : localStorage_ok env = true -> S (S (tick w1)) = 3 + tick w).
  { intros Hls. subst w1. rewrite setItem_tick_eq, Hls. lia. }
  destruct (record_storage env (save_failed_error (write_error env)) w1)
    as [Hok Hfail].
  split; [| split; [| split]].
  - intros key Hk. now rewrite record_storage_other, Hl.
  - rewrite record_logs. subst w1. rewrite setItem_logs.
    eexists. split; [reflexivity |]. apply call_of_entry_of.
  - intros Hlog. rewrite Hfail, Hl; [reflexivity |].
    destruct (localStorage_ok env) eqn:Hls; [| now left].
    right. rewrite (Ht eq_refl).
    destruct Hlog as [Hlog | Hlog]; [discriminate | exact Hlog].
  - intros Hls Hlog. apply Hok; [exact Hls |]. now rewrite (Ht Hls).
Qed.

Lemma saveToStorage_writes_snapshot_witness :
  window_defined demo_env = true
  /\ localStorage_ok demo_env = true
  /\ setItem_ok demo_env (tick demo_world) = true
  /\ let w' := snd (saveToStorage demo_env demo_world) in
     JsMap.get STORAGE_KEY (localStorage w') = Some (StoredUrls (urls demo_world))
     /\ urls w' = urls demo_world
     /\ synced w'
     /\ exists e : Log.LogEntry,
          logs w' = firstn 1000 (e :: logs demo_world)
          /\ call_of e = saved_debug (JsMap.size (urls demo_world)).
Proof.
  split; [reflexivity |]. split; [reflexivity |]. split; [reflexivity |].
  exact (saveToStorage_writes_snapshot demo_env demo_world eq_refl eq_refl eq_refl).
Defined.

Lemma saveToStorage_swallows_failure_witness :
  window_defined once_env = true
  /\ setItem_ok once_env (tick demo_world) = false
  /\ setItem_ok once_env (3 + tick demo_world) = true
  /\ (let w' := snd (saveToStorage once_env demo_world) in
      urls w' = urls demo_world
      /\ (forall key, key <> "app-logs" ->
            JsMap.get key (localStorage w') = JsMap.get key (localStorage demo_world))
      /\ (exists e : Log.LogEntry,
            logs w' = firstn 1000 (e :: logs demo_world)
            /\ call_of e = save_failed_error (write_error once_env))
      /\ JsMap.get "app-logs" (localStorage w') = Some (StoredLogs (logs w')))
  /\ window_defined full_env = true
  /\ writes_fail full_env
  /\ localStorage (snd (saveToStorage full_env demo_world)) = localStorage demo_world
  /\ window_defined server_env = false
  /\ saveToStorage server_env demo_world = (tt, demo_world).
Proof.
  assert (H0 : setItem_ok once_env (tick demo_world) = false)
    by (vm_compute; reflexivity).
  assert (H3 : setItem_ok once_env (3 + tick demo_world) = true)
    by (vm_compute; reflexivity).
  split; [reflexivity |]. split; [exact H0 |]. split; [exact H3 |].
  split.
  - destruct (proj1 (saveToStorage_swallows_failure once_env demo_world)
                eq_refl (or_intror H0)) as (Hu & Hk & He & _ & Hlog).
    split; [exact Hu |]. split; [exact Hk |]. split; [exact He |].
    exact (Hlog eq_refl H3).
  - split; [reflexivity |]. split; [exact full_writes_fail |].
    split.
    + destruct (proj1 (saveToStorage_swallows_failure full_env demo_world)
                  eq_refl (or_intror eq_refl)) as (_ & _ & _ & Hsame & _).
      exact (Hsame (or_intror eq_refl)).
    + split; [reflexivity |].
      exact (proj2 (saveToStorage_swallows_failure server_env demo_world) eq_refl).
Defined.

Section ShapeFacts.
Variable env : Env.

Lemma generateShortCode_storage w :
  localStorage (snd (generateShortCode env w)) = localStorage w.
Proof. now rewrite generateShortCode_snd. Qed.

Lemma generateUnique_storage fuel w c w' :
  generateUnique env fuel w = Some (c, w') -> localStorage w' = localStorage w.
Proof.
  revert w. induction fuel as [| fuel IH]; intros w; [discriminate |].
  rewrite generateUnique_step.
  destruct (JsMap.has _ (urls w)).
  - intros H. rewrite (IH _ H). apply generateShortCode_storage.
  - intros H. rewrite (some_pair_world _ _ _ H). cbn [snd].
    apply generateShortCode_storage.
Qed.

Lemma requested_snapshot originalUrl customCode w :
  same_snapshot w (requested env originalUrl customCode w).
Proof. unfold same_snapshot, requested. now rewrite record_storage_other. Qed.

Lemma createShortenedUrl_shape originalUrl shortCode customCode w :
  saved_and_logged env w
    (snd (createShortenedUrl env originalUrl shortCode customCode w)).
Proof.
  unfold createShortenedUrl. rewrite !bind_run. cbn [snd ret].
  rewrite info_record. do 2 eexists. split; [reflexivity |]. reflexivity.
Qed.

Lemma saved_and_logged_from w0 w w' :
  same_snapshot w0 w -> saved_and_logged env w w' -> saved_and_logged env w0 w'.
Proof.
  intros H0 (wm & c & -> & Hs). exists wm, c. split; [reflexivity |].
  unfold same_snapshot in H0. congruence.
Qed.

Lemma shortenUrl_shape fuel originalUrl customCode w res w' :
  shortenUrl env fuel originalUrl customCode w = Some (res, w') ->
  (urls w' = urls w /\ same_snapshot w w') \/ saved_and_logged env w w'.
Proof.
  assert (Hlog : forall cs,
            urls (snd (record_all env cs w)) = urls w
            /\ same_snapshot w (snd (record_all env cs w))).
  { intros cs. split; [apply record_all_urls |].
    unfold same_snapshot. now rewrite record_all_storage_other. }
  destruct (isValidUrl env originalUrl) eqn:Hurl.
  - destruct (Js.truthy customCode) eqn:Hcc.
    + destruct customCode as [code |]; [| discriminate].
      assert (Hne : code <> "") by (intros ->; discriminate).
      destruct (isValidShortCode code) eqn:Hcode.
      * destruct (JsMap.has code (urls w)) eqn:Hhas.
        -- rewrite shortenUrl_code_taken by assumption.
           intros H. rewrite (some_pair_world _ _ _ H). cbn [snd]. left. apply Hlog.
        -- rewrite shortenUrl_custom by assumption.
           intros H. right. rewrite (some_pair_world _ _ _ H).
           eapply saved_and_logged_from; [apply requested_snapshot |].
           apply createShortenedUrl_shape.
      * rewrite shortenUrl_invalid_code by assumption.
        intros H. rewrite (some_pair_world _ _ _ H). cbn [snd]. left. apply Hlog.
    + rewrite shortenUrl_generated by assumption.
      destruct (generateUnique env fuel _) as [[c w2] |] eqn:E; [| discriminate].
      intros H. right. rewrite (some_pair_world _ _ _ H).
      eapply saved_and_logged_from; [| apply createShortenedUrl_shape].
      unfold same_snapshot. rewrite record_storage_other by discriminate.
      rewrite (generateUnique_storage _ _ _ _ E).
      apply requested_snapshot.
  - rewrite shortenUrl_invalid_url by assumption.
    intros H. rewrite (some_pair_world _ _ _ H). cbn [snd]. left. apply Hlog.
Qed.

Lemma recordClick_shape shortCode userAgent referrer w :
  (urls (snd (recordClick env shortCode userAgent referrer w)) = urls w
   /\ same_snapshot w (snd (recordClick env shortCode userAgent referrer w)))
  \/ saved_and_logged env w (snd (recordClick env shortCode userAgent referrer w)).
Proof.
  destruct (JsMap.get shortCode (urls w)) as [u |] eqn:E.
  - right. unfold recordClick.
    rewrite info_record, bind_run, bind_run. unfold gets at 1 2. cbn [fst snd].
    rewrite record_urls, E, !bind_run. cbn [snd ret]. rewrite info_record.
    do 2 eexists. split; [reflexivity |].
    unfold modify, read. cbn [snd localStorage set_urls set_tick].
    now rewrite record_storage_other.
  - left. rewrite (recordClick_absent env _ userAgent referrer _ E). cbn [snd].
    split; [apply record_all_urls |].
    unfold same_snapshot. now rewrite record_all_storage_other.
Qed.

Lemma deleteUrl_shape shortCode w :
  (urls (snd (deleteUrl env shortCode w)) = urls w
   /\ same_snapshot w (snd (deleteUrl env shortCode w)))
  \/ saved_and_logged env w (snd (deleteUrl env shortCode w)).
Proof.
  unfold deleteUrl. rewrite info_record, !bind_run. unfold gets. cbn [fst snd ret].
  rewrite record_urls.
  destruct (JsMap.has shortCode (urls w)) eqn:E.
  - right. rewrite !bind_run, info_record.
    do 2 eexists. split; [reflexivity |].
    unfold modify. cbn [snd localStorage set_urls].
    now rewrite record_storage_other.
  - left. rewrite warn_record. split.
    + now rewrite !record_urls.
    + unfold same_snapshot. now rewrite !record_storage_other.
Qed.

Lemma step_shape fuel op w w' :
  step env fuel op w = Some w' ->
  (urls w' = urls w /\ same_snapshot w w') \/ saved_and_logged env w w'.
Proof.
  destruct op as [originalUrl customCode | shortCode ua ref | shortCode];
    cbn [step]; intros H.
  - destruct (shortenUrl env fuel originalUrl customCode w) as [[res w1] |] eqn:E;
      [| discriminate].
    injection H as <-. eapply shortenUrl_shape; eassumption.
  - injection H as <-. apply recordClick_shape.
  - injection H as <-. apply deleteUrl_shape.
Qed.

(** A call that saved, in a browser where the writes go through. *)
Lemma saved_and_logged_synced w w' :
  window_defined env = true -> writes_succeed env ->
  saved_and_logged env w w' -> synced w'.
Proof.
  intros Hwin [Hls Hok] (wm & c & -> & _). unfold synced.
  rewrite record_storage_other, record_urls, saveToStorage_urls by discriminate.
  rewrite (saveToStorage_success env wm Hwin Hls (Hok _)).
  rewrite record_storage_other by discriminate.
  cbn [localStorage set_localStorage]. apply get_set_same.
Qed.

(** A call that tried to save where nothing can be written. *)
Lemma saved_and_logged_stale w w' :
  window_defined env = false \/ writes_fail env ->
  saved_and_logged env w w' -> same_snapshot w w'.
Proof.
  intros Henv (wm & c & -> & Hs). unfold same_snapshot.
  rewrite record_storage_other, <- Hs by discriminate.
  destruct (window_defined env) eqn:Hwin.
  - destruct Henv as [Henv | Hf]; [discriminate |].
    assert (H : localStorage_ok env = false \/ setItem_ok env (tick wm) = false)
      by (destruct Hf as [H | H]; [now left | right; apply H]).
    rewrite (saveToStorage_failure env wm Hwin H).
    rewrite record_storage_other by discriminate.
    now rewrite (proj2 (setItem_failure env _ _ _ H)).
  - now rewrite (saveToStorage_no_window env wm Hwin).
Qed.
End ShapeFacts.

(** X5. In a browser where the writes go through, the stored snapshot follows
    the mapping: every shorten, click or delete that changes the mapping
    leaves the snapshot equal to the new mapping, the others leave both as
    they were; so a registry that is in step with its snapshot stays so
    through any sequence of operations. *)
Theorem snapshot_follows_registry (env : Env) :
  window_defined env = true ->
  writes_succeed env ->
  (forall fuel op w w',
     step env fuel op w = Some w' ->
     synced w' \/ (urls w' = urls w /\ same_snapshot w w'))
  /\ (forall fuel ops w w',
        run env fuel ops w = Some w' -> synced w -> synced w').
Proof.
  intros Hwin Hw.
  assert (Hstep : forall fuel op w w',
            step env fuel op w = Some w' ->
            synced w' \/ (urls w' = urls w /\ same_snapshot w w')).
  { intros fuel op w w' H.
    destruct (step_shape env fuel op w w' H) as [Hsame | Hsaved].
    - now right.
    - left. eapply saved_and_logged_synced; eassumption. }
  split; [exact Hstep |].
  intros fuel ops. induction ops as [| op ops IH]; intros w w'; cbn [run].
  - now intros [= <-].
  - destruct (step env fuel op w) as [w1 |] eqn:E; [| discriminate].
    intros H Hs. apply (IH _ _ H).
    destruct (Hstep _ _ _ _ E) as [Hs1 | [Hu Hk]]; [exact Hs1 |].
    unfold synced, same_snapshot in *. congruence.
Qed.

(** X6. Where nothing can be written (no browser, unreachable storage, or a
    [setItem] that always throws), no sequence of operations changes the
    stored snapshot of the registry, while the operations go on changing the
    mapping: a click on a known code still returns true and counts, and a
    registry that was in step with its snapshot no longer is. *)
Theorem failed_writes_leave_snapshot_behind (env : Env) :
  window_defined env = false \/ writes_fail env ->
  (forall fuel ops w w',
     run env fuel ops w = Some w' -> same_snapshot w w')
  /\ (forall shortCode userAgent referrer w u,
        JsMap.get shortCode (urls w) = Some u ->
        synced w ->
        let w' := snd (recordClick env shortCode userAgent referrer w) in
        fst (recordClick env shortCode userAgent referrer w) = true
        /\ (exists u', JsMap.get shortCode (urls w') = Some u'
                       /\ Url.clicks u' = (Url.clicks u + 1)%Z)
        /\ JsMap.get STORAGE_KEY (localStorage w') = Some (StoredUrls (urls w))
        /\ ~ synced w').
Proof.
  intros Henv.
  assert (Hstep : forall fuel op w w',
            step env fuel op w = Some w' -> same_snapshot w w').
  { intros fuel op w w' H.
    destruct (step_shape env fuel op w w' H) as [[_ Hsame] | Hsaved];
      [exact Hsame | eapply saved_and_logged_stale; eassumption]. }
  split.
  - intros fuel ops. induction ops as [| op ops IH]; intros w w'; cbn [run].
    + intros [= <-]. reflexivity.
    + destruct (step env fuel op w) as [w1 |] eqn:E; [| discriminate].
      intros H. specialize (IH _ _ H). specialize (Hstep _ _ _ _ E).
      unfold same_snapshot in *. congruence.
  - intros shortCode userAgent referrer w u Hu Hs w'. subst w'.
    destruct (recordClick_present env shortCode userAgent referrer w u Hu)
      as [Hres Hurls].
    assert (Hsame : same_snapshot w
              (snd (recordClick env shortCode userAgent referrer w)))
      by (apply (Hstep 0 (Click shortCode userAgent referrer)); reflexivity).
    assert (Hget : JsMap.get shortCode
                     (urls (snd (recordClick env shortCode userAgent referrer w)))
                   = Some (clicked env shortCode userAgent referrer w u))
      by (rewrite Hurls; apply get_set_same).
    split; [exact Hres |]. split; [| split].
    + eexists. split; [exact Hget | reflexivity].
    + unfold same_snapshot in Hsame. now rewrite Hsame.
    + unfold synced. unfold same_snapshot in Hsame. rewrite Hsame, Hs.
      intros [= Heq]. rewrite <- Heq, Hu in Hget.
      injection Hget as Hget. apply (f_equal Url.clicks) in Hget.
      cbn [clicked Url.clicks] in Hget. lia.
Qed.

Lemma snapshot_follows_registry_witness :
  window_defined demo_env = true
  /\ writes_succeed demo_env
  /\ run demo_env 1 demo_ops demo_world = Some demo_world_after
  /\ synced demo_world
  /\ synced demo_world_after.
Proof.
  split; [reflexivity |]. split; [exact demo_writes_succeed |].
  split; [exact demo_run |]. split; [exact demo_world_synced |].
  exact (proj2 (snapshot_follows_registry demo_env eq_refl demo_writes_succeed)
           1 demo_ops demo_world demo_world_after demo_run demo_world_synced).
Defined.

Lemma failed_writes_leave_snapshot_behind_witness :
  (window_defined full_env = false \/ writes_fail full_env)
  /\ JsMap.get "docs" (urls demo_world) = Some demo_record
  /\ synced demo_world
  /\ let w' := snd (recordClick full_env "docs" None None demo_world) in
     fst (recordClick full_env "docs" None None demo_world) = true
     /\ (exists u', JsMap.get "docs" (urls w') = Some u'
                    /\ Url.clicks u' = (Url.clicks demo_record + 1)%Z)
     /\ JsMap.get STORAGE_KEY (localStorage w') = Some (StoredUrls (urls demo_world))
     /\ ~ synced w'.
Proof.
  split; [right; exact full_writes_fail |].
  split; [exact demo_world_docs |]. split; [exact demo_world_synced |].
  exact (proj2 (failed_writes_leave_snapshot_behind full_env
                  (or_intror full_writes_fail))
           "docs" None None demo_world demo_record demo_world_docs demo_world_synced).
Defined.

(** X7. A logging call always goes through in memory: the new entry is at
    the head of the buffer (cut at 1000) whether or not the write that follows
    succeeds. When the writes go through, the snapshot under "app-logs" is the
    whole buffer after the call; when they throw, the storage is left as it
    was and the exception is swallowed. *)
Theorem record_persists_or_swallows (env : Env) (c : LogCall) (w : World) :
  let w' := snd (record env c w) in
  logs w' = firstn 1000 (entry_of env c w :: logs w)
  /\ urls w' = urls w
  /\ (writes_succeed env ->
      JsMap.get "app-logs" (localStorage w') = Some (StoredLogs (logs w')))
  /\ (writes_fail env -> localStorage w' = localStorage w).
Proof.
  intros w'. subst w'.
  split; [apply record_logs |]. split; [apply record_urls |].
  destruct (record_storage env c w) as [Hok Hfail]. split.
  - intros [Hls Hw]. apply Hok; [exact Hls | apply Hw].
  - intros [H | H]; apply Hfail; [now left | right; apply H].
Qed.

(** X8. [clearLogs] removes the snapshot of the log and at once logs the
    clearing, which writes a snapshot again: when the writes go through, the
    storage ends up holding the one-entry buffer, not an erased log; when
    [setItem] throws, it ends up without a log snapshot while the buffer holds
    the one entry. The snapshot of the registry is not touched. *)
Theorem clearLogs_rewrites_snapshot (env : Env) (w : World) :
  localStorage_ok env = true ->
  let w' := snd (Logger.clearLogs env w) in
  same_snapshot w w'
  /\ ((forall n, setItem_ok env n = true) ->
      JsMap.get "app-logs" (localStorage w') = Some (StoredLogs (logs w'))
      /\ List.length (logs w') = 1)
  /\ ((forall n, setItem_ok env n = false) ->
      JsMap.get "app-logs" (localStorage w') = None
      /\ List.length (logs w') = 1).
Proof.
  intros Hls w'. subst w'.
  unfold Logger.clearLogs, Logger.removeItem. rewrite Hls.
  rewrite !bind_run. unfold modify at 1 2 3 4 5 6. cbn [fst snd ret].
  rewrite !bind_run. cbn [fst snd ret]. rewrite info_record.
  unfold modify. cbn [snd].
  match goal with
  | |- context [record env ?c0 ?w1] => set (c := c0); set (w0 := w1)
  end.
  assert (Hlen : List.length (logs (snd (record env c w0))) = 1)
    by (rewrite record_logs; reflexivity).
  destruct (record_storage env c w0) as [Hok Hfail].
  split; [| split].
  - unfold same_snapshot. rewrite record_storage_other by discriminate.
    subst w0. cbn [localStorage set_localStorage set_logs].
    now rewrite get_delete_other by discriminate.
  - intros Hw. split; [| exact Hlen]. apply Hok; [exact Hls | apply Hw].
  - intros Hw. split; [| exact Hlen]. rewrite Hfail by (right; apply Hw).
    subst w0. cbn [localStorage set_localStorage set_logs].
    apply get_delete_same.
Qed.

Lemma record_persists_or_swallows_witness :
  writes_succeed demo_env
  /\ JsMap.get "app-logs" (localStorage (snd (record demo_env clear_info demo_world)))
     = Some (StoredLogs (logs (snd (record demo_env clear_info demo_world))))
  /\ writes_fail full_env
  /\ localStorage (snd (record full_env clear_info demo_world))
     = localStorage demo_world.
Proof.
  split; [exact demo_writes_succeed |].
  split;
    [exact (proj1 (proj2 (proj2
              (record_persists_or_swallows demo_env clear_info demo_world)))
              demo_writes_succeed) |].
  split; [exact full_writes_fail |].
  exact (proj2 (proj2 (proj2
           (record_persists_or_swallows full_env clear_info demo_world)))
           full_writes_fail).
Defined.

Lemma clearLogs_rewrites_snapshot_witness :
  localStorage_ok demo_env = true
  /\ let w' := snd (Logger.clearLogs demo_env demo_world) in
     same_snapshot demo_world w'
     /\ ((forall n, setItem_ok demo_env n = true) ->
         JsMap.get "app-logs" (localStorage w') = Some (StoredLogs (logs w'))
         /\ List.length (logs w') = 1)
     /\ ((forall n, setItem_ok demo_env n = false) ->
         JsMap.get "app-logs" (localStorage w') = None
         /\ List.length (logs w') = 1).
Proof.
  split; [reflexivity |].
  exact (clearLogs_rewrites_snapshot demo_env demo_world eq_refl).
Defined.

(** ** The registry: what each operation changes and what it leaves *)

Section RegistryFacts.
Variable env : Env.

Lemma generateUnique_fresh fuel w c w' :
  generateUnique env fuel w = Some (c, w') -> JsMap.has c (urls w) = false.
Proof.
  revert w. induction fuel as [| fuel IH]; intros w; [discriminate |].
  rewrite generateUnique_step.
  destruct (JsMap.has (attempt env 0 w) (urls w)) eqn:E.
  - intros H. rewrite <- (generateShortCode_urls env w). now apply IH.
  - intros [= <- _]. exact E.
Qed.

Lemma get_app_absent {V : Type} (k k' : string) (v : V) (m : JsMap.t V) :
  JsMap.has k' m = true -> JsMap.has k m = false ->
  JsMap.get k' (m ++ [(k, v)])%list = JsMap.get k' m.
Proof.
  intros Hk' Hk. rewrite <- (set_absent k v m Hk).
  apply get_set_other. intros ->. congruence.
Qed.

(** What a creation gives, for a code that is not in the mapping. *)
Lemma createShortenedUrl_fresh originalUrl shortCode customCode w :
  JsMap.has shortCode (urls w) = false ->
  let r := new_record env originalUrl shortCode customCode w in
  let w' := snd (createShortenedUrl env originalUrl shortCode customCode w) in
  fst (createShortenedUrl env originalUrl shortCode customCode w) = succeeded r
  /\ urls w' = (urls w ++ [(shortCode, r)])%list
  /\ fst (getUrl env shortCode w') = Some r.
Proof.
  intros Hfresh r w'. subst r w'.
  destruct (createShortenedUrl_spec env originalUrl shortCode customCode w)
    as [Hres Hurls].
  split; [exact Hres |]. split.
  - rewrite Hurls. now apply set_absent.
  - rewrite getUrl_fst, Hurls. apply get_set_same.
Qed.
End RegistryFacts.

(** The result of a call of [shortenUrl] that returns, and what the call
    has done to the mapping. *)
Lemma shortenUrl_result
    (env : Env) (fuel : nat) (originalUrl : string) (customCode : option string)
    (w : World) (res : Url.ShortenResult) (w' : World) :
  shortenUrl env fuel originalUrl customCode w = Some (res, w') ->
  match Url.data res with
  | Some r =>
      Url.success res = true /\ Url.error res = None
      /\ isValidUrl env originalUrl = true
      /\ JsMap.has (Url.shortCode r) (urls w) = false
      /\ urls w' = (urls w ++ [(Url.shortCode r, r)])%list
      /\ fst (getUrl env (Url.shortCode r) w') = Some r
      /\ Url.originalUrl r = originalUrl
      /\ Url.customCode r = Js.truthy customCode
      /\ Url.clicks r = 0%Z
      /\ Url.lastAccessed r = None
      /\ Url.clickHistory r = []
      /\ (forall code, customCode = Some code -> code <> "" ->
            Url.shortCode r = code /\ isValidShortCode code = true)
  | None =>
      Url.success res = false
      /\ (Url.error res = Some InvalidUrl
          \/ Url.error res = Some InvalidShortCode
          \/ Url.error res = Some ShortCodeTaken)
      /\ urls w' = urls w
      /\ same_snapshot w w'
  end.
Proof.
  assert (Hlog : forall cs,
            urls (snd (record_all env cs w)) = urls w
            /\ same_snapshot w (snd (record_all env cs w))).
  { intros cs. split; [apply record_all_urls |].
    unfold same_snapshot. now rewrite record_all_storage_other. }
  assert (Hcreate : forall c w1,
            urls w1 = urls w -> JsMap.has c (urls w) = false ->
            Some (createShortenedUrl env originalUrl c customCode w1)
            = Some (res, w') ->
            exists r, res = succeeded r
                 /\ r = new_record env originalUrl c customCode w1
                 /\ urls w' = (urls w ++ [(c, r)])%list
                 /\ fst (getUrl env c w') = Some r).
  { intros c w1 Hu Hfresh H.
    pose proof (some_pair_world _ _ _ H) as Hw'.
    assert (Hres : res = fst (createShortenedUrl env originalUrl c customCode w1))
      by (injection H as H; now rewrite H).
    rewrite <- Hu in Hfresh.
    destruct (createShortenedUrl_fresh env originalUrl c customCode w1 Hfresh)
      as (Hr & Hurls & Hget).
    rewrite <- Hw', Hu in Hurls. rewrite <- Hw' in Hget.
    eexists. split; [rewrite Hres; exact Hr |]. repeat split; assumption. }
  destruct (isValidUrl env originalUrl) eqn:Hurl.
  - destruct (Js.truthy customCode) eqn:Hcc.
    + destruct customCode as [code |]; [| discriminate].
      assert (Hne : code <> "") by (intros ->; discriminate).
      destruct (isValidShortCode code) eqn:Hcode.
      * destruct (JsMap.has code (urls w)) eqn:Hhas.
        -- rewrite shortenUrl_code_taken by assumption. intros H.
           rewrite (some_pair_world _ _ _ H). cbn [snd].
           destruct (Hlog [shorten_request originalUrl (Some code);
                           code_taken_warning code]) as [Hu Hs].
           assert (res = failure ShortCodeTaken) as -> by congruence.
           rewrite Hu. cbn.
           split; [reflexivity |]. split; [now right; right |]. now split.
        -- rewrite shortenUrl_custom by assumption. intros H.
           destruct (Hcreate code _ (requested_urls env _ _ _) Hhas H)
             as (r & -> & Hr & Hurls & Hget).
           cbn [Url.data succeeded Url.success Url.error].
           subst r. cbn [new_record Url.shortCode Url.originalUrl Url.customCode
             Url.clicks Url.lastAccessed Url.clickHistory] in *.
           repeat split; try assumption; try reflexivity; try congruence.
      * rewrite shortenUrl_invalid_code by assumption. intros H.
        rewrite (some_pair_world _ _ _ H). cbn [snd].
        destruct (Hlog [shorten_request originalUrl (Some code);
                        invalid_code_warning code]) as [Hu Hs].
        assert (res = failure InvalidShortCode) as -> by congruence.
        rewrite Hu. cbn.
        split; [reflexivity |]. split; [now right; left |]. now split.
    + rewrite shortenUrl_generated by assumption.
      destruct (generateUnique env fuel _) as [[c w2] |] eqn:E; [| discriminate].
      intros H.
      assert (Hu2 : urls (snd (record env (generated_debug c) w2)) = urls w).
      { rewrite record_urls, (generateUnique_urls _ _ _ _ _ E).
        apply requested_urls. }
      assert (Hfresh : JsMap.has c (urls w) = false).
      { rewrite <- (requested_urls env originalUrl customCode w).
        eapply generateUnique_fresh; eassumption. }
      destruct (Hcreate c _ Hu2 Hfresh H) as (r & -> & Hr & Hurls & Hget).
      cbn [Url.data succeeded Url.success Url.error].
      subst r. cbn [new_record Url.shortCode Url.originalUrl Url.customCode
        Url.clicks Url.lastAccessed Url.clickHistory] in *.
      repeat split; try assumption; try reflexivity.
      all: match goal with
           | Hc : Some _ = Some ?c0, Hn : ?c0 <> "" |- _ => idtac
           | Hc : ?cc = Some ?c0, Hn : ?c0 <> "" |- _ =>
               exfalso; rewrite Hc in Hcc; cbn [Js.truthy] in Hcc;
               destruct (String.eqb_spec c0 ""); [contradiction | discriminate]
           end.
  - rewrite shortenUrl_invalid_url by assumption. intros H.
    rewrite (some_pair_world _ _ _ H). cbn [snd].
    destruct (Hlog [shorten_request originalUrl customCode;
                    invalid_url_warning originalUrl]) as [Hu Hs].
    assert (res = failure InvalidUrl) as -> by congruence.
    rewrite Hu. cbn.
    split; [reflexivity |]. split; [now left |]. now split.
Qed.

(** X9. Whatever [shortenUrl] returns, the records already in the mapping
    are left as they were. A result with a record is a success: the URL was
    accepted, the code was not in the mapping, the record is new (no click, no
    access, empty history, flagged custom exactly when a non-empty custom code
    was given, which is then its code and matches the pattern), it is added at
    the end of the mapping and [getUrl] finds it. A result without a record is
    a failure with one of the three error messages, and neither the mapping
    nor its stored snapshot has changed. *)
Theorem shortenUrl_postcondition
    (env : Env) (fuel : nat) (originalUrl : string) (customCode : option string)
    (w : World) (res : Url.ShortenResult) (w' : World) :
  shortenUrl env fuel originalUrl customCode w = Some (res, w') ->
  (forall k, JsMap.has k (urls w) = true ->
             JsMap.get k (urls w') = JsMap.get k (urls w))
  /\ match Url.data res with
     | Some r =>
         Url.success res = true /\ Url.error res = None
         /\ isValidUrl env originalUrl = true
         /\ JsMap.has (Url.shortCode r) (urls w) = false
         /\ urls w' = (urls w ++ [(Url.shortCode r, r)])%list
         /\ fst (getUrl env (Url.shortCode r) w') = Some r
         /\ Url.originalUrl r = originalUrl
         /\ Url.customCode r = Js.truthy customCode
         /\ Url.clicks r = 0%Z
         /\ Url.lastAccessed r = None
         /\ Url.clickHistory r = []
         /\ (forall code, customCode = Some code -> code <> "" ->
               Url.shortCode r = code /\ isValidShortCode code = true)
     | None =>
         Url.success res = false
         /\ (Url.error res = Some InvalidUrl
             \/ Url.error res = Some InvalidShortCode
             \/ Url.error res = Some ShortCodeTaken)
         /\ urls w' = urls w
         /\ same_snapshot w w'
     end.
Proof.
  intros H.
  pose proof (shortenUrl_result env fuel originalUrl customCode w res w' H) as Hres.
  split; [| exact Hres].
  intros k Hk. destruct (Url.data res) as [r |].
  - destruct Hres as (_ & _ & _ & Hfresh & Hurls & _).
    rewrite Hurls. now apply get_app_absent.
  - destruct Hres as (_ & _ & Hurls & _). now rewrite Hurls.
Qed.

Lemma shortenUrl_postcondition_witness :
  shortenUrl demo_env 1 "https://example.com" (Some "docs") empty_world
  = Some (succeeded demo_record, demo_world)
  /\ (forall k, JsMap.has k (urls empty_world) = true ->
                JsMap.get k (urls demo_world) = JsMap.get k (urls empty_world))
  /\ Url.success (succeeded demo_record) = true
  /\ Url.error (succeeded demo_record) = None
  /\ isValidUrl demo_env "https://example.com" = true
  /\ JsMap.has (Url.shortCode demo_record) (urls empty_world) = false
  /\ urls demo_world =
     (urls empty_world ++ [(Url.shortCode demo_record, demo_record)])%list
  /\ fst (getUrl demo_env (Url.shortCode demo_record) demo_world) = Some demo_record
  /\ Url.originalUrl demo_record = "https://example.com"
  /\ Url.customCode demo_record = Js.truthy (Some "docs")
  /\ Url.clicks demo_record = 0%Z
  /\ Url.lastAccessed demo_record = None
  /\ Url.clickHistory demo_record = []
  /\ (forall code, Some "docs" = Some code -> code <> "" ->
        Url.shortCode demo_record = code /\ isValidShortCode code = true).
Proof.
  assert (H : shortenUrl demo_env 1 "https://example.com" (Some "docs") empty_world
              = Some (succeeded demo_record, demo_world))
    by (vm_compute; reflexivity).
  split; [exact H |].
  exact (shortenUrl_postcondition demo_env 1 "https://example.com" (Some "docs")
           empty_world (succeeded demo_record) demo_world H).
Defined.

Section MoreMapFacts.
Context {V : Type}.
Implicit Types (m : JsMap.t V) (k : string) (v : V).

Lemma size_delete_present k m :
  JsMap.wf m -> JsMap.has k m = true ->
  S (JsMap.size (JsMap.delete k m)) = JsMap.size m.
Proof.
  unfold JsMap.wf, JsMap.size, JsMap.delete.
  induction m as [| [k' v'] m IH]; cbn [map fst JsMap.has existsb filter];
    [discriminate |].
  intros Hwf Hhas. apply NoDup_cons_iff in Hwf. destruct Hwf as [Hk' Hwf].
  fold (JsMap.has k m) in Hhas.
  destruct (String.eqb_spec k' k) as [-> | Hne]; cbn [negb List.length].
  - f_equal. fold (JsMap.delete k m). rewrite delete_absent; [reflexivity |].
    destruct (JsMap.has k m) eqn:E; [| reflexivity].
    apply has_In in E. contradiction.
  - f_equal. now apply IH.
Qed.

Lemma has_delete_same k m : JsMap.has k (JsMap.delete k m) = false.
Proof. apply has_false_get, get_delete_same. Qed.

Lemma In_get k v m : JsMap.wf m -> In (k, v) m -> JsMap.get k m = Some v.
Proof.
  unfold JsMap.wf. induction m as [| [k' v'] m IH]; cbn [map fst JsMap.get];
    [intros _ [] |].
  intros Hwf Hin. apply NoDup_cons_iff in Hwf. destruct Hwf as [Hk' Hwf].
  destruct Hin as [[= -> ->] | Hin].
  - now rewrite String.eqb_refl.
  - destruct (String.eqb_spec k' k) as [-> | _]; [| now apply IH].
    exfalso. apply Hk'. apply in_map_iff. now exists (k, v).
Qed.

Lemma get_In k v m : JsMap.get k m = Some v -> In (k, v) m.
Proof.
  induction m as [| [k' v'] m IH]; cbn [JsMap.get]; [discriminate |].
  destruct (String.eqb_spec k' k) as [-> | _].
  - intros [= ->]. now left.
  - intros H. right. now apply IH.
Qed.

(** [set] on a present key replaces one entry and keeps the others. *)
Lemma Forall_set (P : string * V -> Prop) k v m :
  Forall P m -> P (k, v) -> Forall P (JsMap.set k v m).
Proof.
  intros Hm Hv. induction Hm as [| [k' v'] m Hp Hm IH]; cbn [JsMap.set].
  - now constructor.
  - destruct (String.eqb k' k); constructor; assumption.
Qed.

Lemma Forall_delete (P : string * V -> Prop) k m :
  Forall P m -> Forall P (JsMap.delete k m).
Proof.
  unfold JsMap.delete. rewrite !Forall_forall.
  intros H p Hp. apply filter_In in Hp. now apply H.
Qed.
End MoreMapFacts.

Lemma lastn_snoc {A : Type} (n : nat) (l : list A) (x : A) :
  lastn (S n) (l ++ [x]) = (lastn n l ++ [x])%list.
Proof.
  unfold lastn. rewrite length_app, skipn_app. cbn [List.length].
  replace (List.length l + 1 - S n) with (List.length l - n) by lia.
  replace (List.length l - n - List.length l) with 0 by lia.
  reflexivity.
Qed.

(** X10. The same custom code twice: with URLs the parser accepts and a
    custom code that matches the pattern and is not in the mapping, the first
    [shortenUrl] succeeds with a record under that very code, flagged custom,
    and a second call with the same code fails with the shortcode-exists error
    and leaves the mapping of the first. *)
Theorem shorten_same_code_twice
    (env : Env) (fuel fuel' : nat) (url url' code : string) (w : World) :
  isValidUrl env url = true ->
  isValidUrl env url' = true ->
  isValidShortCode code = true ->
  JsMap.has code (urls w) = false ->
  exists (r : Url.ShortenedUrl) (w1 w2 : World),
    shortenUrl env fuel url (Some code) w = Some (succeeded r, w1)
    /\ Url.shortCode r = code
    /\ Url.customCode r = true
    /\ Url.originalUrl r = url
    /\ Url.clicks r = 0%Z
    /\ urls w1 = (urls w ++ [(code, r)])%list
    /\ shortenUrl env fuel' url' (Some code) w1 = Some (failure ShortCodeTaken, w2)
    /\ urls w2 = urls w1.
Proof.
  intros Hurl Hurl' Hcode Hfresh.
  assert (Hne : Js.truthy (Some code) = true).
  { cbn [Js.truthy]. destruct (String.eqb_spec code "") as [-> | _];
      [discriminate Hcode | reflexivity]. }
  rewrite <- (requested_urls env url (Some code) w) in Hfresh.
  destruct (createShortenedUrl_fresh env url code (Some code)
              (requested env url (Some code) w) Hfresh) as (Hres & Hurls & Hget).
  rewrite requested_urls in Hfresh, Hurls.
  set (r := new_record env url code (Some code) (requested env url (Some code) w)) in *.
  set (w1 := snd (createShortenedUrl env url code (Some code)
                    (requested env url (Some code) w))) in *.
  assert (Hhas1 : JsMap.has code (urls w1) = true).
  { apply has_get. rewrite Hurls, <- (set_absent code r (urls w) Hfresh).
    rewrite get_set_same. discriminate. }
  exists r, w1. eexists.
  split; [| split; [reflexivity | split; [exact Hne | split; [reflexivity |
    split; [reflexivity | split; [exact Hurls | split]]]]]].
  - rewrite shortenUrl_custom by assumption. fold w1. rewrite <- Hres.
    now destruct (createShortenedUrl env url code (Some code) _).
  - now apply shortenUrl_code_taken.
  - apply record_all_urls.
Qed.

(** X11. A click on a code of the mapping returns true and changes that one
    record only: the keys of the mapping and their order are the same, every
    other code keeps its record, and the clicked record keeps its identity
    (id, URL, code, custom flag, creation time) while its counter goes up by
    one, its access time is set and the click event, carrying the arguments of
    the call, ends its history. *)
Theorem recordClick_changes_one_record
    (env : Env) (shortCode : string) (userAgent referrer : option string)
    (w : World) (u : Url.ShortenedUrl) :
  JsMap.get shortCode (urls w) = Some u ->
  let w' := snd (recordClick env shortCode userAgent referrer w) in
  fst (recordClick env shortCode userAgent referrer w) = true
  /\ map fst (urls w') = map fst (urls w)
  /\ (forall other, other <> shortCode ->
        JsMap.get other (urls w') = JsMap.get other (urls w))
  /\ exists u' : Url.ShortenedUrl,
       JsMap.get shortCode (urls w') = Some u'
       /\ (Url.id u', Url.originalUrl u', Url.shortCode u', Url.customCode u',
           Url.createdAt u')
          = (Url.id u, Url.originalUrl u, Url.shortCode u, Url.customCode u,
             Url.createdAt u)
       /\ Url.clicks u' = (Url.clicks u + 1)%Z
       /\ Url.lastAccessed u' <> None
       /\ exists e : Url.ClickEvent,
            Url.clickHistory u' = (lastn 99 (Url.clickHistory u) ++ [e])%list
            /\ Url.userAgent e = userAgent
            /\ Url.referrer e = referrer.
Proof.
  intros Hu w'. subst w'.
  destruct (recordClick_present env shortCode userAgent referrer w u Hu)
    as [Hres Hurls].
  rewrite Hurls. split; [exact Hres |]. split; [| split].
  - apply keys_set_present. apply has_get. rewrite Hu. discriminate.
  - intros other Hne. now apply get_set_other.
  - exists (clicked env shortCode userAgent referrer w u).
    split; [apply get_set_same |]. split; [reflexivity |].
    split; [reflexivity |]. split; [discriminate |].
    exists (click_event env shortCode userAgent referrer w).
    split; [| split; reflexivity].
    cbn [clicked Url.clickHistory]. apply (lastn_snoc 99).
Qed.

Lemma shorten_same_code_twice_witness :
  isValidUrl demo_env "https://example.com" = true
  /\ isValidShortCode "blog" = true
  /\ JsMap.has "blog" (urls demo_world) = false
  /\ exists (r : Url.ShortenedUrl) (w1 w2 : World),
       shortenUrl demo_env 1 "https://example.com" (Some "blog") demo_world
       = Some (succeeded r, w1)
       /\ Url.shortCode r = "blog"
       /\ Url.customCode r = true
       /\ Url.originalUrl r = "https://example.com"
       /\ Url.clicks r = 0%Z
       /\ urls w1 = (urls demo_world ++ [("blog", r)])%list
       /\ shortenUrl demo_env 1 "https://example.com" (Some "blog") w1
          = Some (failure ShortCodeTaken, w2)
       /\ urls w2 = urls w1.
Proof.
  assert (H : JsMap.has "blog" (urls demo_world) = false)
    by (vm_compute; reflexivity).
  split; [reflexivity |]. split; [reflexivity |]. split; [exact H |].
  exact (shorten_same_code_twice demo_env 1 1 "https://example.com"
           "https://example.com" "blog" demo_world eq_refl eq_refl eq_refl H).
Defined.

Lemma recordClick_changes_one_record_witness :
  JsMap.get "docs" (urls demo_world) = Some demo_record
  /\ let w' := snd (recordClick demo_env "docs" (Some "Mozilla/5.0") None demo_world) in
     fst (recordClick demo_env "docs" (Some "Mozilla/5.0") None demo_world) = true
     /\ map fst (urls w') = map fst (urls demo_world)
     /\ (forall other, other <> "docs" ->
           JsMap.get other (urls w') = JsMap.get other (urls demo_world))
     /\ exists u' : Url.ShortenedUrl,
          JsMap.get "docs" (urls w') = Some u'
          /\ (Url.id u', Url.originalUrl u', Url.shortCode u', Url.customCode u',
              Url.createdAt u')
             = (Url.id demo_record, Url.originalUrl demo_record,
                Url.shortCode demo_record, Url.customCode demo_record,
                Url.createdAt demo_record)
          /\ Url.clicks u' = (Url.clicks demo_record + 1)%Z
          /\ Url.lastAccessed u' <> None
          /\ exists e : Url.ClickEvent,
               Url.clickHistory u' =
               (lastn 99 (Url.clickHistory demo_record) ++ [e])%list
               /\ Url.userAgent e = Some "Mozilla/5.0"
               /\ Url.referrer e = None.
Proof.
  split; [exact demo_world_docs |].
  exact (recordClick_changes_one_record demo_env "docs" (Some "Mozilla/5.0") None
           demo_world demo_record demo_world_docs).
Defined.

(** X12. Deleting a code of the mapping returns true and removes exactly
    that entry: one record fewer, the others in their order; deleting it again
    returns false and changes nothing. *)
Theorem deleteUrl_removes_once (env : Env) (shortCode : string) (w : World) :
  JsMap.wf (urls w) ->
  JsMap.has shortCode (urls w) = true ->
  let w1 := snd (deleteUrl env shortCode w) in
  let w2 := snd (deleteUrl env shortCode w1) in
  fst (deleteUrl env shortCode w) = true
  /\ urls w1 = filter (fun p => negb (String.eqb (fst p) shortCode)) (urls w)
  /\ S (JsMap.size (urls w1)) = JsMap.size (urls w)
  /\ JsMap.has shortCode (urls w1) = false
  /\ JsMap.wf (urls w1)
  /\ fst (deleteUrl env shortCode w1) = false
  /\ urls w2 = urls w1.
Proof.
  intros Hwf Hhas w1 w2. subst w1 w2.
  rewrite !deleteUrl_fst, !deleteUrl_urls.
  split; [exact Hhas |]. split; [reflexivity |].
  split; [now apply size_delete_present |].
  split; [apply has_delete_same |]. split; [now apply wf_delete |].
  split; [apply has_delete_same |].
  apply delete_absent, has_delete_same.
Qed.

(** X13. A deleted code is free again: with a URL the parser accepts, a
    [shortenUrl] with the code of a record just deleted succeeds, and the
    record under that code starts anew, without the clicks and the history of
    the deleted one. *)
Theorem deleted_code_can_be_reused
    (env : Env) (fuel : nat) (url code : string) (w : World) :
  isValidUrl env url = true ->
  isValidShortCode code = true ->
  let w1 := snd (deleteUrl env code w) in
  exists (r : Url.ShortenedUrl) (w2 : World),
    shortenUrl env fuel url (Some code) w1 = Some (succeeded r, w2)
    /\ fst (getUrl env code w2) = Some r
    /\ Url.shortCode r = code
    /\ Url.originalUrl r = url
    /\ Url.clicks r = 0%Z
    /\ Url.lastAccessed r = None
    /\ Url.clickHistory r = [].
Proof.
  intros Hurl Hcode w1.
  assert (Hfresh : JsMap.has code (urls w1) = false)
    by (subst w1; rewrite deleteUrl_urls; apply has_delete_same).
  rewrite <- (requested_urls env url (Some code) w1) in Hfresh.
  destruct (createShortenedUrl_fresh env url code (Some code)
              (requested env url (Some code) w1) Hfresh) as (Hres & _ & Hget).
  rewrite requested_urls in Hfresh.
  do 2 eexists. split; [| split; [exact Hget | repeat split]].
  rewrite shortenUrl_custom by assumption. rewrite <- Hres.
  now destruct (createShortenedUrl env url code (Some code) _).
Qed.

(** X14. The reads are reads: [getUrl], [getAllUrls] and [getStats] leave the
    mapping and its stored snapshot as they were, and [getUrl] returns the
    record the mapping holds under the code, if any. *)
Theorem reads_do_not_mutate (env : Env) (shortCode : string) (w : World) :
  (fst (getUrl env shortCode w) = JsMap.get shortCode (urls w)
   /\ urls (snd (getUrl env shortCode w)) = urls w
   /\ same_snapshot w (snd (getUrl env shortCode w)))
  /\ (urls (snd (getAllUrls env w)) = urls w
      /\ same_snapshot w (snd (getAllUrls env w)))
  /\ (urls (snd (getStats env w)) = urls w
      /\ same_snapshot w (snd (getStats env w))).
Proof.
  assert (Hall : forall w0, same_snapshot w0 (snd (getAllUrls env w0))).
  { intros w0. unfold same_snapshot, getAllUrls.
    rewrite !bind_run, snd_ret, snd_gets, debug_record, record_storage_other
      by discriminate.
    now rewrite snd_gets. }
  split; [| split].
  - split; [apply getUrl_fst |]. split; [apply getUrl_urls |].
    unfold same_snapshot, getUrl. rewrite debug_record, !bind_run.
    rewrite fst_gets, snd_gets, record_urls.
    destruct (JsMap.get shortCode (urls w)).
    + rewrite snd_ret. now rewrite record_storage_other.
    + rewrite bind_run, warn_record, snd_ret.
      now rewrite !record_storage_other.
  - split; [apply getAllUrls_urls | apply Hall].
  - split; [apply getStats_urls |].
    unfold same_snapshot, getStats. rewrite debug_record, !bind_run, snd_ret.
    rewrite info_record, record_storage_other by discriminate.
    rewrite (Hall _). now rewrite record_storage_other.
Qed.

(** ** Invariants of the registry *)

Section InvariantFacts.
Variable env : Env.

Lemma record_ok_new originalUrl shortCode customCode w :
  record_ok shortCode (new_record env originalUrl shortCode customCode w).
Proof.
  unfold record_ok. cbn. repeat split; try reflexivity; try lia.
Qed.

Lemma record_ok_clicked shortCode userAgent referrer w u :
  record_ok shortCode u ->
  record_ok shortCode (clicked env shortCode userAgent referrer w u).
Proof.
  intros (Hk & Hpos & Hlen & Hacc). unfold record_ok.
  cbn [clicked Url.shortCode Url.clicks Url.clickHistory Url.lastAccessed].
  split; [exact Hk |]. split; [lia |]. split.
  - rewrite length_lastn, length_app. cbn [List.length]. lia.
  - split; [discriminate | lia].
Qed.

Lemma step_registry_ok fuel op w w' :
  step env fuel op w = Some w' -> registry_ok w -> registry_ok w'.
Proof.
  intros H [Hwf Hok]. split; [eapply step_wf; eassumption |].
  destruct op as [originalUrl customCode | shortCode ua ref | shortCode];
    cbn [step] in H.
  - destruct (shortenUrl env fuel originalUrl customCode w) as [[res w1] |] eqn:E;
      [| discriminate].
    injection H as <-.
    destruct (isValidUrl env originalUrl) eqn:Hurl.
    + destruct (Js.truthy customCode) eqn:Hcc.
      * destruct customCode as [code |]; [| discriminate].
        assert (Hne : code <> "") by (intros ->; discriminate).
        destruct (isValidShortCode code) eqn:Hcode.
        -- destruct (JsMap.has code (urls w)) eqn:Hhas.
           ++ rewrite shortenUrl_code_taken in E by assumption.
              rewrite (some_pair_world _ _ _ E). cbn [snd].
              now rewrite record_all_urls.
           ++ rewrite shortenUrl_custom in E by assumption.
              rewrite (some_pair_world _ _ _ E).
              rewrite (proj2 (createShortenedUrl_spec env _ _ _ _)), requested_urls.
              apply Forall_set; [exact Hok | apply record_ok_new].
        -- rewrite shortenUrl_invalid_code in E by assumption.
           rewrite (some_pair_world _ _ _ E). cbn [snd].
           now rewrite record_all_urls.
      * rewrite shortenUrl_generated in E by assumption.
        destruct (generateUnique env fuel _) as [[c w2] |] eqn:Eg; [| discriminate].
        rewrite (some_pair_world _ _ _ E).
        rewrite (proj2 (createShortenedUrl_spec env _ _ _ _)), record_urls.
        rewrite (generateUnique_urls _ _ _ _ _ Eg), requested_urls.
        apply Forall_set; [exact Hok | apply record_ok_new].
    + rewrite shortenUrl_invalid_url in E by assumption.
      rewrite (some_pair_world _ _ _ E). cbn [snd].
      now rewrite record_all_urls.
  - injection H as <-.
    destruct (JsMap.get shortCode (urls w)) as [u |] eqn:E.
    + rewrite (proj2 (recordClick_present env _ ua ref _ _ E)).
      apply Forall_set; [exact Hok |]. apply record_ok_clicked.
      rewrite Forall_forall in Hok. exact (Hok _ (get_In _ _ _ E)).
    + rewrite (recordClick_absent env _ ua ref _ E). cbn [snd].
      now rewrite record_all_urls.
  - injection H as <-. rewrite deleteUrl_urls. now apply Forall_delete.
Qed.
End InvariantFacts.

(** X15. The invariant of the registry: through any sequence of shorten,
    click and delete operations the codes stay pairwise distinct, every record
    stays under the code it carries, no counter is negative, a history holds
    [min(clicks, 100)] events, and a record has an access time exactly when it
    has been clicked. It holds in the empty registry. *)
Theorem registry_invariant
    (env : Env) (fuel : nat) (ops : list Op) (w w' : World) :
  run env fuel ops w = Some w' ->
  registry_ok w ->
  registry_ok w'
  /\ forall k r, JsMap.get k (urls w') = Some r ->
       Url.shortCode r = k
       /\ (0 <= Url.clicks r)%Z
       /\ Z.of_nat (List.length (Url.clickHistory r)) = Z.min (Url.clicks r) 100
       /\ (Url.lastAccessed r = None <-> Url.clicks r = 0%Z).
Proof.
  intros Hrun Hok.
  assert (Hok' : registry_ok w').
  { revert w Hrun Hok. induction ops as [| op ops IH]; intros w; cbn [run].
    - now intros [= <-].
    - destruct (step env fuel op w) as [w1 |] eqn:E; [| discriminate].
      intros H Hok. apply (IH _ H). eapply step_registry_ok; eassumption. }
  split; [exact Hok' |].
  intros k r Hget. destruct Hok' as [_ Hall].
  rewrite Forall_forall in Hall. exact (Hall _ (get_In _ _ _ Hget)).
Qed.

Lemma deleteUrl_removes_once_witness :
  JsMap.wf (urls demo_world)
  /\ JsMap.has "docs" (urls demo_world) = true
  /\ let w1 := snd (deleteUrl demo_env "docs" demo_world) in
     let w2 := snd (deleteUrl demo_env "docs" w1) in
     fst (deleteUrl demo_env "docs" demo_world) = true
     /\ urls w1 = filter (fun p => negb (String.eqb (fst p) "docs")) (urls demo_world)
     /\ S (JsMap.size (urls w1)) = JsMap.size (urls demo_world)
     /\ JsMap.has "docs" (urls w1) = false
     /\ JsMap.wf (urls w1)
     /\ fst (deleteUrl demo_env "docs" w1) = false
     /\ urls w2 = urls w1.
Proof.
  assert (H : JsMap.has "docs" (urls demo_world) = true)
    by (vm_compute; reflexivity).
  split; [exact demo_world_wf |]. split; [exact H |].
  exact (deleteUrl_removes_once demo_env "docs" demo_world demo_world_wf H).
Defined.

Lemma deleted_code_can_be_reused_witness :
  isValidUrl demo_env "https://example.com" = true
  /\ isValidShortCode "docs" = true
  /\ let w1 := snd (deleteUrl demo_env "docs" demo_world) in
     exists (r : Url.ShortenedUrl) (w2 : World),
       shortenUrl demo_env 1 "https://example.com" (Some "docs") w1
       = Some (succeeded r, w2)
       /\ fst (getUrl demo_env "docs" w2) = Some r
       /\ Url.shortCode r = "docs"
       /\ Url.originalUrl r = "https://example.com"
       /\ Url.clicks r = 0%Z
       /\ Url.lastAccessed r = None
       /\ Url.clickHistory r = [].
Proof.
  split; [reflexivity |]. split; [reflexivity |].
  exact (deleted_code_can_be_reused demo_env 1 "https://example.com" "docs"
           demo_world eq_refl eq_refl).
Defined.

Lemma registry_invariant_witness :
  run demo_env 1 demo_ops demo_world = Some demo_world_after
  /\ registry_ok demo_world
  /\ registry_ok demo_world_after
  /\ forall k r, JsMap.get k (urls demo_world_after) = Some r ->
       Url.shortCode r = k
       /\ (0 <= Url.clicks r)%Z
       /\ Z.of_nat (List.length (Url.clickHistory r)) = Z.min (Url.clicks r) 100
       /\ (Url.lastAccessed r = None <-> Url.clicks r = 0%Z).
Proof.
  split; [exact demo_run |]. split; [exact demo_world_registry_ok |].
  exact (registry_invariant demo_env 1 demo_ops demo_world demo_world_after
           demo_run demo_world_registry_ok).
Defined.

Lemma regex_alnum_6_valid (s : string) :
  regex_alnum 6 6 s = true -> isValidShortCode s = true.
Proof.
  unfold isValidShortCode, regex_alnum. intros H.
  apply andb_prop in H. destruct H as [H Hhi].
  apply andb_prop in H. destruct H as [Hal Hlo].
  apply Nat.leb_le in Hlo, Hhi. rewrite Hal. cbn [andb].
  apply andb_true_intro. split; apply Nat.leb_le; lia.
Qed.

Section CodeFormat.
Variable env : Env.
Hypothesis random_index_range : forall n, random_index env n < 62.

Lemma generateUnique_format fuel w c w' :
  generateUnique env fuel w = Some (c, w') -> regex_alnum 6 6 c = true.
Proof.
  revert w. induction fuel as [| fuel IH]; intros w; [discriminate |].
  rewrite generateUnique_step.
  destruct (JsMap.has (attempt env 0 w) (urls w)).
  - apply IH.
  - intros H. assert (Hc : c = attempt env 0 w) by congruence.
    rewrite Hc. now apply attempt_format.
Qed.

Lemma step_codes_valid fuel op w w' :
  step env fuel op w = Some w' -> codes_valid w -> codes_valid w'.
Proof.
  unfold codes_valid. intros H Hok.
  destruct op as [originalUrl customCode | shortCode ua ref | shortCode];
    cbn [step] in H.
  - destruct (shortenUrl env fuel originalUrl customCode w) as [[res w1] |] eqn:E;
      [| discriminate].
    injection H as <-.
    destruct (isValidUrl env originalUrl) eqn:Hurl.
    + destruct (Js.truthy customCode) eqn:Hcc.
      * destruct customCode as [code |]; [| discriminate].
        assert (Hne : code <> "") by (intros ->; discriminate).
        destruct (isValidShortCode code) eqn:Hcode.
        -- destruct (JsMap.has code (urls w)) eqn:Hhas.
           ++ rewrite shortenUrl_code_taken in E by assumption.
              rewrite (some_pair_world _ _ _ E). cbn [snd].
              now rewrite record_all_urls.
           ++ rewrite shortenUrl_custom in E by assumption.
              rewrite (some_pair_world _ _ _ E).
              rewrite (proj2 (createShortenedUrl_spec env _ _ _ _)), requested_urls.
              apply Forall_set; [exact Hok | exact Hcode].
        -- rewrite shortenUrl_invalid_code in E by assumption.
           rewrite (some_pair_world _ _ _ E). cbn [snd].
           now rewrite record_all_urls.
      * rewrite shortenUrl_generated in E by assumption.
        destruct (generateUnique env fuel _) as [[c w2] |] eqn:Eg; [| discriminate].
        rewrite (some_pair_world _ _ _ E).
        rewrite (proj2 (createShortenedUrl_spec env _ _ _ _)), record_urls.
        rewrite (generateUnique_urls _ _ _ _ _ Eg), requested_urls.
        apply Forall_set; [exact Hok |]. cbn [fst].
        eapply regex_alnum_6_valid, generateUnique_format; eassumption.
    + rewrite shortenUrl_invalid_url in E by assumption.
      rewrite (some_pair_world _ _ _ E). cbn [snd].
      now rewrite record_all_urls.
  - injection H as <-.
    destruct (JsMap.get shortCode (urls w)) as [u |] eqn:E.
    + rewrite (proj2 (recordClick_present env _ ua ref _ _ E)).
      apply Forall_set; [exact Hok |]. cbn [fst].
      rewrite Forall_forall in Hok. exact (Hok _ (get_In _ _ _ E)).
    + rewrite (recordClick_absent env _ ua ref _ E). cbn [snd].
      now rewrite record_all_urls.
  - injection H as <-. rewrite deleteUrl_urls. now apply Forall_delete.
Qed.
End CodeFormat.

(** X16. With a random source that draws indices of the alphabet, every code
    of the mapping matches [/^[a-zA-Z0-9]{3,20}$/] through any sequence of
    shorten, click and delete operations: a custom code is checked against
    the pattern and a generated one has six alphanumeric characters. *)
Theorem codes_stay_valid
    (env : Env) (fuel : nat) (ops : list Op) (w w' : World) :
  (forall n, random_index env n < 62) ->
  run env fuel ops w = Some w' ->
  codes_valid w ->
  codes_valid w'
  /\ forall k r, JsMap.get k (urls w') = Some r -> regex_alnum 3 20 k = true.
Proof.
  intros Hrange Hrun Hok.
  assert (Hok' : codes_valid w').
  { revert w Hrun Hok. induction ops as [| op ops IH]; intros w; cbn [run].
    - now intros [= <-].
    - destruct (step env fuel op w) as [w1 |] eqn:E; [| discriminate].
      intros H Hok. apply (IH _ H). eapply step_codes_valid; eassumption. }
  split; [exact Hok' |].
  intros k r Hget. unfold codes_valid in Hok'.
  rewrite Forall_forall in Hok'. exact (Hok' _ (get_In _ _ _ Hget)).
Qed.

Lemma codes_stay_valid_witness :
  (forall n, random_index demo_env n < 62)
  /\ run demo_env 1 demo_ops demo_world = Some demo_world_after
  /\ codes_valid demo_world
  /\ codes_valid demo_world_after
  /\ forall k r, JsMap.get k (urls demo_world_after) = Some r ->
       regex_alnum 3 20 k = true.
Proof.
  split; [exact demo_random_index_range |]. split; [exact demo_run |].
  split; [exact demo_world_codes_valid |].
  exact (codes_stay_valid demo_env 1 demo_ops demo_world demo_world_after
           demo_random_index_range demo_run demo_world_codes_valid).
Defined.

(** ** Startup: what a page load restores *)

Section ObjectOrder.
Context {V : Type}.
Implicit Types (m : JsMap.t V) (k : string).

Lemma filter_split_perm (f : string * V -> bool) m :
  Permutation (filter f m ++ filter (fun p => negb (f p)) m) m.
Proof.
  induction m as [| p m IH]; cbn [filter]; [constructor |].
  destruct (f p); cbn [negb app].
  - now apply perm_skip.
  - rewrite <- Permutation_middle. now apply perm_skip.
Qed.

Lemma object_entries_perm m : Permutation (object_entries m) m.
Proof.
  unfold object_entries.
  rewrite <- (filter_split_perm (fun p => is_array_index (fst p)) m) at 3.
  apply Permutation_app_tail. symmetry. apply sort_perm.
Qed.

Lemma get_perm k m m' :
  JsMap.wf m -> Permutation m m' -> JsMap.get k m' = JsMap.get k m.
Proof.
  intros Hwf Hp.
  assert (Hwf' : JsMap.wf m').
  { unfold JsMap.wf in *. eapply Permutation_NoDup; [| exact Hwf].
    now apply Permutation_map. }
  destruct (JsMap.get k m) as [v |] eqn:E.
  - apply In_get; [exact Hwf' |].
    eapply Permutation_in; [exact Hp |]. now apply get_In.
  - destruct (JsMap.get k m') as [v' |] eqn:E'; [| reflexivity].
    apply get_In in E'. apply (Permutation_in _ (Permutation_sym Hp)) in E'.
    apply (In_get _ _ _ Hwf) in E'. congruence.
Qed.

Lemma object_entries_no_index m :
  Forall (fun p => is_array_index (fst p) = false) m -> object_entries m = m.
Proof.
  intros H. unfold object_entries.
  assert (H1 : filter (fun p => is_array_index (fst p)) m = []).
  { induction H as [| p m Hp _ IH]; cbn [filter]; [reflexivity |].
    now rewrite Hp. }
  assert (H2 : filter (fun p => negb (is_array_index (fst p))) m = m).
  { clear H1. induction H as [| p m Hp _ IH]; cbn [filter]; [reflexivity |].
    rewrite Hp. cbn [negb]. now rewrite IH. }
  rewrite H1, H2. reflexivity.
Qed.

(** The array indices first, ascending; then the other keys as they were. *)
Lemma object_entries_order m :
  exists indices others : JsMap.t V,
    object_entries m = (indices ++ others)%list
    /\ Forall (fun p => is_array_index (fst p) = true) indices
    /\ StronglySorted (fun a b => (index_of (fst a) <= index_of (fst b))%Z) indices
    /\ others = filter (fun p => negb (is_array_index (fst p))) m.
Proof.
  unfold object_entries. do 2 eexists. split; [reflexivity |].
  split; [| split; [| reflexivity]].
  - rewrite Forall_forall. intros p Hp.
    apply (Permutation_in _ (Permutation_sym (sort_perm _ _))) in Hp.
    now apply filter_In in Hp.
  - eapply (StronglySorted_ind (fun l => StronglySorted _ l));
      [constructor | |
       apply (sort_sorted _ (fun p : string * V => (- index_of (fst p))%Z));
       intros a b; lia].
    intros a l _ IH Ha. constructor; [exact IH |].
    eapply Forall_impl; [| exact Ha]. unfold descending. intros; lia.
Qed.
End ObjectOrder.

Section StartupFacts.
Variable env : Env.
Variable decode_urls : Stored -> Decoded (JsMap.t Url.ShortenedUrl).
Variable decode_logs : Stored -> Decoded (list Log.LogEntry).

Lemma getItem_reachable key w :
  localStorage_ok env = true ->
  getItem env key w = (Js.Normal (JsMap.get key (localStorage w)), w).
Proof. intros H. unfold getItem. now rewrite H. Qed.

Lemma getItem_unreachable key w :
  localStorage_ok env = false ->
  getItem env key w = (Js.Throw "localStorage is not defined", w).
Proof. intros H. unfold getItem. now rewrite H. Qed.

Lemma getItem_world key w : snd (getItem env key w) = w.
Proof. unfold getItem. now destruct (localStorage_ok env). Qed.

(** [loadLogs] changes the buffer only. *)
Lemma loadLogs_frame w :
  urls (snd (Startup.loadLogs env decode_logs w)) = urls w
  /\ localStorage (snd (Startup.loadLogs env decode_logs w)) = localStorage w
  /\ tick (snd (Startup.loadLogs env decode_logs w)) = tick w.
Proof.
  unfold Startup.loadLogs. rewrite bind_run, getItem_world.
  destruct (fst (getItem env "app-logs" w)) as [[s |] | e];
    try (repeat split; reflexivity).
  destruct (decode_logs s); repeat split; reflexivity.
Qed.

Lemma newLogger_frame w :
  urls (snd (Startup.newLogger env decode_logs w)) = urls w
  /\ same_snapshot w (snd (Startup.newLogger env decode_logs w)).
Proof.
  unfold Startup.newLogger, same_snapshot. rewrite bind_run.
  unfold modify at 1 2. cbn [fst snd].
  destruct (window_defined env); [| split; reflexivity].
  unfold Startup.init. rewrite bind_run, info_record.
  destruct (loadLogs_frame (set_logs [] w)) as (Hu & Hl & _).
  rewrite record_urls, record_storage_other, Hu, Hl by discriminate.
  split; reflexivity.
Qed.

Lemma record_all_two c1 c2 w :
  snd (record_all env [c1; c2] w) = snd (record env c2 (snd (record env c1 w))).
Proof. cbn [record_all]. now rewrite !bind_run. Qed.

Lemma loadFromStorage_loaded w m :
  window_defined env = true -> localStorage_ok env = true ->
  decodes_urls decode_urls ->
  JsMap.get STORAGE_KEY (localStorage w) = Some (StoredUrls m) ->
  snd (Startup.loadFromStorage env decode_urls w) =
  snd (record env (loaded_info (JsMap.size (object_entries m)))
         (set_urls (object_entries m) w)).
Proof.
  intros Hwin Hls Hdec Hget. unfold Startup.loadFromStorage.
  rewrite Hwin, bind_run, (getItem_reachable _ _ Hls). cbn [fst snd].
  rewrite Hget, Hdec, !bind_run. unfold modify, gets. cbn [fst snd urls set_urls].
  now rewrite info_record.
Qed.

Lemma loadFromStorage_nothing w :
  window_defined env = false
  \/ JsMap.get STORAGE_KEY (localStorage w) = None /\ localStorage_ok env = true
  \/ (exists s, JsMap.get STORAGE_KEY (localStorage w) = Some s
                /\ decode_urls s = Falsy /\ localStorage_ok env = true) ->
  snd (Startup.loadFromStorage env decode_urls w) = w.
Proof.
  unfold Startup.loadFromStorage.
  intros [Hwin | [[Hget Hls] | (s & Hget & Hdec & Hls)]].
  - now rewrite Hwin.
  - destruct (window_defined env); [| reflexivity].
    rewrite bind_run, (getItem_reachable _ _ Hls). cbn [fst snd].
    now rewrite Hget.
  - destruct (window_defined env); [| reflexivity].
    rewrite bind_run, (getItem_reachable _ _ Hls). cbn [fst snd].
    now rewrite Hget, Hdec.
Qed.

Lemma loadFromStorage_failed w e :
  window_defined env = true ->
  localStorage_ok env = false /\ e = "localStorage is not defined"
  \/ (exists s, JsMap.get STORAGE_KEY (localStorage w) = Some s
                /\ decode_urls s = Unparsable e /\ localStorage_ok env = true) ->
  snd (Startup.loadFromStorage env decode_urls w) =
  snd (record env (load_failed_error e) w).
Proof.
  intros Hwin H. unfold Startup.loadFromStorage. rewrite Hwin, bind_run.
  destruct H as [[Hls ->] | (s & Hget & Hdec & Hls)].
  - rewrite (getItem_unreachable _ _ Hls). cbn [fst snd].
    now rewrite error_record.
  - rewrite (getItem_reachable _ _ Hls). cbn [fst snd].
    now rewrite Hget, Hdec, error_record.
Qed.

(** The constructor: the field is initialised, the snapshot is read, and the
    size of what was found is logged. *)
Lemma newUrlShortenerService_unfold w :
  snd (Startup.newUrlShortenerService env decode_urls w) =
  let w1 := snd (Startup.loadFromStorage env decode_urls (set_urls [] w)) in
  snd (record env (service_init_info (JsMap.size (urls w1))) w1).
Proof.
  unfold Startup.newUrlShortenerService. rewrite !bind_run.
  unfold modify, gets. cbn [fst snd]. now rewrite info_record.
Qed.
End StartupFacts.

Section ReloadFacts.
Variable env : Env.
Variable decode_urls : Stored -> Decoded (JsMap.t Url.ShortenedUrl).
Variable decode_logs : Stored -> Decoded (list Log.LogEntry).

Lemma pageLoad_unfold w :
  snd (Startup.pageLoad env decode_urls decode_logs w) =
  snd (Startup.newUrlShortenerService env decode_urls
         (snd (Startup.newLogger env decode_logs w))).
Proof. unfold Startup.pageLoad. now rewrite bind_run. Qed.

Lemma pageLoad_urls w m :
  window_defined env = true -> localStorage_ok env = true ->
  decodes_urls decode_urls ->
  JsMap.get STORAGE_KEY (localStorage w) = Some (StoredUrls m) ->
  urls (snd (Startup.pageLoad env decode_urls decode_logs w)) = object_entries m
  /\ same_snapshot w (snd (Startup.pageLoad env decode_urls decode_logs w)).
Proof.
  intros Hwin Hls Hdec Hget.
  destruct (newLogger_frame env decode_logs w) as [_ Hsnap].
  unfold same_snapshot in *.
  set (w0 := snd (Startup.newLogger env decode_logs w)) in *.
  assert (Hget0 : JsMap.get STORAGE_KEY (localStorage (set_urls [] w0))
                  = Some (StoredUrls m)) by (cbn; congruence).
  rewrite pageLoad_unfold. fold w0.
  rewrite newUrlShortenerService_unfold. cbv zeta.
  rewrite (loadFromStorage_loaded env decode_urls _ m Hwin Hls Hdec Hget0).
  rewrite !record_urls, !record_storage_other by discriminate.
  cbn [urls localStorage set_urls]. split; [reflexivity | exact Hsnap].
Qed.

Lemma json_entry_defined e : context_defined e -> json_entry e = e.
Proof.
  unfold context_defined, json_entry. destruct e as [i t lv msg ctx uid act].
  cbn [Log.context Log.id Log.timestamp Log.level Log.message Log.userId Log.action].
  destruct ctx as [ctx |]; cbn [option_map]; [| reflexivity].
  intros H. do 2 f_equal. unfold json_context.
  induction H as [| p ctx Hp _ IH]; cbn [filter]; [reflexivity |].
  rewrite IH. destruct (snd p); try reflexivity. contradiction.
Qed.

Lemma map_json_entry_defined l :
  Forall context_defined l -> map json_entry l = l.
Proof.
  induction 1 as [| e l He _ IH]; cbn [map]; [reflexivity |].
  now rewrite IH, json_entry_defined.
Qed.

Lemma newLogger_loaded w l :
  window_defined env = true -> localStorage_ok env = true ->
  decodes_logs decode_logs ->
  JsMap.get "app-logs" (localStorage w) = Some (StoredLogs l) ->
  snd (Startup.newLogger env decode_logs w) =
  snd (record env logger_init_info (set_logs (map json_entry l) (set_logs [] w))).
Proof.
  intros Hwin Hls Hdec Hget. unfold Startup.newLogger, Startup.init.
  rewrite Hwin, !bind_run. unfold Startup.loadLogs. rewrite !bind_run.
  unfold modify. cbn [fst snd].
  rewrite (getItem_reachable env _ _ Hls).
  cbn [fst snd localStorage set_logs]. rewrite Hget, Hdec.
  cbn [snd]. now rewrite info_record.
Qed.
End ReloadFacts.

(** X17. A page load in a browser reads the registry back from its
    snapshot: whatever the mapping held in memory before, the new one has
    the records of the snapshot, each code with the record it had (same size,
    codes still distinct), in the same order when no code is an array index;
    the snapshot itself is not rewritten by the load. *)
Theorem pageLoad_restores_registry
    (env : Env) (decode_urls : Stored -> Decoded (JsMap.t Url.ShortenedUrl))
    (decode_logs : Stored -> Decoded (list Log.LogEntry))
    (w : World) (m : JsMap.t Url.ShortenedUrl) :
  window_defined env = true ->
  localStorage_ok env = true ->
  decodes_urls decode_urls ->
  JsMap.get STORAGE_KEY (localStorage w) = Some (StoredUrls m) ->
  JsMap.wf m ->
  let w' := snd (Startup.pageLoad env decode_urls decode_logs w) in
  (forall k, JsMap.get k (urls w') = JsMap.get k m)
  /\ Permutation (urls w') m
  /\ JsMap.size (urls w') = JsMap.size m
  /\ JsMap.wf (urls w')
  /\ (Forall (fun p => is_array_index (fst p) = false) m -> urls w' = m)
  /\ same_snapshot w w'.
Proof.
  intros Hwin Hls Hdec Hget Hwf w'. subst w'.
  destruct (pageLoad_urls env decode_urls decode_logs w m Hwin Hls Hdec Hget)
    as [-> Hsnap].
  pose proof (object_entries_perm m) as Hp.
  split; [| split; [exact Hp | split; [| split; [| split; [| exact Hsnap]]]]].
  - intros k. apply get_perm; [exact Hwf | now symmetry].
  - unfold JsMap.size. now apply Permutation_length.
  - unfold JsMap.wf in *. eapply Permutation_NoDup; [| exact Hwf].
    apply Permutation_map. now symmetry.
  - apply object_entries_no_index.
Qed.

(** X18. The order of the mapping after a page load: the codes that are
    array indices (canonical decimal numerals below [2^32 - 1], which the
    pattern of codes allows) come first, in ascending numeric order, and the
    other codes follow in the order the snapshot had them. *)
Theorem pageLoad_reorders_numeric_codes
    (env : Env) (decode_urls : Stored -> Decoded (JsMap.t Url.ShortenedUrl))
    (decode_logs : Stored -> Decoded (list Log.LogEntry))
    (w : World) (m : JsMap.t Url.ShortenedUrl) :
  window_defined env = true ->
  localStorage_ok env = true ->
  decodes_urls decode_urls ->
  JsMap.get STORAGE_KEY (localStorage w) = Some (StoredUrls m) ->
  let w' := snd (Startup.pageLoad env decode_urls decode_logs w) in
  exists indices others : JsMap.t Url.ShortenedUrl,
    urls w' = (indices ++ others)%list
    /\ Forall (fun p => is_array_index (fst p) = true) indices
    /\ StronglySorted (fun a b => (index_of (fst a) <= index_of (fst b))%Z) indices
    /\ others = filter (fun p => negb (is_array_index (fst p))) m.
Proof.
  intros Hwin Hls Hdec Hget w'. subst w'.
  destruct (pageLoad_urls env decode_urls decode_logs w m Hwin Hls Hdec Hget)
    as [-> _].
  apply object_entries_order.
Qed.

(** X19. A load that finds no registry is not fatal: outside a browser, with
    no snapshot or an empty text under the key, the service starts with an
    empty mapping and logs its start with 0 records; when reading throws (the
    storage cannot be reached, or the text does not parse) it logs the ERROR
    event LOAD_STORAGE_ERROR with the message, then starts the same way. *)
Theorem service_starts_empty_when_nothing_loads
    (env : Env) (decode_urls : Stored -> Decoded (JsMap.t Url.ShortenedUrl))
    (w : World) :
  let w' := snd (Startup.newUrlShortenerService env decode_urls w) in
  (window_defined env = false
   \/ JsMap.get STORAGE_KEY (localStorage w) = None /\ localStorage_ok env = true
   \/ (exists s, JsMap.get STORAGE_KEY (localStorage w) = Some s
                 /\ decode_urls s = Falsy /\ localStorage_ok env = true) ->
   urls w' = []
   /\ w' = snd (record env (service_init_info 0) (set_urls [] w)))
  /\ (forall e,
        window_defined env = true ->
        localStorage_ok env = false /\ e = "localStorage is not defined"
        \/ (exists s, JsMap.get STORAGE_KEY (localStorage w) = Some s
                      /\ decode_urls s = Unparsable e /\ localStorage_ok env = true) ->
        urls w' = []
        /\ w' = snd (record_all env [load_failed_error e; service_init_info 0]
                       (set_urls [] w))).
Proof.
  intros w'. subst w'. rewrite newUrlShortenerService_unfold. cbv zeta. split.
  - intros H.
    rewrite (loadFromStorage_nothing env decode_urls (set_urls [] w) H).
    cbn [urls set_urls]. split; [apply record_urls | reflexivity].
  - intros e Hwin H.
    rewrite (loadFromStorage_failed env decode_urls (set_urls [] w) e Hwin H).
    rewrite record_all_two, !record_urls. cbn [urls set_urls].
    split; reflexivity.
Qed.

(** X20. A page load in a browser reads the log back under the entry of its
    own start: the buffer is the INFO event LOGGER_INIT followed by the stored
    entries, without the context properties that were [undefined] (entries
    that had none come back as they were), cut at 1000 even when the snapshot
    held more. Outside a browser the logger starts empty. *)
Theorem newLogger_restores_log
    (env : Env) (decode_logs : Stored -> Decoded (list Log.LogEntry))
    (w : World) (l : list Log.LogEntry) :
  (window_defined env = true ->
   localStorage_ok env = true ->
   decodes_logs decode_logs ->
   JsMap.get "app-logs" (localStorage w) = Some (StoredLogs l) ->
   let w' := snd (Startup.newLogger env decode_logs w) in
   List.length (logs w') <= 1000
   /\ (exists e : Log.LogEntry,
         call_of e = logger_init_info
         /\ logs w' = firstn 1000 (e :: map json_entry l)
         /\ (Forall context_defined l -> logs w' = firstn 1000 (e :: l))))
  /\ (window_defined env = false ->
      logs (snd (Startup.newLogger env decode_logs w)) = []).
Proof.
  split.
  - intros Hwin Hls Hdec Hget w'. subst w'.
    rewrite (newLogger_loaded env decode_logs w l Hwin Hls Hdec Hget).
    rewrite record_logs. cbn [logs set_logs]. split.
    + rewrite length_firstn. apply Nat.le_min_l.
    + eexists. split; [apply call_of_entry_of |]. split; [reflexivity |].
      intros Hdef. now rewrite map_json_entry_defined.
  - intros Hwin. unfold Startup.newLogger. rewrite bind_run, Hwin. reflexivity.
Qed.

(** X21. A session survives a reload: in a browser where the writes go
    through, after any sequence of shorten, click and delete operations from
    a registry in step with its snapshot, a page load gives back a mapping in
    which every code has the record it had, and [getAllUrls] lists the same
    records. *)
Theorem session_survives_reload
    (env : Env) (decode_urls : Stored -> Decoded (JsMap.t Url.ShortenedUrl))
    (decode_logs : Stored -> Decoded (list Log.LogEntry))
    (fuel : nat) (ops : list Op) (w0 w : World) :
  window_defined env = true ->
  writes_succeed env ->
  decodes_urls decode_urls ->
  JsMap.wf (urls w0) ->
  synced w0 ->
  run env fuel ops w0 = Some w ->
  let w' := snd (Startup.pageLoad env decode_urls decode_logs w) in
  (forall k, fst (getUrl env k w') = fst (getUrl env k w))
  /\ JsMap.size (urls w') = JsMap.size (urls w)
  /\ Permutation (fst (getAllUrls env w')) (fst (getAllUrls env w))
  /\ same_snapshot w w'.
Proof.
  intros Hwin Hw Hdec Hwf0 Hs0 Hrun w'. subst w'.
  assert (Hwf : JsMap.wf (urls w)) by (eapply run_wf; eassumption).
  assert (Hs : synced w).
  { revert w0 Hwf0 Hs0 Hrun. induction ops as [| op ops IH]; intros w0 Hwf0 Hs0;
      cbn [run].
    - now intros [= <-].
    - destruct (step env fuel op w0) as [w1 |] eqn:E; [| discriminate].
      intros H. apply (IH w1); [eapply step_wf; eassumption | | exact H].
      destruct (step_shape env fuel op w0 w1 E) as [[Hu Hk] | Hsaved].
      + unfold synced, same_snapshot in *. congruence.
      + eapply saved_and_logged_synced; eassumption. }
  destruct (pageLoad_urls env decode_urls decode_logs w (urls w) Hwin
              (proj1 Hw) Hdec Hs) as [Hu Hsnap].
  pose proof (object_entries_perm (urls w)) as Hp.
  assert (Hget : forall k,
            JsMap.get k (urls (snd (Startup.pageLoad env decode_urls decode_logs w)))
            = JsMap.get k (urls w))
    by (intros k; rewrite Hu; apply get_perm; [exact Hwf | now symmetry]).
  split; [| split; [| split]].
  - intros k. now rewrite !getUrl_fst.
  - rewrite Hu. unfold JsMap.size. now apply Permutation_length.
  - rewrite <- !getAllUrls_perm, Hu. unfold JsMap.values.
    now apply Permutation_map.
  - exact Hsnap.
Qed.

Lemma pageLoad_restores_registry_witness :
  window_defined demo_env = true
  /\ localStorage_ok demo_env = true
  /\ decodes_urls demo_decode_urls
  /\ JsMap.get STORAGE_KEY (localStorage demo_world)
     = Some (StoredUrls (urls demo_world))
  /\ JsMap.wf (urls demo_world)
  /\ let w' := snd (Startup.pageLoad demo_env demo_decode_urls demo_decode_logs
                      demo_world) in
     (forall k, JsMap.get k (urls w') = JsMap.get k (urls demo_world))
     /\ Permutation (urls w') (urls demo_world)
     /\ JsMap.size (urls w') = JsMap.size (urls demo_world)
     /\ JsMap.wf (urls w')
     /\ (Forall (fun p => is_array_index (fst p) = false) (urls demo_world) ->
         urls w' = urls demo_world)
     /\ same_snapshot demo_world w'.
Proof.
  split; [reflexivity |]. split; [reflexivity |].
  split; [exact demo_decodes_urls |]. split; [exact demo_world_synced |].
  split; [exact demo_world_wf |].
  exact (pageLoad_restores_registry demo_env demo_decode_urls demo_decode_logs
           demo_world (urls demo_world) eq_refl eq_refl demo_decodes_urls
           demo_world_synced demo_world_wf).
Defined.

Lemma pageLoad_reorders_numeric_codes_witness :
  window_defined demo_env = true
  /\ localStorage_ok demo_env = true
  /\ decodes_urls demo_decode_urls
  /\ JsMap.get STORAGE_KEY (localStorage numeric_world)
     = Some (StoredUrls (urls numeric_world))
  /\ let w' := snd (Startup.pageLoad demo_env demo_decode_urls demo_decode_logs
                      numeric_world) in
     exists indices others : JsMap.t Url.ShortenedUrl,
       urls w' = (indices ++ others)%list
       /\ Forall (fun p => is_array_index (fst p) = true) indices
       /\ StronglySorted (fun a b => (index_of (fst a) <= index_of (fst b))%Z) indices
       /\ others = filter (fun p => negb (is_array_index (fst p))) (urls numeric_world).
Proof.
  assert (H : JsMap.get STORAGE_KEY (localStorage numeric_world)
              = Some (StoredUrls (urls numeric_world)))
    by (vm_compute; reflexivity).
  split; [reflexivity |]. split; [reflexivity |].
  split; [exact demo_decodes_urls |]. split; [exact H |].
  exact (pageLoad_reorders_numeric_codes demo_env demo_decode_urls demo_decode_logs
           numeric_world (urls numeric_world) eq_refl eq_refl demo_decodes_urls H).
Defined.

Lemma service_starts_empty_when_nothing_loads_witness :
  window_defined server_env = false
  /\ (let w' := snd (Startup.newUrlShortenerService server_env demo_decode_urls
                       demo_world) in
      urls w' = []
      /\ w' = snd (record server_env (service_init_info 0) (set_urls [] demo_world)))
  /\ window_defined blocked_env = true
  /\ localStorage_ok blocked_env = false
  /\ (let w' := snd (Startup.newUrlShortenerService blocked_env demo_decode_urls
                       demo_world) in
      urls w' = []
      /\ w' = snd (record_all blocked_env
                     [load_failed_error "localStorage is not defined";
                      service_init_info 0]
                     (set_urls [] demo_world))).
Proof.
  split; [reflexivity |].
  split;
    [exact (proj1 (service_starts_empty_when_nothing_loads server_env
                     demo_decode_urls demo_world) (or_introl eq_refl)) |].
  split; [reflexivity |]. split; [reflexivity |].
  exact (proj2 (service_starts_empty_when_nothing_loads blocked_env
                  demo_decode_urls demo_world)
           "localStorage is not defined" eq_refl
           (or_introl (conj eq_refl eq_refl))).
Defined.

Lemma newLogger_restores_log_witness :
  window_defined demo_env = true
  /\ localStorage_ok demo_env = true
  /\ decodes_logs demo_decode_logs
  /\ JsMap.get "app-logs" (localStorage demo_world)
     = Some (StoredLogs (logs demo_world))
  /\ (let w' := snd (Startup.newLogger demo_env demo_decode_logs demo_world) in
      List.length (logs w') <= 1000
      /\ (exists e : Log.LogEntry,
            call_of e = logger_init_info
            /\ logs w' = firstn 1000 (e :: map json_entry (logs demo_world))
            /\ (Forall context_defined (logs demo_world) ->
                logs w' = firstn 1000 (e :: logs demo_world))))
  /\ window_defined server_env = false
  /\ logs (snd (Startup.newLogger server_env demo_decode_logs demo_world)) = [].
Proof.
  assert (H : JsMap.get "app-logs" (localStorage demo_world)
              = Some (StoredLogs (logs demo_world)))
    by (vm_compute; reflexivity).
  split; [reflexivity |]. split; [reflexivity |].
  split; [exact demo_decodes_logs |]. split; [exact H |].
  split;
    [exact (proj1 (newLogger_restores_log demo_env demo_decode_logs demo_world
                     (logs demo_world)) eq_refl eq_refl demo_decodes_logs H) |].
  split; [reflexivity |].
  exact (proj2 (newLogger_restores_log server_env demo_decode_logs demo_world [])
           eq_refl).
Defined.

Lemma session_survives_reload_witness :
  window_defined demo_env = true
  /\ writes_succeed demo_env
  /\ decodes_urls demo_decode_urls
  /\ JsMap.wf (urls demo_world)
  /\ synced demo_world
  /\ run demo_env 1 demo_ops demo_world = Some demo_world_after
  /\ let w' := snd (Startup.pageLoad demo_env demo_decode_urls demo_decode_logs
                      demo_world_after) in
     (forall k, fst (getUrl demo_env k w') = fst (getUrl demo_env k demo_world_after))
     /\ JsMap.size (urls w') = JsMap.size (urls demo_world_after)
     /\ Permutation (fst (getAllUrls demo_env w'))
          (fst (getAllUrls demo_env demo_world_after))
     /\ same_snapshot demo_world_after w'.
Proof.
  split; [reflexivity |]. split; [exact demo_writes_succeed |].
  split; [exact demo_decodes_urls |]. split; [exact demo_world_wf |].
  split; [exact demo_world_synced |]. split; [exact demo_run |].
  exact (session_survives_reload demo_env demo_decode_urls demo_decode_logs 1
           demo_ops demo_world demo_world_after eq_refl demo_writes_succeed
           demo_decodes_urls demo_world_wf demo_world_synced demo_run).
Defined.

(** ** The pages *)

Section PageFacts.
Variable env : Env.

Lemma snd_modify (f : World -> World) (w : World) : snd (modify f w) = f w.
Proof. reflexivity. Qed.

Lemma record_newest c w :
  logs (snd (record env c w)) =
  entry_of env c w :: firstn (pred Logger.maxLogs) (logs w).
Proof. rewrite record_logs. reflexivity. Qed.

Lemma getUrl_present shortCode w u :
  JsMap.get shortCode (urls w) = Some u ->
  fst (getUrl env shortCode w) = Some u.
Proof. intros H. now rewrite getUrl_fst. Qed.

Lemma getUrl_storage_other key shortCode w :
  key <> "app-logs" ->
  JsMap.get key (localStorage (snd (getUrl env shortCode w))) =
  JsMap.get key (localStorage w).
Proof.
  intros Hk. unfold getUrl. rewrite debug_record, !bind_run.
  rewrite fst_gets, snd_gets.
  destruct (JsMap.get shortCode (urls (snd (record env _ w)))).
  - rewrite snd_ret. now rewrite record_storage_other.
  - rewrite warn_record, bind_run, snd_ret.
    now rewrite !record_storage_other.
Qed.

Lemma clearLogs_run w :
  localStorage_ok env = true ->
  Logger.clearLogs env w =
  (Js.Normal tt,
   snd (record env clear_info
          (set_localStorage (JsMap.delete "app-logs" (localStorage w))
             (set_logs [] w)))).
Proof.
  intros H. unfold Logger.clearLogs, Logger.removeItem. rewrite H.
  rewrite !bind_run, fst_ret, !snd_ret, !snd_modify. cbv iota.
  rewrite bind_run, info_record. reflexivity.
Qed.

End PageFacts.

(** X22. The redirect page, opened for a short code the registry holds,
    records one click and shows the record as the registry now holds it; the
    count it then logs as [totalClicks] is that record's count plus one, two
    more than the count before the visit: the page adds one to a record that
    [recordClick] has already changed. *)
Theorem redirect_logs_one_click_too_many
    (env : Env) (shortCode userAgent referrer : string) (w : World)
    (u : Url.ShortenedUrl) :
  Js.truthy (Some shortCode) = true ->
  JsMap.get shortCode (urls w) = Some u ->
  let r := RedirectPage.effect env (Some shortCode) userAgent referrer w in
  exists (u' : Url.ShortenedUrl) (e : Log.LogEntry) (rest : list Log.LogEntry),
    fst r = RedirectPage.Redirecting u'
    /\ JsMap.get shortCode (urls (snd r)) = Some u'
    /\ Url.clicks u' = (Url.clicks u + 1)%Z
    /\ logs (snd r) = e :: rest
    /\ call_of e =
       redirect_info shortCode (Url.originalUrl u) (Url.clicks u + 2)%Z.
Proof.
  intros Ht Hget r. subst r. unfold RedirectPage.effect. rewrite Ht.
  rewrite info_record, !bind_run.
  set (w1 := snd (record env _ w)).
  assert (H1 : JsMap.get shortCode (urls w1) = Some u)
    by (subst w1; now rewrite record_urls).
  rewrite (getUrl_present env _ _ _ H1).
  assert (H2 : JsMap.get shortCode (urls (snd (getUrl env shortCode w1))) = Some u)
    by now rewrite getUrl_urls.
  set (w2 := snd (getUrl env shortCode w1)) in *.
  destruct (recordClick_present env shortCode (Some userAgent) (Some referrer) w2 u H2)
    as [_ Hset].
  rewrite !bind_run, fst_gets, snd_gets.
  set (w3 := snd (recordClick env shortCode (Some userAgent) (Some referrer) w2)) in *.
  rewrite Hset, get_set_same, info_record, fst_ret, snd_ret.
  rewrite record_urls, Hset, get_set_same, record_newest.
  eexists _, _, _. split; [reflexivity |]. split; [reflexivity |].
  split; [reflexivity |]. split; [reflexivity |].
  rewrite call_of_entry_of. unfold redirect_info.
  cbn [clicked Url.clicks Url.originalUrl].
  replace (Url.clicks u + 1 + 1)%Z with (Url.clicks u + 2)%Z by lia. reflexivity.
Qed.

(** X23. The redirect page does nothing at all without a short code; for a
    short code the registry does not hold it reports "not found" and leaves
    the registry and its stored snapshot as they were: no click is recorded. *)
Theorem redirect_unknown_code_records_nothing
    (env : Env) (userAgent referrer : string) (w : World) :
  (forall shortCode : option string,
     Js.truthy shortCode = false ->
     RedirectPage.effect env shortCode userAgent referrer w
     = (RedirectPage.Skipped, w))
  /\ (forall shortCode : string,
        Js.truthy (Some shortCode) = true ->
        JsMap.get shortCode (urls w) = None ->
        let r := RedirectPage.effect env (Some shortCode) userAgent referrer w in
        fst r = RedirectPage.NotFound
        /\ urls (snd r) = urls w
        /\ same_snapshot w (snd r)).
Proof.
  split.
  - intros shortCode Ht. unfold RedirectPage.effect. now rewrite Ht.
  - intros shortCode Ht Hget r. subst r. unfold RedirectPage.effect. rewrite Ht.
    rewrite info_record, !bind_run.
    set (w1 := snd (record env _ w)).
    assert (H1 : fst (getUrl env shortCode w1) = None)
      by (rewrite getUrl_fst; subst w1; now rewrite record_urls).
    rewrite H1, warn_record, bind_run, fst_ret, snd_ret.
    split; [reflexivity |]. split.
    + rewrite record_urls, getUrl_urls. subst w1. apply record_urls.
    + unfold same_snapshot.
      rewrite record_storage_other, getUrl_storage_other by discriminate.
      subst w1. now rewrite record_storage_other.
Qed.

Lemma redirect_logs_one_click_too_many_witness :
  Js.truthy (Some "docs") = true
  /\ JsMap.get "docs" (urls demo_world) = Some demo_record
  /\ let r := RedirectPage.effect demo_env (Some "docs") "Mozilla/5.0" "" demo_world in
     exists (u' : Url.ShortenedUrl) (e : Log.LogEntry) (rest : list Log.LogEntry),
       fst r = RedirectPage.Redirecting u'
       /\ JsMap.get "docs" (urls (snd r)) = Some u'
       /\ Url.clicks u' = (Url.clicks demo_record + 1)%Z
       /\ logs (snd r) = e :: rest
       /\ call_of e =
          redirect_info "docs" (Url.originalUrl demo_record)
            (Url.clicks demo_record + 2)%Z.
Proof.
  split; [reflexivity |]. split; [exact demo_world_docs |].
  exact (redirect_logs_one_click_too_many demo_env "docs" "Mozilla/5.0" ""
           demo_world demo_record eq_refl demo_world_docs).
Defined.

Lemma redirect_unknown_code_records_nothing_witness :
  Js.truthy (Some "") = false
  /\ RedirectPage.effect demo_env (Some "") "Mozilla/5.0" "" demo_world
     = (RedirectPage.Skipped, demo_world)
  /\ Js.truthy (Some "nope") = true
  /\ JsMap.get "nope" (urls demo_world) = None
  /\ let r := RedirectPage.effect demo_env (Some "nope") "Mozilla/5.0" "" demo_world in
     fst r = RedirectPage.NotFound
     /\ urls (snd r) = urls demo_world
     /\ same_snapshot demo_world (snd r).
Proof.
  assert (H : JsMap.get "nope" (urls demo_world) = None)
    by (vm_compute; reflexivity).
  split; [reflexivity |].
  split;
    [exact (proj1 (redirect_unknown_code_records_nothing demo_env "Mozilla/5.0" ""
                     demo_world) (Some "") eq_refl) |].
  split; [reflexivity |]. split; [exact H |].
  exact (proj2 (redirect_unknown_code_records_nothing demo_env "Mozilla/5.0" ""
                  demo_world) "nope" eq_refl H).
Defined.

Section PageFacts2.
Variable env : Env.

Lemma values_delete_perm {V : Type} (k : string) (u : V) (m : JsMap.t V) :
  JsMap.wf m -> JsMap.get k m = Some u ->
  Permutation (u :: JsMap.values (JsMap.delete k m)) (JsMap.values m).
Proof.
  unfold JsMap.wf.
  induction m as [| [k' v'] m IH]; cbn [map fst JsMap.get]; [discriminate |].
  intros Hwf Hget. apply NoDup_cons_iff in Hwf. destruct Hwf as [Hk' Hwf].
  unfold JsMap.delete. cbn [filter fst].
  destruct (String.eqb_spec k' k) as [-> | Hne]; cbn [negb].
  - injection Hget as ->.
    fold (JsMap.delete k m). rewrite delete_absent; [reflexivity |].
    destruct (JsMap.has k m) eqn:E; [| reflexivity].
    apply has_In in E. contradiction.
  - fold (JsMap.delete k m). unfold JsMap.values. cbn [map snd].
    fold (JsMap.values (JsMap.delete k m)). fold (JsMap.values m).
    etransitivity; [apply perm_swap |]. apply perm_skip. now apply IH.
Qed.

Lemma loadLogs_run w :
  LogsPage.loadLogs env w =
  (logs w, snd (record env (display_loaded_debug (List.length (logs w))) w)).
Proof.
  unfold LogsPage.loadLogs, Logger.getLogs.
  rewrite !bind_run, debug_record, fst_gets, snd_gets. reflexivity.
Qed.

Lemma loadData_fst w :
  let data := fst (AnalyticsPage.loadData env w) in
  Url.totalUrls (fst data) = JsMap.size (urls w)
  /\ Url.totalClicks (fst data) = sum_clicks (JsMap.values (urls w))
  /\ snd data = fst (getAllUrls env w).
Proof.
  intros data. subst data. unfold AnalyticsPage.loadData.
  rewrite !bind_run, fst_ret. cbn [fst snd].
  destruct (getStats_fst env w) as (Hn & Hc & _). cbn zeta in Hn, Hc.
  rewrite Hn, Hc. split; [| split].
  - unfold JsMap.size, JsMap.values.
    rewrite <- (Permutation_length (getAllUrls_perm env w)).
    unfold JsMap.values. apply length_map.
  - symmetry. apply sum_clicks_perm, getAllUrls_perm.
  - now rewrite !getAllUrls_fst, getStats_urls.
Qed.

Lemma loadData_urls w : urls (snd (AnalyticsPage.loadData env w)) = urls w.
Proof.
  unfold AnalyticsPage.loadData. rewrite !bind_run, info_record, snd_ret.
  now rewrite record_urls, getAllUrls_urls, getStats_urls.
Qed.

Lemma filter_all {A : Type} (l : list A) : filter (fun _ => true) l = l.
Proof. induction l as [| a l IH]; cbn [filter]; [reflexivity | now rewrite IH]. Qed.

End PageFacts2.

(** X24. Clearing the log from the logs page, once confirmed and with a
    storage that can be reached, leaves exactly one entry on display, the
    record of the clearing itself; loading the display then logs a second
    entry, so the buffer already holds one entry more than the page shows. *)
Theorem handleClearLogs_shows_the_clearing
    (env : Env) (shown : list Log.LogEntry) (w : World) :
  localStorage_ok env = true ->
  let r := LogsPage.handleClearLogs env true shown w in
  exists e d : Log.LogEntry,
    fst r = Js.Normal [e]
    /\ call_of e = clear_info
    /\ logs (snd r) = [d; e]
    /\ call_of d = display_loaded_debug 1.
Proof.
  intros Hls r. subst r. unfold LogsPage.handleClearLogs.
  rewrite bind_run, (clearLogs_run env w Hls). cbn [fst snd].
  rewrite bind_run, loadLogs_run, fst_ret, snd_ret. cbn [fst snd].
  rewrite !record_newest. cbn [logs set_logs set_localStorage].
  rewrite firstn_nil.
  eexists _, _. split; [reflexivity |]. split; [apply call_of_entry_of |].
  split; [reflexivity |]. apply call_of_entry_of.
Qed.

(** X25. When the storage cannot be reached, a confirmed clearing from the
    logs page ends in the exception of [removeItem]: the buffer is already
    empty, nothing is logged and the display is not reloaded, so the page
    goes on showing entries the buffer no longer holds. *)
Theorem handleClearLogs_blocked_storage
    (env : Env) (shown : list Log.LogEntry) (w : World) :
  localStorage_ok env = false ->
  let r := LogsPage.handleClearLogs env true shown w in
  fst r = Js.Throw "localStorage is not defined"
  /\ logs (snd r) = []
  /\ urls (snd r) = urls w
  /\ localStorage (snd r) = localStorage w.
Proof.
  intros Hls r. subst r. unfold LogsPage.handleClearLogs.
  rewrite bind_run.
  unfold Logger.clearLogs, Logger.removeItem. rewrite Hls.
  rewrite !bind_run, !fst_ret, !snd_ret, !snd_modify.
  repeat split; reflexivity.
Qed.

(** X26. The home page lists the five newest records of the registry (all
    of them when there are fewer), newest first; no record left out is newer
    than one that is listed, and listing changes nothing in the registry. *)
Theorem recent_urls_five_newest (env : Env) (w : World) :
  let r := HomePage.loadRecentUrls env w in
  List.length (fst r) = Nat.min 5 (JsMap.size (urls w))
  /\ StronglySorted (fun a b => (Url.createdAt b <= Url.createdAt a)%Z) (fst r)
  /\ (exists rest : list Url.ShortenedUrl,
        Permutation (fst r ++ rest) (JsMap.values (urls w))
        /\ Forall (fun b =>
             Forall (fun a => (Url.createdAt b <= Url.createdAt a)%Z) (fst r))
             rest)
  /\ urls (snd r) = urls w.
Proof.
  intros r. subst r. unfold HomePage.loadRecentUrls.
  rewrite !bind_run, debug_record, fst_ret, snd_ret.
  rewrite record_urls, getAllUrls_urls, getAllUrls_fst.
  rewrite (slice_prefix 5).
  set (cmp := fun a b : Url.ShortenedUrl => (Url.createdAt b - Url.createdAt a)%Z).
  destruct (top_spec cmp Url.createdAt (fun a b => eq_refl) (fun _ => true) 5
              (JsMap.values (urls w)))
    as (_ & _ & Hsorted & _ & rest & Hperm & Hrest).
  rewrite filter_all in Hsorted, Hperm, Hrest.
  split; [| split; [exact Hsorted | split; [| reflexivity]]].
  - rewrite length_firstn, sort_length. unfold JsMap.size, JsMap.values.
    now rewrite length_map.
  - exists rest. split; [exact Hperm | exact Hrest].
Qed.

(** X27. A confirmed deletion on the analytics page of a short code the
    registry holds reloads the page from the registry without that record:
    one record fewer, the total of clicks lowered by the clicks of the
    deleted record, and the listing holds all the other records. *)
Theorem handleDelete_refreshes_totals
    (env : Env) (shortCode : string) (w : World) (u : Url.ShortenedUrl) :
  JsMap.wf (urls w) ->
  JsMap.get shortCode (urls w) = Some u ->
  let r := AnalyticsPage.handleDelete env shortCode true w in
  exists (stats : Url.UrlStats) (all : list Url.ShortenedUrl),
    fst r = Some (stats, all)
    /\ Permutation (u :: all) (JsMap.values (urls w))
    /\ S (Url.totalUrls stats) = JsMap.size (urls w)
    /\ (Url.totalClicks stats + Url.clicks u)%Z = sum_clicks (JsMap.values (urls w))
    /\ JsMap.get shortCode (urls (snd r)) = None.
Proof.
  intros Hwf Hget r. subst r. unfold AnalyticsPage.handleDelete.
  assert (Hhas : JsMap.has shortCode (urls w) = true)
    by (apply has_get; congruence).
  rewrite bind_run, deleteUrl_fst, Hhas, !bind_run, info_record.
  rewrite fst_ret, snd_ret.
  set (w1 := snd (deleteUrl env shortCode w)).
  assert (Hurls : urls w1 = JsMap.delete shortCode (urls w))
    by apply deleteUrl_urls.
  destruct (loadData_fst env w1) as (Hn & Hc & Hall). cbn zeta in Hn, Hc, Hall.
  pose proof (values_delete_perm shortCode u (urls w) Hwf Hget) as Hperm.
  exists (fst (fst (AnalyticsPage.loadData env w1))),
         (snd (fst (AnalyticsPage.loadData env w1))).
  split; [now destruct (fst (AnalyticsPage.loadData env w1)) |].
  split; [| split; [| split]].
  - rewrite Hall. etransitivity; [| exact Hperm]. apply perm_skip.
    apply Permutation_sym. rewrite <- Hurls. apply getAllUrls_perm.
  - rewrite Hn, Hurls. now apply size_delete_present.
  - rewrite Hc, Hurls, <- (sum_clicks_perm _ _ Hperm).
    unfold sum_clicks. cbn [map fold_right]. lia.
  - rewrite record_urls, loadData_urls, Hurls. apply get_delete_same.
Qed.

Lemma handleClearLogs_shows_the_clearing_witness :
  localStorage_ok demo_env = true
  /\ let r := LogsPage.handleClearLogs demo_env true (logs demo_world) demo_world in
     exists e d : Log.LogEntry,
       fst r = Js.Normal [e]
       /\ call_of e = clear_info
       /\ logs (snd r) = [d; e]
       /\ call_of d = display_loaded_debug 1.
Proof.
  split; [reflexivity |].
  exact (handleClearLogs_shows_the_clearing demo_env (logs demo_world) demo_world
           eq_refl).
Defined.

Lemma handleClearLogs_blocked_storage_witness :
  localStorage_ok blocked_env = false
  /\ let r := LogsPage.handleClearLogs blocked_env true (logs demo_world) demo_world in
     fst r = Js.Throw "localStorage is not defined"
     /\ logs (snd r) = []
     /\ urls (snd r) = urls demo_world
     /\ localStorage (snd r) = localStorage demo_world.
Proof.
  split; [reflexivity |].
  exact (handleClearLogs_blocked_storage blocked_env (logs demo_world) demo_world
           eq_refl).
Defined.

Lemma handleDelete_refreshes_totals_witness :
  JsMap.wf (urls demo_world)
  /\ JsMap.get "docs" (urls demo_world) = Some demo_record
  /\ let r := AnalyticsPage.handleDelete demo_env "docs" true demo_world in
     exists (stats : Url.UrlStats) (all : list Url.ShortenedUrl),
       fst r = Some (stats, all)
       /\ Permutation (demo_record :: all) (JsMap.values (urls demo_world))
       /\ S (Url.totalUrls stats) = JsMap.size (urls demo_world)
       /\ (Url.totalClicks stats + Url.clicks demo_record)%Z
          = sum_clicks (JsMap.values (urls demo_world))
       /\ JsMap.get "docs" (urls (snd r)) = None.
Proof.
  split; [exact demo_world_wf |]. split; [exact demo_world_docs |].
  exact (handleDelete_refreshes_totals demo_env "docs" demo_world demo_record
           demo_world_wf demo_world_docs).
Defined.

Section FormFacts.
Variable env : Env.

Lemma some_pair_fst {A : Type} (p : A * World) (a : A) (w : World) :
  Some p = Some (a, w) -> a = fst p.
Proof. intros H. injection H as ->. reflexivity. Qed.

Lemma loadRecentUrls_fst w :
  fst (HomePage.loadRecentUrls env w) =
  firstn 5
    (Js.sort (fun a b => (Url.createdAt b - Url.createdAt a)%Z)
       (JsMap.values (urls w))).
Proof.
  unfold HomePage.loadRecentUrls. rewrite !bind_run, fst_ret, getAllUrls_fst.
  apply (slice_prefix 5).
Qed.

Lemma loadRecentUrls_urls w : urls (snd (HomePage.loadRecentUrls env w)) = urls w.
Proof.
  unfold HomePage.loadRecentUrls. rewrite !bind_run, debug_record, snd_ret.
  now rewrite record_urls, getAllUrls_urls.
Qed.

Lemma loadRecentUrls_storage_other key w :
  key <> "app-logs" ->
  JsMap.get key (localStorage (snd (HomePage.loadRecentUrls env w))) =
  JsMap.get key (localStorage w).
Proof.
  intros Hk. unfold HomePage.loadRecentUrls, getAllUrls.
  rewrite !bind_run, !debug_record, !snd_ret, !snd_gets.
  now rewrite !record_storage_other.
Qed.

End FormFacts.

(** X28. What the form of the home page has done when its handler is done.
    It is no longer loading. Either it shows a result: then the fields are
    emptied, no error is shown, the record is the one appended to the
    registry for the URL typed in, under the custom code typed in unless that
    field was empty, and the list of recent URLs is reloaded from the new
    registry. Or it shows one of the three errors of [shortenUrl]: then the
    fields and the list are as they were, and so are the registry and its
    stored snapshot. *)
Theorem handleSubmit_outcome
    (env : Env) (fuel : nat) (s s' : HomePage.State) (w w' : World) :
  HomePage.handleSubmit env fuel s w = Some (s', w') ->
  HomePage.isLoading s' = false
  /\ match HomePage.result s' with
     | Some r =>
         HomePage.error s' = ""
         /\ HomePage.originalUrl s' = ""
         /\ HomePage.customCode s' = ""
         /\ Url.originalUrl r = HomePage.originalUrl s
         /\ Url.customCode r = negb (String.eqb (HomePage.customCode s) "")
         /\ (HomePage.customCode s <> "" -> Url.shortCode r = HomePage.customCode s)
         /\ JsMap.has (Url.shortCode r) (urls w) = false
         /\ urls w' = (urls w ++ [(Url.shortCode r, r)])%list
         /\ HomePage.recentUrls s' =
            firstn 5
              (Js.sort (fun a b => (Url.createdAt b - Url.createdAt a)%Z)
                 (JsMap.values (urls w')))
     | None =>
         (HomePage.error s' = InvalidUrl
          \/ HomePage.error s' = InvalidShortCode
          \/ HomePage.error s' = ShortCodeTaken)
         /\ HomePage.originalUrl s' = HomePage.originalUrl s
         /\ HomePage.customCode s' = HomePage.customCode s
         /\ HomePage.recentUrls s' = HomePage.recentUrls s
         /\ urls w' = urls w
         /\ same_snapshot w w'
     end.
Proof.
  unfold HomePage.handleSubmit. rewrite info_record.
  destruct (record env _ w) as [u0 w0] eqn:E0.
  assert (Hw0 : w0 = snd (record env
                  (Log.INFO, "Form submission started",
                   Some [("hasOriginalUrl",
                          JBool (Js.truthy (Some (HomePage.originalUrl s))));
                         ("hasCustomCode",
                          JBool (Js.truthy (Some (HomePage.customCode s))))],
                   Some "FORM_SUBMIT") w))
    by (now rewrite E0).
  assert (Hu0 : urls w0 = urls w) by (rewrite Hw0; apply record_urls).
  assert (Hs0 : same_snapshot w w0)
    by (unfold same_snapshot; rewrite Hw0; now rewrite record_storage_other).
  clear E0 Hw0.
  set (cc := if Js.truthy (Some (HomePage.customCode s))
             then Some (HomePage.customCode s) else None).
  destruct (shortenUrl env fuel (HomePage.originalUrl s) cc w0)
    as [[response w1] |] eqn:E1; [| discriminate].
  pose proof (shortenUrl_result env fuel _ _ _ _ _ E1) as Hspec.
  destruct (Url.data response) as [r |] eqn:Ed.
  - destruct Hspec as (Hsucc & _ & _ & Hfresh & Hurls & _ & Hurl & Hcustom
                       & _ & _ & _ & Hcode).
    rewrite Hsucc. intros H.
    pose proof (some_pair_world _ _ _ H) as Hw'.
    pose proof (some_pair_fst _ _ _ H) as Hs'. clear H.
    rewrite !bind_run, fst_ret in Hs'.
    rewrite !bind_run, snd_ret, info_record in Hw'.
    assert (Hu' : urls w' = urls w1)
      by (rewrite Hw', record_urls; apply loadRecentUrls_urls).
    rewrite Hs'. cbn [HomePage.isLoading HomePage.result HomePage.error
      HomePage.originalUrl HomePage.customCode HomePage.recentUrls].
    rewrite Hu0 in Hfresh, Hurls.
    split; [reflexivity |]. split; [reflexivity |]. split; [reflexivity |].
    split; [reflexivity |]. split; [exact Hurl |].
    split; [| split; [| split; [exact Hfresh | split]]].
    + rewrite Hcustom. subst cc. unfold Js.truthy.
      destruct (negb (String.eqb (HomePage.customCode s) "")) eqn:E;
        [exact E | reflexivity].
    + intros Hne. apply (Hcode (HomePage.customCode s)); [| exact Hne].
      subst cc. unfold Js.truthy.
      destruct (String.eqb_spec (HomePage.customCode s) ""); [contradiction |].
      reflexivity.
    + now rewrite Hu'.
    + now rewrite loadRecentUrls_fst, Hu'.
  - destruct Hspec as (Hsucc & Herr & Hurls & Hsnap).
    rewrite Hsucc. intros H.
    pose proof (some_pair_world _ _ _ H) as Hw'.
    pose proof (some_pair_fst _ _ _ H) as Hs'. clear H.
    rewrite !bind_run, fst_ret in Hs'.
    rewrite !bind_run, snd_ret, error_record in Hw'.
    rewrite Hs'. cbn [HomePage.isLoading HomePage.result HomePage.error
      HomePage.originalUrl HomePage.customCode HomePage.recentUrls].
    split; [reflexivity |]. split; [| repeat split].
    + destruct Herr as [-> | [-> | ->]]; cbn; auto.
    + now rewrite Hw', record_urls, Hurls.
    + unfold same_snapshot in *.
      rewrite Hw', record_storage_other by discriminate. congruence.
Qed.

Lemma handleSubmit_outcome_witness :
  exists (s' : HomePage.State) (w' : World),
    HomePage.handleSubmit demo_env 1 demo_form demo_world = Some (s', w')
    /\ HomePage.isLoading s' = false
    /\ match HomePage.result s' with
       | Some r =>
           HomePage.error s' = ""
           /\ HomePage.originalUrl s' = ""
           /\ HomePage.customCode s' = ""
           /\ Url.originalUrl r = HomePage.originalUrl demo_form
           /\ Url.customCode r = negb (String.eqb (HomePage.customCode demo_form) "")
           /\ (HomePage.customCode demo_form <> "" ->
               Url.shortCode r = HomePage.customCode demo_form)
           /\ JsMap.has (Url.shortCode r) (urls demo_world) = false
           /\ urls w' = (urls demo_world ++ [(Url.shortCode r, r)])%list
           /\ HomePage.recentUrls s' =
              firstn 5
                (Js.sort (fun a b => (Url.createdAt b - Url.createdAt a)%Z)
                   (JsMap.values (urls w')))
       | None =>
           (HomePage.error s' = InvalidUrl
            \/ HomePage.error s' = InvalidShortCode
            \/ HomePage.error s' = ShortCodeTaken)
           /\ HomePage.originalUrl s' = HomePage.originalUrl demo_form
           /\ HomePage.customCode s' = HomePage.customCode demo_form
           /\ HomePage.recentUrls s' = HomePage.recentUrls demo_form
           /\ urls w' = urls demo_world
           /\ same_snapshot demo_world w'
       end.
Proof.
  destruct (HomePage.handleSubmit demo_env 1 demo_form demo_world)
    as [[s' w'] |] eqn:E.
  - exists s', w'. split; [reflexivity |].
    exact (handleSubmit_outcome demo_env 1 demo_form s' demo_world w' E).
  - vm_compute in E. discriminate E.
Defined.

(** The form on the demo registry: it succeeds with a generated code, and
    the list of recent URLs then shows both records. *)
Example form_submission_succeeds :
  option_map
    (fun p => (option_map Url.originalUrl (HomePage.result (fst p)),
               HomePage.error (fst p),
               List.length (HomePage.recentUrls (fst p)),
               JsMap.size (urls (snd p))))
    (HomePage.handleSubmit demo_env 1 demo_form demo_world)
  = Some (Some "https://example.com", "", 2, 2).
Proof. vm_compute. reflexivity. Qed.
